(** * BIBparsley: a BibTeX reader, normaliser and writer

    Shallow embedding of the module [BIBparsley.py].

    Text is a list of characters.  Python strings hold Unicode code points;
    this development covers ASCII text: a character is an [ascii] and the
    character classes ([isspace], [isalpha], [isupper], [lower], [upper])
    follow Python on the code points below 128.

    Python integers that may become negative (brace counters, the result of
    [rfind]) are [Z]; indices into a text are [nat].  Every [while] loop is a
    [Fixpoint] on a fuel argument and answers [Timeout] when the fuel runs
    out; the callers pass [S (length text)] and the theorems show that this
    is always enough. *)

From Stdlib Require Import Ascii String.
From Stdlib Require Import List ZArith Lia Bool Arith.
Import ListNotations.


(** ** Results of a Python computation *)

Inductive exn : Type :=
| IndexError
| KeyError (key : list ascii)
| ValueError.

(** [Exit out] is [print(out); exit(1)]. *)
Inductive outcome (A : Type) : Type :=
| Return (a : A)
| Exit (out : list ascii)
| Raise (e : exn)
| Timeout.

Arguments Return {A} a.
Arguments Exit {A} out.
Arguments Raise {A} e.
Arguments Timeout {A}.

Definition bind {A B : Type} (m : outcome A) (k : A -> outcome B) : outcome B :=
  match m with
  | Return a => k a
  | Exit out => Exit out
  | Raise e => Raise e
  | Timeout => Timeout
  end.


Notation "x <- m ;; k" := (bind m (fun x => k))
  (at level 61, m at next level, right associativity).
Notation "' p <- m ;; k" := (bind m (fun x => match x with p => k end))
  (at level 61, p pattern, m at next level, right associativity).

(** ** The part of Python's [str] the program uses *)

Module Py.

Definition str := list ascii.

Definition lit (s : string) : str := list_ascii_of_string s.
Arguments lit s%_string.

Definition NL : ascii := "010"%char.
Definition TAB : ascii := "009"%char.
Definition DQUOTE : ascii := "034"%char.

Definition str_eqb (a b : str) : bool :=
  if list_eq_dec ascii_dec a b then true else false.

(** [c.isspace()] on ASCII: TAB, LF, VT, FF, CR, FS, GS, RS, US and space. *)
Definition isspace (c : ascii) : bool :=
  let n := nat_of_ascii c in
  ((9 <=? n) && (n <=? 13)) || ((28 <=? n) && (n <=? 32)).

(** [c.isupper()], [c.islower()] and [c.isalpha()] on ASCII: the letters
    [A] to [Z] and [a] to [z].  Above 127 Python knows further letters;
    see [isascii] below. *)
Definition isupper_char (c : ascii) : bool :=
  let n := nat_of_ascii c in (65 <=? n) && (n <=? 90).

Definition islower_char (c : ascii) : bool :=
  let n := nat_of_ascii c in (97 <=? n) && (n <=? 122).

Definition isalpha_char (c : ascii) : bool :=
  isupper_char c || islower_char c.

(** [c.lower()] and [c.upper()] on ASCII. *)
Definition lower_char (c : ascii) : ascii :=
  if isupper_char c then ascii_of_nat (nat_of_ascii c + 32) else c.

Definition upper_char (c : ascii) : ascii :=
  if islower_char c then ascii_of_nat (nat_of_ascii c - 32) else c.

(** [s.isalpha()]: non-empty and every character is a letter. *)
Definition isalpha (s : str) : bool :=
  match s with
  | [] => false
  | _ => forallb isalpha_char s
  end.

(** [s.isupper()]: no lower-case character and at least one upper-case one. *)
Definition isupper (s : str) : bool :=
  negb (existsb islower_char s) && existsb isupper_char s.

Definition lower (s : str) : str := map lower_char s.
Definition upper (s : str) : str := map upper_char s.

(** [s.isascii()]: every code point is below 128.  On such text the
    classes and the mappings above are Python's; the statements that
    depend on them are made for such text. *)
Definition isascii_char (c : ascii) : bool := nat_of_ascii c <? 128.

Definition isascii (s : str) : bool := forallb isascii_char s.

Fixpoint dropwhile (p : ascii -> bool) (s : str) : str :=
  match s with
  | [] => []
  | c :: s' => if p c then dropwhile p s' else s
  end.

Definition lstrip (s : str) : str := dropwhile isspace s.
Definition rstrip (s : str) : str := rev (dropwhile isspace (rev s)).

(** [s.strip()] *)
Definition strip (s : str) : str := rstrip (lstrip s).

(** [s.rstrip(chars)] for a one-character [chars]. *)
Definition rstrip_char (c : ascii) (s : str) : str :=
  rev (dropwhile (Ascii.eqb c) (rev s)).

(** [c in s] for a character [c]. *)
Definition contains (c : ascii) (s : str) : bool := existsb (Ascii.eqb c) s.

(** [s.count(c)] for a character [c]. *)
Definition count (c : ascii) (s : str) : nat := count_occ ascii_dec s c.

Fixpoint startswith (p s : str) : bool :=
  match p, s with
  | [], _ => true
  | a :: p', b :: s' => Ascii.eqb a b && startswith p' s'
  | _ :: _, [] => false
  end.

Definition endswith (p s : str) : bool := startswith (rev p) (rev s).

(** [s[a:b]] for [0 <= a], [0 <= b]. *)
Definition slice (s : str) (a b : nat) : str := firstn (b - a) (skipn a s).

(** [s[1:-1]] *)
Definition slice_1_m1 (s : str) : str := removelast (tl s).

(** [s[i]] *)
Definition getitem (s : str) (i : nat) : outcome ascii :=
  match nth_error s i with
  | Some c => Return c
  | None => Raise IndexError
  end.

(** [sep.join(l)] *)
Fixpoint join (sep : str) (l : list str) : str :=
  match l with
  | [] => []
  | [x] => x
  | x :: l' => x ++ sep ++ join sep l'
  end.

(** [s.split(c)] for a one-character separator. *)
Fixpoint split_aux (c : ascii) (s : str) (cur : str) : list str :=
  match s with
  | [] => [rev cur]
  | d :: s' =>
      if Ascii.eqb d c then rev cur :: split_aux c s' []
      else split_aux c s' (d :: cur)
  end.

Definition split (c : ascii) (s : str) : list str := split_aux c s [].

(** [s.split(c, 1)] for a one-character separator. *)
Fixpoint split1_aux (c : ascii) (s : str) (cur : str) : list str :=
  match s with
  | [] => [rev cur]
  | d :: s' =>
      if Ascii.eqb d c then [rev cur; s']
      else split1_aux c s' (d :: cur)
  end.

Definition split1 (c : ascii) (s : str) : list str := split1_aux c s [].

(** [s.rsplit(c, 1)] for a one-character separator. *)
Definition rsplit1 (c : ascii) (s : str) : list str :=
  match split1 c (rev s) with
  | [a; b] => [rev b; rev a]
  | _ => [s]
  end.

(** [s.split()]: the maximal runs of non-space characters. *)
Fixpoint split_ws_aux (s : str) (cur : str) : list str :=
  match s with
  | [] => match cur with [] => [] | _ => [rev cur] end
  | c :: s' =>
      if isspace c then
        match cur with
        | [] => split_ws_aux s' []
        | _ => rev cur :: split_ws_aux s' []
        end
      else split_ws_aux s' (c :: cur)
  end.

Definition split_ws (s : str) : list str := split_ws_aux s [].

(** [s.replace(old, new)] for a non-empty [old]: the occurrences of [old]
    are taken from the left and do not overlap.  Every turn takes at least
    one character of [s], so the fuel [length s] is enough. *)
Fixpoint replace_aux (fuel : nat) (old new s : str) : str :=
  match fuel with
  | O => s
  | S fuel' =>
      match s with
      | [] => []
      | c :: s' =>
          if startswith old s
          then new ++ replace_aux fuel' old new (skipn (length old) s)
          else c :: replace_aux fuel' old new s'
      end
  end.

Definition replace (old new s : str) : str :=
  replace_aux (length s) old new s.

(** [s.rfind(c, a, b)] for a character [c]: the highest index in [a, b)
    that holds [c], or -1. *)
Fixpoint find_last (c : ascii) (s : str) (i : nat) (found : Z) : Z :=
  match s with
  | [] => found
  | d :: s' =>
      find_last c s' (S i) (if Ascii.eqb d c then Z.of_nat i else found)
  end.

Definition rfind (c : ascii) (s : str) (a b : nat) : Z :=
  find_last c (slice s a b) a (-1)%Z.

(** The leftmost match of the regular expression [\s+and\s+] at the head of
    [s]: [Some n] when the first [n] characters of [s] match.  Both [\s+]
    are greedy; as [a] is no space, no shorter first run can match. *)
Definition match_and (s : str) : option nat :=
  let r1 := dropwhile isspace s in
  let n1 := length s - length r1 in
  if (0 <? n1) && startswith (lit "and") r1 then
    let r2 := skipn 3 r1 in
    let r3 := dropwhile isspace r2 in
    let n2 := length r2 - length r3 in
    if 0 <? n2 then Some (n1 + 3 + n2) else None
  else None.

(** [re.split(r"\s+and\s+", s)]: the text between the matches, which are
    taken from the left.  Every turn takes at least one character of [s],
    so the fuel [length s] is enough. *)
Fixpoint re_split_and_aux (fuel : nat) (s : str) (cur : str) : list str :=
  match fuel with
  | O => [rev cur ++ s]
  | S fuel' =>
      match s with
      | [] => [rev cur]
      | c :: s' =>
          match match_and s with
          | Some n => rev cur :: re_split_and_aux fuel' (skipn n s) []
          | None => re_split_and_aux fuel' s' (c :: cur)
          end
      end
  end.

Definition re_split_and (s : str) : list str :=
  re_split_and_aux (length s) s [].

(** ** [collections.OrderedDict] with string keys

    The pairs in insertion order; a key occurs at most once in a dictionary
    built with [od_set] from the empty one. *)

Definition odict (V : Type) := list (str * V).

Definition od_get {V} (d : odict V) (k : str) : option V :=
  match find (fun kv => str_eqb (fst kv) k) d with
  | Some kv => Some (snd kv)
  | None => None
  end.

(** [k in d] *)
Definition od_mem {V} (d : odict V) (k : str) : bool :=
  existsb (fun kv => str_eqb (fst kv) k) d.

(** [d[k] = v]: a present key keeps its place, a new one goes last. *)
Fixpoint od_set {V} (d : odict V) (k : str) (v : V) : odict V :=
  match d with
  | [] => [(k, v)]
  | (k', v') :: d' =>
      if str_eqb k' k then (k', v) :: d' else (k', v') :: od_set d' k v
  end.

(** [del d[k]] for a key that is present. *)
Definition od_del {V} (d : odict V) (k : str) : odict V :=
  filter (fun kv => negb (str_eqb (fst kv) k)) d.

(** [d.update(e)] *)
Definition od_update {V} (d e : odict V) : odict V :=
  fold_left (fun acc kv => od_set acc (fst kv) (snd kv)) e d.

(** [d[k]] *)
Definition od_getitem {V} (d : odict V) (k : str) : outcome V :=
  match od_get d k with
  | Some v => Return v
  | None => Raise (KeyError k)
  end.

End Py.

(** ** The program: [BIBparsley.py] *)

Module BIBparsley.
Import Py.

(** An entry is the dictionary [{"type": ..., "fields": ...}] that
    [process_bib_entry] builds: these two keys and no other. *)
Record entry : Type := { type : str; fields : odict str }.

Definition entry_keys (e : entry) : list str := [lit "type"; lit "fields"].

(** [k in entry] *)
Definition entry_mem (e : entry) (k : str) : bool :=
  existsb (str_eqb k) (entry_keys e).

(** Unpacking [a, b = l] *)
Definition unpack2 {A} (l : list A) : outcome (A * A) :=
  match l with
  | [a; b] => Return (a, b)
  | _ => Raise ValueError
  end.

(** [l[0]] *)
Definition first_item {A} (l : list A) : outcome A :=
  match l with
  | a :: _ => Return a
  | [] => Raise IndexError
  end.

Definition nonempty (s : str) : bool :=
  match s with [] => false | _ => true end.

(** *** Crossref

    The answer of [Crossref.works] is not part of the program: it is the
    function [respond], from the queried title and the limit to the items of
    the message.  [works] also records the query in the list of the queries
    sent so far. *)

Record item : Type := { item_title : option (list str); item_DOI : option str }.

Definition query : Type := (str * nat)%type.

Section Crossref.

Variable respond : str -> nat -> list item.

Definition works (query_title : str) (limit : nat) (sent : list query)
  : list item * list query :=
  (respond query_title limit, sent ++ [(query_title, limit)]).

(** Lines 6-14.  The result is a string in every case: the DOI of the first
    item, or the text [DOI not found]. *)
Definition get_doi (article_title : str) (sent : list query)
  : option str * list query :=
  let (items, sent) := works article_title 1 sent in
  match items with
  | it :: _ =>
      (Some (match item_DOI it with
             | Some d => d
             | None => lit "DOI not found"
             end), sent)
  | [] => (Some (lit "DOI not found"), sent)
  end.

(** Lines 17-31: the loop over the items. *)
Fixpoint exact_doi_loop (article_title : str) (items : list item)
  : outcome (option str) :=
  match items with
  | [] => Return None
  | it :: rest =>
      match item_title it with
      | Some titles =>
          t <- first_item titles ;;
          let found_title := lower (strip t) in
          if str_eqb found_title (lower (strip article_title))
          then Return (item_DOI it)
          else exact_doi_loop article_title rest
      | None => exact_doi_loop article_title rest
      end
  end.

Definition get_exact_doi (article_title : str) (sent : list query)
  : outcome (option str) * list query :=
  let (items, sent) := works article_title 10 sent in
  (exact_doi_loop article_title items, sent).

(** Lines 229-244.  The dictionary of the fields is changed in place; here
    the changed entry is returned, with the queries sent. *)
Definition update_DOI (e : entry) (sent : list query)
  : outcome entry * list query :=
  let bibtype := type e in
  let bibfields := fields e in
  if negb (entry_mem e (lit "doi")) then
    match od_getitem bibfields (lit "title") with
    | Return article_name =>
        if str_eqb bibtype (lit "article") then
          let (doi, sent) := get_doi article_name sent in
          match doi with
          | Some d =>
              (Return {| type := bibtype;
                         fields := od_set bibfields (lit "doi") d |}, sent)
          | None => (Return e, sent)
          end
        else
          let (r, sent) := get_exact_doi article_name sent in
          (doi <- r ;;
           match doi with
           | Some d =>
               Return {| type := bibtype;
                         fields := od_set bibfields (lit "doi") d |}
           | None => Return e
           end, sent)
    | Exit out => (Exit out, sent)
    | Raise x => (Raise x, sent)
    | Timeout => (Timeout, sent)
    end
  else (Return e, sent).

End Crossref.

(** *** Names: lines 34-91 *)

Definition is_all_uppercase (s : str) : bool := isalpha s && isupper s.

(** The [for] loop of [abbreviate_name], on the parts left and [joinname]. *)
Fixpoint abbreviate_loop (name_parts : list str) (joinname : str)
  : outcome str :=
  match name_parts with
  | [] => Return joinname
  | part :: rest =>
      if is_all_uppercase part then
        let letters := map (fun letter => letter :: lit ".") part in
        abbreviate_loop rest
          (join (lit " ") (filter nonempty (joinname :: letters)))
      else
        part <- (if isalpha part
                 then c <- getitem part 0 ;; Return (upper [c] ++ lit ".")
                 else Return part) ;;
        abbreviate_loop rest
          (join (lit " ") (filter nonempty [joinname; part]))
  end.

Definition abbreviate_name (name : str) : outcome str :=
  let name_parts := split_ws (replace (lit ".") (lit ". ") name) in
  abbreviate_loop name_parts [].

(** The body of the [for] loop of [split_authors]. *)
Definition format_author (author : str) : outcome str :=
  let author := strip author in
  if contains "," author then
    '(last, first) <- unpack2 (map strip (split1 "," author)) ;;
    a <- abbreviate_name first ;;
    Return (a ++ lit " " ++ last)
  else if contains " " author then
    '(first, last) <- unpack2 (rsplit1 " " author) ;;
    a <- abbreviate_name first ;;
    Return (a ++ lit " " ++ last)
  else Return author.

Fixpoint format_authors (authors : list str) (formatted_authors : list str)
  : outcome (list str) :=
  match authors with
  | [] => Return formatted_authors
  | author :: rest =>
      f <- format_author author ;;
      format_authors rest (formatted_authors ++ [f])
  end.

(** The bare [except] turns every exception of the loop into an exit. *)
Definition split_authors (author_str : str) : outcome (list str) :=
  let authors := re_split_and author_str in
  match format_authors authors [] with
  | Raise _ => Exit (lit "ERROR on author: " ++ author_str)
  | r => r
  end.

(** *** The value extractor: lines 184-218 *)

Record ev_state : Type :=
  { index : nat; brace_level : Z; in_quotes : bool; value : str }.

(** The value [extract_value] returns at a closing brace of level 0. *)
Definition strip_braces (value : str) : str :=
  if startswith (lit "{") value && endswith (lit "}") value
  then slice_1_m1 value else value.

(** One turn of the [while] loop at character [char]: the next state, or
    the returned pair. *)
Definition ev_step (char : ascii) (st : ev_state)
  : ev_state + (str * nat) :=
  let next lvl q :=
    {| index := index st + 1; brace_level := lvl; in_quotes := q;
       value := value st ++ [char] |} in
  if Ascii.eqb char "{" then
    inl (next (brace_level st + 1)%Z (in_quotes st))
  else if Ascii.eqb char "}" then
    let lvl := (brace_level st - 1)%Z in
    if (lvl =? 0)%Z
    then inr (strip_braces (value st ++ [char]), index st)
    else inl (next lvl (in_quotes st))
  else if Ascii.eqb char DQUOTE then
    inl (next (brace_level st) (negb (in_quotes st)))
  else if Ascii.eqb char "," && (brace_level st =? 0)%Z
          && negb (in_quotes st) then
    inr (value st, index st)
  else inl (next (brace_level st) (in_quotes st)).

Fixpoint ev_loop (fuel : nat) (text : str) (st : ev_state)
  : outcome (str * nat) :=
  match fuel with
  | O => Timeout
  | S fuel' =>
      if index st <? length text then
        char <- getitem text (index st) ;;
        match ev_step char st with
        | inl st' => ev_loop fuel' text st'
        | inr r => Return r
        end
      else Return (value st, index st)
  end.

Definition extract_value (text : str) (start_index : nat)
  : outcome (str * nat) :=
  ev_loop (S (length text)) text
    {| index := start_index; brace_level := 0; in_quotes := false;
       value := [] |}.

(** *** The field parser: lines 148-181 *)

(** The inner loop that skips the characters of [" \t\n"]. *)
Fixpoint skip_loop (fuel : nat) (field_text : str) (index : nat)
  : outcome nat :=
  match fuel with
  | O => Timeout
  | S fuel' =>
      if index <? length field_text then
        c <- getitem field_text index ;;
        if contains c (" " :: TAB :: NL :: nil)%char
        then skip_loop fuel' field_text (index + 1)
        else Return index
      else Return index
  end.

(** Lines 167-175: what is stored for [key] from the extracted [value]. *)
Definition normalize_value (key value : str) : outcome str :=
  let value := rstrip_char "," value in
  if existsb (str_eqb key) [lit "author"; lit "editor"] then
    value <- split_authors value ;;
    Return (join (lit " and ") value)
  else if str_eqb key (lit "pages") then
    let n := count "-" value in
    if 1 <? n
    then Return (replace (repeat "-"%char n) (lit "-") value)
    else Return value
  else Return value.

Fixpoint pf_loop (fuel : nat) (field_text : str) (index : nat)
  (fields : odict str) : outcome (odict str) :=
  match fuel with
  | O => Timeout
  | S fuel' =>
      if index <? length field_text then
        c <- getitem field_text index ;;
        if Ascii.eqb c "=" then
          let key_start := Z.to_nat (rfind NL field_text 0 index + 1) in
          let key := lower (strip (slice field_text key_start index)) in
          let index := index + 1 in
          index <- skip_loop (S (length field_text)) field_text index ;;
          '(value, index) <- extract_value field_text index ;;
          value <- normalize_value key value ;;
          let fields := od_set fields (lower key) value in
          pf_loop fuel' field_text (index + 1) fields
        else pf_loop fuel' field_text (index + 1) fields
      else Return fields
  end.

Definition parse_fields (field_text : str) : outcome (odict str) :=
  pf_loop (S (length field_text)) field_text 0 [].

(** *** The entry parser: lines 94-145 *)

Definition process_bib_entry (entry_text : str) (entries : odict entry)
  : outcome (odict entry) :=
  let lines := split NL entry_text in
  header <- first_item lines ;;
  let header := strip header in
  if negb (contains "{" header) then Return entries
  else
    '(entry_type, entry_id) <- unpack2 (split1 "{" header) ;;
    let entry_type := lower (strip (skipn 1 entry_type)) in
    let entry_id := rstrip_char "," (strip entry_id) in
    let field_text := strip (join [NL] (skipn 1 lines)) in
    field_dict <- parse_fields field_text ;;
    let fields := od_update [] field_dict in
    if od_mem entries entry_id
    then Exit (lit "Duplicate entry: " ++ entry_id)
    else Return (od_set entries entry_id
                   {| type := entry_type; fields := fields |}).

(** The two nested loops of [read_bibtex_entries], over a handler for the
    text of a record; the program's handler is [process_bib_entry]. *)
Section RecordScan.

Context {A : Type}.
Variable process : str -> A -> outcome A.

(** The inner loop: the index at which it is left, and the collection. *)
Fixpoint entry_loop (fuel : nat) (content : str) (entry_start index : nat)
  (brace_count : Z) (entries : A) : outcome (nat * A) :=
  match fuel with
  | O => Timeout
  | S fuel' =>
      if index <? length content then
        c <- getitem content index ;;
        if Ascii.eqb c "{" then
          entry_loop fuel' content entry_start (index + 1)
            (brace_count + 1)%Z entries
        else if Ascii.eqb c "}" then
          let brace_count := (brace_count - 1)%Z in
          if (brace_count =? 0)%Z then
            let entry_text := slice content entry_start (index + 1) in
            entries <- process entry_text entries ;;
            Return (index, entries)
          else
            entry_loop fuel' content entry_start (index + 1)
              brace_count entries
        else
          entry_loop fuel' content entry_start (index + 1)
            brace_count entries
      else Return (index, entries)
  end.

Fixpoint read_loop (fuel : nat) (content : str) (index : nat) (entries : A)
  : outcome A :=
  match fuel with
  | O => Timeout
  | S fuel' =>
      if index <? length content then
        c <- getitem content index ;;
        if Ascii.eqb c "@" then
          '(index, entries) <-
            entry_loop (S (length content)) content index index 0 entries ;;
          read_loop fuel' content (index + 1) entries
        else read_loop fuel' content (index + 1) entries
      else Return entries
  end.

End RecordScan.

(** [read_bibtex_entries] on the text read from the file. *)
Definition read_bibtex_entries (content : str) : outcome (odict entry) :=
  read_loop process_bib_entry (S (length content)) content 0 [].

(** *** The serializer: lines 221-226 *)

Definition entry2str (key : str) (e : entry) : str :=
  let s := lit "@" ++ type e ++ lit "{" ++ key ++ lit "," in
  let s :=
    fold_left
      (fun s fv =>
         join [NL] [s; TAB :: fst fv ++ lit " = {" ++ snd fv ++ lit "},"])
      (fields e) s in
  join [NL] [s; lit "}" ++ [NL; NL]].

(** *** Field removal: lines 247-261 *)

Definition remove_fields (names : list str) (bibfields : odict str)
  : odict str :=
  fold_left
    (fun d field => if od_mem d field then od_del d field else d)
    names bibfields.

Definition remove_dummy_fields (e : entry) : entry :=
  let bibtype := type e in
  let bibfields := fields e in
  let bibfields :=
    remove_fields
      [lit "timestamp"; lit "abstract"; lit "keywords"; lit "owner"]
      bibfields in
  let bibfields :=
    if str_eqb bibtype (lit "article")
    then remove_fields [lit "issn"; lit "url"] bibfields
    else bibfields in
  {| type := bibtype; fields := bibfields |}.

End BIBparsley.

Import Py BIBparsley.


(** ** The driver: [BIB_filter.py] *)

Module BIB_filter.

Section Driver.

Variable respond : str -> nat -> list item.

(** Lines 9-16, the [for] loop over the parsed entries: the outcome, the
    text written to the file so far (the same text goes to the standard
    output) and the queries sent.  An exception leaves the loop and the
    [with] block; the file keeps what was written. *)
Fixpoint filter_loop (parsed_bib : odict entry) (bib_file : str)
  (sent : list query) : outcome unit * str * list query :=
  match parsed_bib with
  | [] => (Return tt, bib_file, sent)
  | (key, entry) :: rest =>
      let entry := remove_dummy_fields entry in
      match update_DOI respond entry sent with
      | (Return entry, sent) =>
          let s := entry2str key entry in
          filter_loop rest (bib_file ++ s) sent
      | (Exit out, sent) => (Exit out, bib_file, sent)
      | (Raise x, sent) => (Raise x, bib_file, sent)
      | (Timeout, sent) => (Timeout, bib_file, sent)
      end
  end.

(** The whole script on the text of the input file: [None] for the output
    file when it is never opened, as [read_bibtex_entries] has left. *)
Definition run (content : str) : outcome unit * option str * list query :=
  match read_bibtex_entries content with
  | Return parsed_bib =>
      let '(o, bib_file, sent) := filter_loop parsed_bib [] [] in
      (o, Some bib_file, sent)
  | Exit out => (Exit out, None, [])
  | Raise x => (Raise x, None, [])
  | Timeout => (Timeout, None, [])
  end.

End Driver.

End BIB_filter.

Import BIB_filter.
(** * Vocabulary of the statements *)

(** The keys [remove_dummy_fields] deletes from an entry of type [bibtype]. *)
Definition dummy_field (bibtype key : str) : bool :=
  existsb (str_eqb key)
    ([lit "timestamp"; lit "abstract"; lit "keywords"; lit "owner"]
     ++ (if str_eqb bibtype (lit "article")
         then [lit "issn"; lit "url"] else [])).

(** The state in which [extract_value] enters its loop. *)
Definition ev_init (start_index : nat) : ev_state :=
  {| index := start_index; brace_level := 0; in_quotes := false;
     value := [] |}.

(** The turns of the loop of [extract_value] over the characters [s] that
    lie at the index of the state: the state after them, or the pair
    returned at one of them. *)
Fixpoint ev_run (s : str) (st : ev_state) : ev_state + (str * nat) :=
  match s with
  | [] => inl st
  | c :: s' =>
      match ev_step c st with
      | inl st' => ev_run s' st'
      | inr r => inr r
      end
  end.

(** What [extract_value] returns when the loop is left. *)
Definition ev_result (r : ev_state + (str * nat)) : str * nat :=
  match r with
  | inl st => (value st, index st)
  | inr p => p
  end.

(** What [abbreviate_name] makes of one part of a name: the pieces that it
    joins. *)
Definition abbreviate_part (part : str) : list str :=
  if is_all_uppercase part then map (fun letter => [letter; "."%char]) part
  else if isalpha part then [[upper_char (hd " "%char part); "."%char]]
  else [part].

(** The same after the words of the specification, where an alphabetic
    part is reduced to its first letter as it stands. *)
Definition claimed_abbreviate_part (part : str) : list str :=
  if is_all_uppercase part then map (fun letter => [letter; "."%char]) part
  else if isalpha part then [[hd " "%char part; "."%char]]
  else [part].

Definition claimed_abbreviate_name (name : str) : str :=
  join (lit " ")
    (flat_map claimed_abbreviate_part
       (split_ws (replace (lit ".") (lit ". ") name))).

(** The page rule after the words of the specification: every run of two
    or more hyphens becomes one hyphen. *)
Fixpoint claimed_collapse_hyphens (s : str) : str :=
  match s with
  | [] => []
  | c :: s' =>
      match s' with
      | d :: _ =>
          if Ascii.eqb c "-" && Ascii.eqb d "-"
          then claimed_collapse_hyphens s'
          else c :: claimed_collapse_hyphens s'
      | [] => [c]
      end
  end.

(** [old in s]: the text [old] occurs in [s]. *)
Fixpoint occurs (old s : str) : bool :=
  startswith old s ||
  match s with
  | [] => false
  | _ :: s' => occurs old s'
  end.

(** The inner loop of [read_bibtex_entries] on the text [s] that starts at
    its index: the offset of the closing brace at which the count of the
    braces becomes 0, if there is one. *)
Fixpoint closing_offset (s : str) (brace_count : Z) : option nat :=
  match s with
  | [] => None
  | c :: s' =>
      if Ascii.eqb c "{" then
        option_map S (closing_offset s' (brace_count + 1)%Z)
      else if Ascii.eqb c "}" then
        if (brace_count - 1 =? 0)%Z then Some 0
        else option_map S (closing_offset s' (brace_count - 1)%Z)
      else option_map S (closing_offset s' brace_count)
  end.

(** A handler run on the texts of the records, one after the other. *)
Fixpoint process_all {A : Type} (process : str -> A -> outcome A)
  (texts : list str) (st : A) : outcome A :=
  match texts with
  | [] => Return st
  | t :: rest => st' <- process t st ;; process_all process rest st'
  end.

(** The handler that keeps the texts of the records. *)
Definition collect (entry_text : str) (texts : list str)
  : outcome (list str) :=
  Return (texts ++ [entry_text]).

(** The texts that the loops of [read_bibtex_entries] hand to
    [process_bib_entry], in their order. *)
Definition record_texts (content : str) : outcome (list str) :=
  read_loop collect (S (length content)) content 0 [].

(** The citation id that [process_bib_entry] reads from the text of a
    record (lines 124-132), if the header holds a brace. *)
Definition record_id (entry_text : str) : option str :=
  match split NL entry_text with
  | header :: _ =>
      let header := strip header in
      if contains "{" header then
        match split1 "{" header with
        | [_; entry_id] => Some (rstrip_char "," (strip entry_id))
        | _ => None
        end
      else None
  | [] => None
  end.

(** The ids of the records of a list of texts. *)
Fixpoint record_ids (texts : list str) : list str :=
  match texts with
  | [] => []
  | t :: rest =>
      match record_id t with
      | Some id => id :: record_ids rest
      | None => record_ids rest
      end
  end.

(** Two documents of two records each: the ids [a] and [b], and the id [a]
    twice. *)
Definition doc_two_ids : str :=
  lit "@book{a," ++ NL :: lit " title = {X}" ++ NL :: lit "}" ++ NL ::
  lit "@article{b," ++ NL :: lit " title = {Y}" ++ NL :: lit "}".

Definition doc_same_id : str :=
  lit "@book{a," ++ NL :: lit " title = {X}" ++ NL :: lit "}" ++ NL ::
  lit "@article{a," ++ NL :: lit " title = {Y}" ++ NL :: lit "}".

(** No brace in the text. *)
Definition brace_free (s : str) : bool :=
  negb (contains "{" s) && negb (contains "}" s).

(** The braces of [s] nest: from [level] open braces, no closing brace
    comes without an open one, and none stays open at the end. *)
Fixpoint nests (s : str) (level : Z) : bool :=
  match s with
  | [] => (level =? 0)%Z
  | c :: s' =>
      if Ascii.eqb c "{" then nests s' (level + 1)%Z
      else if Ascii.eqb c "}" then (1 <=? level)%Z && nests s' (level - 1)%Z
      else nests s' level
  end.



(** The line [entry2str] writes for a field, with the line feed that
    [join] puts before it. *)
Definition field_line (fv : str * str) : str :=
  NL :: TAB :: fst fv ++ lit " = {" ++ snd fv ++ lit "},".

(** What follows the closing brace of a value, for the fields [more]
    that are still to come. *)
Definition block_rest (more : odict str) : str :=
  ","%char :: concat (map field_line more) ++ [NL; "}"%char].

(** A field that is read back as it is written: the key has no line feed
    and no [=], its braces nest, and it is what [strip] and [lower] make
    of it; the braces of the value nest, and the value is what the field
    parser stores for it under the key. *)
Definition plain_field (fv : str * str) : Prop :=
  nests (fst fv) 0 = true /\
  contains NL (fst fv) = false /\
  contains "=" (fst fv) = false /\
  strip (fst fv) = fst fv /\
  lower (fst fv) = fst fv /\
  nests (snd fv) 0 = true /\
  normalize_value (fst fv) (snd fv) = Return (snd fv).

(** An entry that is read back as it is written under [key]. *)
Definition plain_entry (key : str) (e : entry) : Prop :=
  (brace_free (type e) = true /\
   contains NL (type e) = false /\
   strip (type e) = type e /\
   lower (type e) = type e) /\
  (nests key 0 = true /\
   contains NL key = false /\
   lstrip key = key /\
   rstrip_char "," key = key) /\
  NoDup (map fst (fields e)) /\
  Forall plain_field (fields e).

(** A record whose author has a family name of three words, and the entry
    that [read_bibtex_entries] makes of it. *)
Definition doc_three_word_name : str :=
  lit "@book{k," ++ NL :: lit " author = {van der Berg, Jan}" ++ NL ::
  lit "}".

Definition entry_three_word_name : entry :=
  {| type := lit "book";
     fields := [(lit "author", lit "J. van der Berg")] |}.

(** A record whose value is a closing brace, and the entry that
    [read_bibtex_entries] makes of it. *)
Definition doc_stray_brace : str :=
  lit "@misc{u," ++ NL :: lit " k = }".

Definition entry_stray_brace : entry :=
  {| type := lit "misc"; fields := [(lit "k", lit "}")] |}.

(** An entry with plain fields. *)
Definition entry_plain : entry :=
  {| type := lit "article";
     fields := [(lit "author", lit "J. R. R. Tolkien and C. S. Lewis");
                (lit "title", lit "On {B}races, and = signs");
                (lit "pages", lit "12-34")] |}.

(** The fields, and the entry, hold code points below 128 only. *)
Definition isascii_fields (fs : list (str * str)) : bool :=
  forallb (fun kv => isascii (fst kv) && isascii (snd kv)) fs.

Definition isascii_entry (e : entry) : bool :=
  isascii (type e) && isascii_fields (fields e).

(** The value extractor after the words of the specification, where the
    quote toggle is flipped on each unescaped double quote only: a double
    quote that stands behind a backslash is read as any other character. *)
Definition BACKSLASH : ascii := "092"%char.

Definition escaped (st : ev_state) : bool :=
  match rev (value st) with
  | c :: _ => Ascii.eqb c BACKSLASH
  | [] => false
  end.

Definition claimed_ev_step (char : ascii) (st : ev_state)
  : ev_state + (str * nat) :=
  if Ascii.eqb char DQUOTE && escaped st then
    inl {| index := index st + 1; brace_level := brace_level st;
           in_quotes := in_quotes st; value := value st ++ [char] |}
  else ev_step char st.

Fixpoint claimed_ev_run (s : str) (st : ev_state)
  : ev_state + (str * nat) :=
  match s with
  | [] => inl st
  | c :: s' =>
      match claimed_ev_step c st with
      | inl st' => claimed_ev_run s' st'
      | inr r => inr r
      end
  end.

Definition claimed_extract_value (text : str) (start_index : nat)
  : str * nat :=
  ev_result (claimed_ev_run (skipn start_index text) (ev_init start_index)).

(** A quoted value with an escaped double quote before a comma. *)
Definition doc_escaped_quote : str :=
  DQUOTE :: lit "a " ++ BACKSLASH :: DQUOTE :: lit ", b" ++ DQUOTE ::
  lit ", c".

(** ** Vocabulary of the further properties *)

(** A character that [extract_value] only appends, whatever its state: no
    brace, no double quote and no comma. *)
Definition bare_char (c : ascii) : bool :=
  negb (Ascii.eqb c "{") && negb (Ascii.eqb c "}") &&
  negb (Ascii.eqb c DQUOTE) && negb (Ascii.eqb c ",").

(** A character of a quoted text: no brace and no double quote. *)
Definition quoted_char (c : ascii) : bool :=
  negb (Ascii.eqb c "{") && negb (Ascii.eqb c "}") &&
  negb (Ascii.eqb c DQUOTE).

(** A key as the field parser stores it: in lower case, stripped, and
    without a line feed. *)
Definition stored_key (k : str) : Prop :=
  lower k = k /\ strip k = k /\ contains NL k = false.

(** The field text that [process_bib_entry] hands to [parse_fields] for a
    record written in the layout of [entry2str] with one line for each
    pair of [fs]; a key may come in several lines. *)
Definition field_block (fs : list (str * str)) : str :=
  strip (tl (concat (map field_line fs) ++ [NL; "}"%char])).

(** Lines 124-139 of [process_bib_entry], which do not look at the
    collection: the id and the entry read from the text of a record, or
    [None] when the header holds no brace. *)
Definition read_record (entry_text : str) : outcome (option (str * entry)) :=
  let lines := split NL entry_text in
  header <- first_item lines ;;
  let header := strip header in
  if negb (contains "{" header) then Return None
  else
    '(entry_type, entry_id) <- unpack2 (split1 "{" header) ;;
    let entry_type := lower (strip (skipn 1 entry_type)) in
    let entry_id := rstrip_char "," (strip entry_id) in
    let field_text := strip (join [NL] (skipn 1 lines)) in
    field_dict <- parse_fields field_text ;;
    Return (Some (entry_id,
                  {| type := entry_type;
                     fields := od_update [] field_dict |})).

(** An id as [process_bib_entry] stores it: without a line feed, without
    white space in front and without a comma at the end. *)
Definition stored_id (id : str) : Prop :=
  contains NL id = false /\ lstrip id = id /\ rstrip_char "," id = id.

(** An entry as [process_bib_entry] stores it: the type is in lower case,
    stripped, and without a line feed and an opening brace; the keys of
    the fields differ and are stored keys. *)
Definition stored_entry (e : entry) : Prop :=
  lower (type e) = type e /\
  strip (type e) = type e /\
  contains NL (type e) = false /\
  contains "{" (type e) = false /\
  NoDup (map fst (fields e)) /\
  Forall stored_key (map fst (fields e)).

(** The test of [get_exact_doi] on an item with a first title: it is the
    title asked for, up to the case of the letters and the white space
    around. *)
Definition title_matches (article_title : str) (it : item) : bool :=
  match item_title it with
  | Some (t :: _) => str_eqb (lower (strip t)) (lower (strip article_title))
  | _ => false
  end.

(** An item that the loop of [get_exact_doi] passes: it has no title, or a
    first title that is another one. *)
Definition title_passed (article_title : str) (it : item) : bool :=
  match item_title it with
  | None => true
  | Some [] => false
  | Some (t :: _) =>
      negb (str_eqb (lower (strip t)) (lower (strip article_title)))
  end.

(** The entry [e'] has the type of [e], and under every key but [doi] what
    [e] has there, and nothing under the keys that are removed for the type
    of [e]. *)
Definition kept_fields (e e' : entry) : Prop :=
  type e' = type e /\
  forall k : str,
    k <> lit "doi" ->
    od_get (fields e') k =
    if dummy_field (type e) k then None else od_get (fields e) k.

(** What [replace(".", ". ")] makes of one character. *)
Definition dot_space (c : ascii) : str :=
  if Ascii.eqb "." c then lit ". " else [c].

(** A part of a name as [abbreviate_name] splits it off: not empty, without
    white space, and with no full stop but at its end. *)
Definition name_token (p : str) : bool :=
  nonempty p && forallb (fun x => negb (isspace x)) p &&
  negb (contains "." (removelast p)).

(** The items hold code points below 128 only in their titles. *)
Definition isascii_item (it : item) : bool :=
  match item_title it with
  | Some titles => forallb isascii titles
  | None => true
  end.

(** What reading a file in text mode makes of its line ends
    ([open(file_path, "r")], line 96): a carriage return, with the line
    feed behind it if there is one, is read as one line feed. *)
Definition CR : ascii := "013"%char.

Fixpoint universal_newlines (s : str) : str :=
  match s with
  | [] => []
  | c :: s' =>
      if Ascii.eqb c CR then
        NL :: match s' with
              | d :: s'' =>
                  if Ascii.eqb d NL then universal_newlines s''
                  else universal_newlines s'
              | [] => []
              end
      else c :: universal_newlines s'
  end.
(** * Properties *)

(** ** Dictionaries *)

Lemma str_eqb_eq (a b : str) : str_eqb a b = true <-> a = b.
Proof.
  unfold str_eqb. destruct (list_eq_dec ascii_dec a b); split; congruence.
Qed.

Lemma str_eqb_neq (a b : str) : str_eqb a b = false <-> a <> b.
Proof.
  unfold str_eqb. destruct (list_eq_dec ascii_dec a b); split; congruence.
Qed.

Lemma str_eqb_refl (a : str) : str_eqb a a = true.
Proof. now apply str_eqb_eq. Qed.

Lemma od_del_absent {V} (d : odict V) (k : str) :
  od_mem d k = false -> od_del d k = d.
Proof.
  unfold od_mem, od_del. induction d as [|[k' v] d IH]; simpl; intros H.
  - reflexivity.
  - apply orb_false_iff in H. destruct H as [Hk Hd].
    rewrite Hk. simpl. now rewrite IH.
Qed.

Lemma filter_filter {A} (f g : A -> bool) (l : list A) :
  filter f (filter g l) = filter (fun x => g x && f x) l.
Proof.
  induction l as [|x l IH]; simpl; [reflexivity|].
  destruct (g x); simpl; [destruct (f x)|]; now rewrite ?IH.
Qed.

(** The guarded [del] of [remove_dummy_fields] is a filter. *)
Lemma remove_fields_filter (names : list str) (d : odict str) :
  remove_fields names d =
  filter (fun kv => negb (existsb (str_eqb (fst kv)) names)) d.
Proof.
  unfold remove_fields. revert d.
  induction names as [|n names IH]; intros d; cbn [fold_left existsb].
  - induction d as [|kv d IHd]; cbn [filter negb]; [reflexivity|].
    now f_equal.
  - assert (E : (if od_mem d n then od_del d n else d) = od_del d n).
    { destruct (od_mem d n) eqn:M; [reflexivity|]. now rewrite od_del_absent. }
    rewrite E, IH. unfold od_del. rewrite filter_filter.
    apply filter_ext. intros kv.
    now destruct (str_eqb (fst kv) n), (existsb (str_eqb (fst kv)) names).
Qed.

Lemma od_get_filter {V} (p : str -> bool) (d : odict V) (k : str) :
  p k = true -> od_get (filter (fun kv => p (fst kv)) d) k = od_get d k.
Proof.
  intros Hp. unfold od_get. induction d as [|[k' v] d IH]; simpl.
  - reflexivity.
  - destruct (p k') eqn:Pk; simpl.
    + destruct (str_eqb k' k); [reflexivity | exact IH].
    + destruct (str_eqb k' k) eqn:E; [|exact IH].
      apply str_eqb_eq in E. congruence.
Qed.

Lemma od_get_filter_out {V} (p : str -> bool) (d : odict V) (k : str) :
  p k = false -> od_get (filter (fun kv => p (fst kv)) d) k = None.
Proof.
  intros Hp. unfold od_get. induction d as [|[k' v] d IH]; simpl.
  - reflexivity.
  - destruct (p k') eqn:Pk; simpl; [|exact IH].
    destruct (str_eqb k' k) eqn:E; [|exact IH].
    apply str_eqb_eq in E. congruence.
Qed.


(** ** Lists and indices *)

(** Texts put together from pieces, with the appends to the right. *)
Ltac list_norm :=
  repeat (progress (cbn [app lit list_ascii_of_string];
                    rewrite <- ?app_assoc)).

Lemma nth_error_skipn_hd {A} (l : list A) (i : nat) :
  nth_error l i = hd_error (skipn i l).
Proof.
  revert l. induction i as [|i IH]; intros [|x l]; simpl; auto.
Qed.

Lemma skipn_succ_tl {A} (l : list A) (i : nat) :
  skipn (S i) l = tl (skipn i l).
Proof.
  revert l. induction i as [|i IH]; intros [|x l]; try reflexivity.
  change (skipn (S (S i)) (x :: l)) with (skipn (S i) l).
  change (skipn (S i) (x :: l)) with (skipn i l). apply IH.
Qed.

Lemma skipn_cons_at {A} (l : list A) (i : nat) (c : A) (r : list A) :
  skipn i l = c :: r -> nth_error l i = Some c /\ skipn (i + 1) l = r /\
                        i < length l.
Proof.
  intros H. rewrite nth_error_skipn_hd, Nat.add_1_r, skipn_succ_tl, H.
  repeat split.
  destruct (Nat.lt_ge_cases i (length l)) as [L|L]; [exact L|].
  rewrite skipn_all2 in H by exact L. discriminate.
Qed.

Lemma skipn_nil_at {A} (l : list A) (i : nat) :
  skipn i l = [] -> length l <= i.
Proof.
  intros H. destruct (Nat.lt_ge_cases i (length l)) as [L|L]; [|exact L].
  apply (f_equal (@length A)) in H. rewrite length_skipn in H. simpl in H. lia.
Qed.

Lemma getitem_at (l : str) (i : nat) (c : ascii) (r : str) :
  skipn i l = c :: r -> getitem l i = Return c.
Proof.
  intros H. unfold getitem. now destruct (skipn_cons_at _ _ _ _ H) as [-> _].
Qed.

Lemma skipn_app_length {A} (a b : list A) : skipn (length a) (a ++ b) = b.
Proof.
  rewrite skipn_app, skipn_all, Nat.sub_diag. reflexivity.
Qed.

(** ** The value extractor *)

Lemma ev_step_inl (c : ascii) (st st' : ev_state) :
  ev_step c st = inl st' ->
  index st' = index st + 1 /\ value st' = value st ++ [c].
Proof.
  unfold ev_step. intros H.
  repeat match type of H with
         | (if ?b then _ else _) = _ => destruct b
         end; inversion H; subst; simpl; auto.
Qed.

Lemma ev_step_inr (c : ascii) (st : ev_state) (v : str) (i : nat) :
  ev_step c st = inr (v, i) -> i = index st.
Proof.
  unfold ev_step. intros H.
  repeat match type of H with
         | (if ?b then _ else _) = _ => destruct b
         end; inversion H; subst; simpl; auto.
Qed.

Lemma ev_run_app (a b : str) (st : ev_state) :
  ev_run (a ++ b) st =
  match ev_run a st with
  | inl st' => ev_run b st'
  | inr r => inr r
  end.
Proof.
  revert st. induction a as [|c a IH]; intros st; simpl; [reflexivity|].
  destruct (ev_step c st); [apply IH | reflexivity].
Qed.

Lemma ev_run_inl (s : str) (st st' : ev_state) :
  ev_run s st = inl st' ->
  index st' = index st + length s /\ value st' = value st ++ s.
Proof.
  revert st. induction s as [|c s IH]; intros st; simpl; intros H.
  - inversion H; subst. now rewrite Nat.add_0_r, app_nil_r.
  - destruct (ev_step c st) as [st1|r] eqn:E; [|discriminate].
    apply ev_step_inl in E. destruct E as [E1 E2].
    destruct (IH _ H) as [I1 I2]. rewrite I1, I2, E1, E2.
    split; [lia | now rewrite <- app_assoc].
Qed.

Lemma ev_run_inr (s : str) (st : ev_state) (v : str) (i : nat) :
  ev_run s st = inr (v, i) -> index st <= i < index st + length s.
Proof.
  revert st. induction s as [|c s IH]; intros st; simpl; intros H.
  - discriminate.
  - destruct (ev_step c st) as [st1|r] eqn:E.
    + apply ev_step_inl in E. destruct E as [E1 _].
      apply IH in H. lia.
    + inversion H; subst. apply ev_step_inr in E. lia.
Qed.

(** The loop of [extract_value] with enough fuel is [ev_run] on the rest of
    the text. *)
Lemma ev_loop_run (fuel : nat) (text : str) (st : ev_state) :
  length text - index st < fuel ->
  ev_loop fuel text st =
  Return (ev_result (ev_run (skipn (index st) text) st)).
Proof.
  revert st. induction fuel as [|fuel IH]; intros st Hf; [lia|].
  cbn [ev_loop].
  destruct (skipn (index st) text) as [|c r] eqn:S.
  - apply skipn_nil_at in S.
    destruct (Nat.ltb_spec (index st) (length text)); [lia|]. reflexivity.
  - destruct (skipn_cons_at _ _ _ _ S) as (_ & S' & L).
    rewrite (getitem_at _ _ _ _ S).
    destruct (Nat.ltb_spec (index st) (length text)); [|lia].
    cbn [bind ev_run]. destruct (ev_step c st) as [st1|p] eqn:E.
    + destruct (ev_step_inl _ _ _ E) as [E1 _].
      rewrite IH by lia. now rewrite E1, S'.
    + reflexivity.
Qed.

Lemma extract_value_run (text : str) (start_index : nat) :
  extract_value text start_index =
  Return (ev_result (ev_run (skipn start_index text) (ev_init start_index))).
Proof.
  unfold extract_value. fold (ev_init start_index).
  rewrite ev_loop_run; [reflexivity | simpl; lia].
Qed.

(** The returned index lies between the start and the end of the text. *)
Lemma extract_value_index (text : str) (start_index : nat) :
  exists (v : str) (i : nat),
    extract_value text start_index = Return (v, i) /\
    start_index <= i /\ i <= Nat.max start_index (length text).
Proof.
  rewrite extract_value_run.
  destruct (ev_run (skipn start_index text) (ev_init start_index))
    as [st|[v i]] eqn:E.
  - exists (value st), (index st). split; [reflexivity|].
    apply ev_run_inl in E. destruct E as [E _]. rewrite E, length_skipn.
    simpl. lia.
  - exists v, i. split; [reflexivity|].
    apply ev_run_inr in E. rewrite length_skipn in E. simpl in E. lia.
Qed.

Lemma strip_braces_wrapped (v : str) :
  strip_braces (lit "{" ++ v ++ lit "}") = v.
Proof.
  unfold strip_braces, endswith, slice_1_m1. cbn [lit list_ascii_of_string app].
  change ("{"%char :: v ++ ["}"%char]) with (["{"%char] ++ v ++ ["}"%char]).
  rewrite !rev_app_distr. cbn [rev app startswith Ascii.eqb Bool.eqb andb tl].
  apply removelast_last.
Qed.

Lemma strip_braces_bare (acc : str) :
  startswith (lit "{") acc = false -> strip_braces acc = acc.
Proof. intros H. unfold strip_braces. now rewrite H. Qed.

(** At a closing brace that brings the level to 0 the loop returns. *)
Lemma ev_step_close (st : ev_state) :
  brace_level st = 1%Z ->
  ev_step "}" st = inr (strip_braces (value st ++ lit "}"), index st).
Proof. intros H. unfold ev_step. rewrite H. reflexivity. Qed.

Lemma ev_step_quoted_comma (st : ev_state) :
  in_quotes st = true ->
  ev_step "," st =
  inl {| index := index st + 1; brace_level := brace_level st;
         in_quotes := true; value := value st ++ lit "," |}.
Proof.
  intros H. unfold ev_step. rewrite H. cbn [Ascii.eqb Bool.eqb andb negb].
  rewrite andb_false_r. reflexivity.
Qed.

Lemma ev_step_quote (st : ev_state) :
  ev_step DQUOTE st =
  inl {| index := index st + 1; brace_level := brace_level st;
         in_quotes := negb (in_quotes st); value := value st ++ [DQUOTE] |}.
Proof. reflexivity. Qed.

(** ** Names *)

Lemma filter_nonempty_id (l : list str) :
  Forall (fun s => nonempty s = true) l -> filter nonempty l = l.
Proof.
  induction 1 as [|x l Hx _ IH]; simpl; [reflexivity|].
  now rewrite Hx, IH.
Qed.

Lemma join_cons_cons (sep x y : str) (l : list str) :
  join sep (x :: y :: l) = x ++ sep ++ join sep (y :: l).
Proof. reflexivity. Qed.

Lemma join_join_app (sep : str) (xs ys : list str) :
  xs <> [] -> join sep (join sep xs :: ys) = join sep (xs ++ ys).
Proof.
  induction xs as [|x xs IH]; intros Hne; [congruence|].
  destruct xs as [|x2 xs].
  - reflexivity.
  - destruct ys as [|y ys].
    + now rewrite app_nil_r.
    + specialize (IH ltac:(discriminate)).
      change (join sep ((x :: x2 :: xs) ++ y :: ys))
        with (x ++ sep ++ join sep ((x2 :: xs) ++ y :: ys)).
      rewrite <- IH.
      change (join sep (join sep (x :: x2 :: xs) :: y :: ys))
        with ((x ++ sep ++ join sep (x2 :: xs)) ++ sep ++ join sep (y :: ys)).
      change (join sep (join sep (x2 :: xs) :: y :: ys))
        with (join sep (x2 :: xs) ++ sep ++ join sep (y :: ys)).
      now rewrite <- !app_assoc.
Qed.

Lemma join_nonempty (sep : str) (xs : list str) :
  xs <> [] -> Forall (fun s => nonempty s = true) xs ->
  nonempty (join sep xs) = true.
Proof.
  intros Hne H. destruct H as [|x xs Hx _]; [congruence|].
  destruct x; [discriminate|]. now destruct xs.
Qed.

(** One turn of the loop of [abbreviate_name]: joining the name built so
    far with new pieces. *)
Lemma join_filter_joined (sep : str) (xs ys : list str) :
  Forall (fun s => nonempty s = true) xs ->
  Forall (fun s => nonempty s = true) ys ->
  join sep (filter nonempty (join sep xs :: ys)) = join sep (xs ++ ys).
Proof.
  intros Hx Hy. cbn [filter]. rewrite (filter_nonempty_id _ Hy).
  destruct xs as [|x xs].
  - reflexivity.
  - rewrite join_nonempty by (congruence || assumption).
    apply join_join_app. discriminate.
Qed.

Lemma split_ws_aux_nonempty (s cur : str) :
  Forall (fun t => nonempty t = true) (split_ws_aux s cur).
Proof.
  assert (R : forall c (cur : str), nonempty (rev (c :: cur)) = true).
  { intros c cur0. simpl. now destruct (rev cur0). }
  revert cur. induction s as [|c s IH]; intros cur; simpl.
  - destruct cur; constructor; [apply R | constructor].
  - destruct (isspace c); [|apply IH].
    destruct cur; [apply IH|]. constructor; [apply R | apply IH].
Qed.

Lemma split_ws_nonempty (s : str) :
  Forall (fun t => nonempty t = true) (split_ws s).
Proof. apply split_ws_aux_nonempty. Qed.

Lemma abbreviate_part_nonempty (part : str) :
  nonempty part = true ->
  Forall (fun s => nonempty s = true) (abbreviate_part part).
Proof.
  intros Hp. unfold abbreviate_part.
  destruct (is_all_uppercase part).
  - clear. induction part; simpl; constructor; auto.
  - destruct (isalpha part); repeat constructor. exact Hp.
Qed.

Lemma abbreviate_loop_join (parts done : list str) :
  Forall (fun s => nonempty s = true) parts ->
  Forall (fun s => nonempty s = true) done ->
  abbreviate_loop parts (join (lit " ") done) =
  Return (join (lit " ") (done ++ flat_map abbreviate_part parts)).
Proof.
  intros Hp. revert done.
  induction Hp as [|part parts Hpart _ IH]; intros done Hd;
    cbn [abbreviate_loop flat_map].
  - now rewrite app_nil_r.
  - assert (Hpieces := abbreviate_part_nonempty _ Hpart).
    unfold abbreviate_part in *.
    destruct (is_all_uppercase part).
    + change (map (fun letter => letter :: lit ".") part)
        with (map (fun letter => [letter; "."%char]) part).
      rewrite join_filter_joined by assumption.
      rewrite IH by (apply Forall_app; split; assumption).
      now rewrite <- app_assoc.
    + destruct (isalpha part) eqn:Ha.
      * destruct part as [|c part]; [discriminate|].
        cbn [getitem nth_error bind hd].
        change (upper [c] ++ lit ".") with [upper_char c; "."%char].
        rewrite join_filter_joined by assumption.
        rewrite IH by (apply Forall_app; split; assumption).
        now rewrite <- app_assoc.
      * cbn [bind].
        rewrite join_filter_joined by assumption.
        rewrite IH by (apply Forall_app; split; assumption).
        now rewrite <- app_assoc.
Qed.

Lemma abbreviate_name_join (name : str) :
  abbreviate_name name =
  Return (join (lit " ")
            (flat_map abbreviate_part
               (split_ws (replace (lit ".") (lit ". ") name)))).
Proof.
  unfold abbreviate_name.
  apply (abbreviate_loop_join _ []); [apply split_ws_nonempty|].
  constructor.
Qed.

Lemma upper_not_lower (c : ascii) :
  isupper_char c = true -> islower_char c = false.
Proof.
  unfold isupper_char, islower_char. intros H.
  apply andb_true_iff in H. destruct H as [_ H]. apply Nat.leb_le in H.
  apply andb_false_iff. left. apply Nat.leb_gt. lia.
Qed.

(** [is_all_uppercase] holds of the non-empty texts of upper-case letters. *)
Lemma is_all_uppercase_iff (s : str) :
  is_all_uppercase s = true <->
  s <> [] /\ forallb isupper_char s = true.
Proof.
  unfold is_all_uppercase, isalpha, isupper. split.
  - intros H. apply andb_true_iff in H. destruct H as [Ha Hu].
    destruct s as [|c s]; [discriminate|]. split; [discriminate|].
    apply andb_true_iff in Hu. destruct Hu as [Hl _].
    apply negb_true_iff in Hl.
    rewrite forallb_forall in *. intros x Hx. specialize (Ha x Hx).
    unfold isalpha_char in Ha. apply orb_true_iff in Ha.
    destruct Ha as [Ha|Ha]; [exact Ha|].
    assert (E : existsb islower_char (c :: s) = true)
      by (apply existsb_exists; eauto).
    congruence.
  - intros [Hne Hu]. destruct s as [|c s]; [congruence|].
    rewrite forallb_forall in Hu.
    apply andb_true_iff. split.
    + apply forallb_forall. intros x Hx. unfold isalpha_char.
      now rewrite (Hu x Hx).
    + apply andb_true_iff. split.
      * apply negb_true_iff.
        destruct (existsb islower_char (c :: s)) eqn:E; [|reflexivity].
        apply existsb_exists in E. destruct E as (x & Hx & Hl).
        rewrite (upper_not_lower _ (Hu x Hx)) in Hl. discriminate.
      * apply existsb_exists. exists c. split; [now left|].
        apply Hu. now left.
Qed.

(** ** [replace] *)

Lemma startswith_app (p r : str) : startswith p (p ++ r) = true.
Proof.
  induction p as [|c p IH]; simpl; [reflexivity|].
  now rewrite Ascii.eqb_refl.
Qed.

Lemma startswith_true (p s : str) :
  startswith p s = true -> exists r, s = p ++ r.
Proof.
  revert s. induction p as [|c p IH]; intros s H; simpl in *.
  - now exists s.
  - destruct s as [|d s]; [discriminate|].
    apply andb_true_iff in H. destruct H as [E H].
    apply Ascii.eqb_eq in E. subst d.
    destruct (IH _ H) as [r ->]. now exists r.
Qed.

(** A text without an occurrence of [old] is left as it is. *)
Lemma replace_aux_absent (fuel : nat) (old new s : str) :
  (forall a b, s <> a ++ old ++ b) ->
  replace_aux fuel old new s = s.
Proof.
  revert s. induction fuel as [|fuel IH]; intros s H; [reflexivity|].
  destruct s as [|c s]; [reflexivity|]. cbn [replace_aux].
  destruct (startswith old (c :: s)) eqn:E.
  - apply startswith_true in E. destruct E as [r E].
    exfalso. apply (H [] r). exact E.
  - f_equal. apply IH. intros a b Hs. apply (H (c :: a) b).
    now rewrite Hs.
Qed.

Lemma count_zero_no_hyphen (s : str) :
  count "-" s = 0 -> forall n a b, 0 < n -> s <> a ++ repeat "-"%char n ++ b.
Proof.
  intros Hc n a b Hn Hs. subst s. unfold count in Hc.
  rewrite !count_occ_app in Hc.
  destruct n as [|n]; [lia|]. simpl in Hc.
  destruct (ascii_dec "-" "-"); [lia | congruence].
Qed.

(** The one run of all the hyphens is replaced by one hyphen. *)
Lemma replace_aux_run (fuel n : nat) (new a b : str) :
  0 < n -> count "-" a = 0 -> count "-" b = 0 ->
  length (a ++ repeat "-"%char n ++ b) <= fuel ->
  replace_aux fuel (repeat "-"%char n) new (a ++ repeat "-"%char n ++ b) =
  a ++ new ++ b.
Proof.
  intros Hn Ha Hb. revert fuel. induction a as [|c a IH]; intros fuel Hf.
  - cbn [app] in *. destruct n as [|n]; [lia|].
    destruct fuel as [|fuel]; [simpl in Hf; lia|].
    change (repeat "-"%char (S n) ++ b)
      with ("-"%char :: repeat "-"%char n ++ b) at 1.
    cbn [replace_aux].
    change ("-"%char :: repeat "-"%char n ++ b)
      with (repeat "-"%char (S n) ++ b).
    rewrite startswith_app.
    replace (skipn (length (repeat "-"%char (S n))) (repeat "-"%char (S n) ++ b))
      with b by (now rewrite skipn_app_length).
    f_equal. apply replace_aux_absent.
    intros x y. apply count_zero_no_hyphen; [exact Hb | lia].
  - unfold count in Ha. simpl in Ha.
    destruct (ascii_dec c "-") as [E|E]; [lia|].
    destruct fuel as [|fuel]; [simpl in Hf; lia|].
    cbn [app replace_aux].
    assert (S : startswith (repeat "-"%char n)
                  (c :: a ++ repeat "-"%char n ++ b) = false).
    { destruct n as [|n]; [lia|]. cbn [repeat startswith].
      apply andb_false_iff. left. apply Ascii.eqb_neq. congruence. }
    rewrite S. f_equal. apply IH; [exact Ha | simpl in Hf; lia].
Qed.

Lemma replace_aux_not_occurs (fuel : nat) (old new s : str) :
  occurs old s = false -> replace_aux fuel old new s = s.
Proof.
  revert s. induction fuel as [|fuel IH]; intros s H; [reflexivity|].
  destruct s as [|c s]; [reflexivity|].
  cbn [replace_aux]. cbn [occurs] in H.
  apply orb_false_iff in H. destruct H as [H1 H2].
  rewrite H1. f_equal. apply IH, H2.
Qed.

(** ** Splitting *)

Lemma split1_aux_found (c : ascii) (s cur : str) :
  contains c s = true -> exists a b, split1_aux c s cur = [a; b].
Proof.
  unfold contains. revert cur.
  induction s as [|d s IH]; intros cur H; simpl in *; [discriminate|].
  rewrite (Ascii.eqb_sym d c).
  destruct (Ascii.eqb c d); [eauto | apply IH, H].
Qed.

Lemma split1_found (c : ascii) (s : str) :
  contains c s = true -> exists a b, split1 c s = [a; b].
Proof. apply split1_aux_found. Qed.

Lemma contains_rev (c : ascii) (s : str) :
  contains c (rev s) = contains c s.
Proof.
  unfold contains. induction s as [|d s IH]; simpl; [reflexivity|].
  rewrite existsb_app, IH. simpl. rewrite orb_false_r. apply orb_comm.
Qed.

Lemma rsplit1_found (c : ascii) (s : str) :
  contains c s = true -> exists a b, rsplit1 c s = [a; b].
Proof.
  intros H. unfold rsplit1. rewrite <- contains_rev in H.
  destruct (split1_found _ _ H) as (a & b & ->). eauto.
Qed.

Lemma split_aux_cons (c : ascii) (s cur : str) :
  exists x l, split_aux c s cur = x :: l.
Proof.
  revert cur. induction s as [|d s IH]; intros cur; simpl; [eauto|].
  destruct (Ascii.eqb d c); [eauto | apply IH].
Qed.

(** ** Authors: no exception, so the exit of [split_authors] is never
    taken *)

Lemma abbreviate_name_returns (name : str) :
  exists r, abbreviate_name name = Return r.
Proof. rewrite abbreviate_name_join. eauto. Qed.

Lemma format_author_returns (author : str) :
  exists r, format_author author = Return r.
Proof.
  unfold format_author.
  destruct (contains "," (strip author)) eqn:C.
  - destruct (split1_found _ _ C) as (a & b & ->). cbn [map unpack2 bind].
    destruct (abbreviate_name_returns (strip b)) as [r ->]. cbn [bind]. eauto.
  - destruct (contains " " (strip author)) eqn:S; [|eauto].
    destruct (rsplit1_found _ _ S) as (a & b & ->). cbn [unpack2 bind].
    destruct (abbreviate_name_returns a) as [r ->]. cbn [bind]. eauto.
Qed.

Lemma format_authors_returns (authors formatted : list str) :
  exists r, format_authors authors formatted = Return r.
Proof.
  revert formatted. induction authors as [|a authors IH]; intros formatted;
    cbn [format_authors]; [eauto|].
  destruct (format_author_returns a) as [r ->]. cbn [bind]. apply IH.
Qed.

Lemma split_authors_returns (author_str : str) :
  exists r, split_authors author_str = Return r.
Proof.
  unfold split_authors.
  destruct (format_authors_returns (re_split_and author_str) []) as [r ->].
  eauto.
Qed.

Lemma normalize_value_returns (key value : str) :
  exists r, normalize_value key value = Return r.
Proof.
  unfold normalize_value.
  destruct (existsb (str_eqb key) [lit "author"; lit "editor"]).
  - destruct (split_authors_returns (rstrip_char "," value)) as [r ->].
    cbn [bind]. eauto.
  - destruct (str_eqb key (lit "pages")); [|eauto].
    destruct (1 <? count "-" (rstrip_char "," value)); eauto.
Qed.

(** ** The field parser *)

Lemma skip_loop_returns (fuel : nat) (field_text : str) (index : nat) :
  length field_text - index < fuel ->
  exists j, skip_loop fuel field_text index = Return j /\
            index <= j /\ j <= Nat.max index (length field_text).
Proof.
  revert index. induction fuel as [|fuel IH]; intros index Hf; [lia|].
  cbn [skip_loop].
  destruct (Nat.ltb_spec index (length field_text)) as [L|L].
  - destruct (skipn index field_text) as [|c r] eqn:Sk.
    + apply skipn_nil_at in Sk. lia.
    + rewrite (getitem_at _ _ _ _ Sk). cbn [bind].
      destruct (contains c [" "%char; TAB; NL]).
      * destruct (IH (index + 1)) as (j & -> & Hj); [lia|].
        exists j. split; [reflexivity | lia].
      * exists index. split; [reflexivity | lia].
  - exists index. split; [reflexivity | lia].
Qed.

Lemma pf_loop_returns (fuel : nat) (field_text : str) (index : nat)
  (fields : odict str) :
  length field_text - index < fuel ->
  exists r, pf_loop fuel field_text index fields = Return r.
Proof.
  revert index fields. induction fuel as [|fuel IH]; intros index fields Hf;
    [lia|].
  cbn [pf_loop].
  destruct (Nat.ltb_spec index (length field_text)) as [L|L]; [|eauto].
  destruct (skipn index field_text) as [|c r] eqn:Sk.
  - apply skipn_nil_at in Sk. lia.
  - rewrite (getitem_at _ _ _ _ Sk). cbn [bind].
    destruct (Ascii.eqb c "="); [|apply IH; lia].
    destruct (skip_loop_returns (S (length field_text)) field_text (index + 1))
      as (j & -> & Hj); [lia|]. cbn [bind].
    destruct (extract_value_index field_text j) as (v & i & -> & Hi).
    cbn [bind].
    match goal with |- context [normalize_value ?k v] =>
      destruct (normalize_value_returns k v) as [w ->] end.
    cbn [bind]. apply IH. lia.
Qed.

Lemma parse_fields_returns (field_text : str) :
  exists r, parse_fields field_text = Return r.
Proof. apply pf_loop_returns. lia. Qed.

(** ** The scan for the records *)

Section RecordScanFacts.

Context {A : Type}.
Variable process : str -> A -> outcome A.

(** The inner loop with enough fuel, by [closing_offset]. *)
Lemma entry_loop_closing (fuel : nat) (content : str)
  (entry_start index : nat) (brace_count : Z) (entries : A) :
  length content - index < fuel ->
  entry_loop process fuel content entry_start index brace_count entries =
  match closing_offset (skipn index content) brace_count with
  | Some k =>
      entries' <-
        process (slice content entry_start (index + k + 1)) entries ;;
      Return (index + k, entries')
  | None => Return (Nat.max index (length content), entries)
  end.
Proof.
  revert index brace_count.
  induction fuel as [|fuel IH]; intros index brace_count Hf; [lia|].
  cbn [entry_loop].
  destruct (skipn index content) as [|c r] eqn:Sk.
  - apply skipn_nil_at in Sk.
    destruct (Nat.ltb_spec index (length content)); [lia|].
    cbn [closing_offset]. f_equal. f_equal. lia.
  - destruct (skipn_cons_at _ _ _ _ Sk) as (_ & Sk' & L).
    rewrite (getitem_at _ _ _ _ Sk).
    destruct (Nat.ltb_spec index (length content)); [|lia].
    cbn [bind closing_offset].
    assert (Step : forall bc,
      entry_loop process fuel content entry_start (index + 1) bc entries =
      match option_map S (closing_offset r bc) with
      | Some k =>
          entries' <-
            process (slice content entry_start (index + k + 1)) entries ;;
          Return (index + k, entries')
      | None => Return (Nat.max index (length content), entries)
      end).
    { intros bc. rewrite IH by lia. rewrite Sk'.
      destruct (closing_offset r bc) as [k|]; cbn [option_map].
      - replace (index + 1 + k + 1) with (index + S k + 1) by lia.
        replace (index + 1 + k) with (index + S k) by lia. reflexivity.
      - f_equal. f_equal. lia. }
    destruct (Ascii.eqb c "{"); [apply Step|].
    destruct (Ascii.eqb c "}"); [|apply Step].
    destruct (brace_count - 1 =? 0)%Z; [|apply Step].
    now rewrite !Nat.add_0_r.
Qed.

End RecordScanFacts.

Lemma closing_offset_bound (s : str) (bc : Z) (k : nat) :
  closing_offset s bc = Some k -> k < length s.
Proof.
  revert bc k. induction s as [|c s IH]; intros bc k H; [discriminate|].
  cbn [closing_offset] in H.
  assert (Step : forall bc', option_map S (closing_offset s bc') = Some k ->
                             k < length (c :: s)).
  { intros bc' E. destruct (closing_offset s bc') as [j|] eqn:C;
      [|discriminate]. inversion E; subst. apply IH in C. simpl. lia. }
  destruct (Ascii.eqb c "{"); [eapply Step, H|].
  destruct (Ascii.eqb c "}"); [|eapply Step, H].
  destruct (bc - 1 =? 0)%Z; [|eapply Step, H].
  inversion H. simpl. lia.
Qed.

Lemma process_all_collect (texts acc : list str) :
  process_all collect texts acc = Return (acc ++ texts).
Proof.
  revert acc. induction texts as [|t texts IH]; intros acc; cbn [process_all].
  - now rewrite app_nil_r.
  - unfold collect at 1. cbn [bind]. rewrite IH. now rewrite <- app_assoc.
Qed.

(** The outer loop runs the handler on a list of texts that depends on the
    content only. *)
Lemma read_loop_process_all (fuel : nat) (content : str) (index : nat) :
  length content - index < fuel ->
  exists texts : list str,
    forall (A : Type) (process : str -> A -> outcome A) (entries : A),
      read_loop process fuel content index entries =
      process_all process texts entries.
Proof.
  revert index. induction fuel as [|fuel IH]; intros index Hf; [lia|].
  destruct (Nat.ltb_spec index (length content)) as [L|L].
  - destruct (skipn index content) as [|c r] eqn:Sk.
    { apply skipn_nil_at in Sk. lia. }
    destruct (Ascii.eqb c "@") eqn:At.
    + destruct (closing_offset (skipn index content) 0) as [k|] eqn:C.
      * assert (Hk := closing_offset_bound _ _ _ C).
        rewrite length_skipn in Hk.
        destruct (IH (index + k + 1)) as [texts Ht]; [lia|].
        exists (slice content index (index + k + 1) :: texts).
        intros A process entries. cbn [read_loop process_all].
        destruct (Nat.ltb_spec index (length content)); [|lia].
        rewrite (getitem_at _ _ _ _ Sk). cbn [bind]. rewrite At.
        rewrite entry_loop_closing by lia. rewrite C.
        destruct (process (slice content index (index + k + 1)) entries);
          cbn [bind]; try reflexivity.
        apply Ht.
      * destruct (IH (Nat.max index (length content) + 1)) as [texts Ht];
          [lia|].
        exists texts. intros A process entries. cbn [read_loop].
        destruct (Nat.ltb_spec index (length content)); [|lia].
        rewrite (getitem_at _ _ _ _ Sk). cbn [bind]. rewrite At.
        rewrite entry_loop_closing by lia. rewrite C. cbn [bind].
        apply Ht.
    + destruct (IH (index + 1)) as [texts Ht]; [lia|].
      exists texts. intros A process entries. cbn [read_loop].
      destruct (Nat.ltb_spec index (length content)); [|lia].
      rewrite (getitem_at _ _ _ _ Sk). cbn [bind]. rewrite At. apply Ht.
  - exists []. intros A process entries. cbn [read_loop process_all].
    destruct (Nat.ltb_spec index (length content)); [lia | reflexivity].
Qed.

(** [read_bibtex_entries] runs its handler on [record_texts]. *)
Lemma read_loop_records (content : str) :
  exists texts : list str,
    record_texts content = Return texts /\
    forall (A : Type) (process : str -> A -> outcome A) (entries : A),
      read_loop process (S (length content)) content 0 entries =
      process_all process texts entries.
Proof.
  destruct (read_loop_process_all (S (length content)) content 0)
    as [texts Ht]; [lia|].
  exists texts. split; [|exact Ht].
  unfold record_texts. rewrite Ht. apply process_all_collect.
Qed.

(** ** One record *)

Lemma od_mem_in {V} (d : odict V) (k : str) :
  od_mem d k = true <-> In k (map fst d).
Proof.
  unfold od_mem. rewrite existsb_exists. split.
  - intros ([k' v] & Hin & E). apply str_eqb_eq in E. simpl in E. subst k'.
    apply in_map_iff. exists (k, v). auto.
  - intros H. apply in_map_iff in H. destruct H as ([k' v] & E & Hin).
    simpl in E. subst k'. exists (k, v). split; [exact Hin|].
    apply str_eqb_refl.
Qed.

Lemma od_set_fresh {V} (d : odict V) (k : str) (v : V) :
  od_mem d k = false -> od_set d k v = d ++ [(k, v)].
Proof.
  unfold od_mem. induction d as [|[k' v'] d IH]; simpl; intros H.
  - reflexivity.
  - apply orb_false_iff in H. destruct H as [Hk Hd].
    rewrite Hk. now rewrite IH.
Qed.

(** What [process_bib_entry] does, by the id of the record. *)
Lemma process_bib_entry_cases (entry_text : str) (entries : odict entry) :
  match record_id entry_text with
  | None => process_bib_entry entry_text entries = Return entries
  | Some id =>
      if od_mem entries id
      then process_bib_entry entry_text entries =
           Exit (lit "Duplicate entry: " ++ id)
      else exists e : entry,
             process_bib_entry entry_text entries =
             Return (entries ++ [(id, e)])
  end.
Proof.
  unfold record_id, process_bib_entry, split.
  destruct (split_aux_cons NL entry_text []) as (header & rest & ->).
  cbn [first_item bind].
  destruct (contains "{" (strip header)) eqn:C; cbn [negb]; [|reflexivity].
  destruct (split1_found _ _ C) as (a & b & ->). cbn [unpack2 bind].
  destruct (parse_fields_returns
              (strip (join [NL] (skipn 1 (header :: rest))))) as [fd ->].
  cbn [bind].
  destruct (od_mem entries (rstrip_char "," (strip b))) eqn:M;
    [reflexivity|].
  eexists. now rewrite od_set_fresh.
Qed.

(** A returning [process_bib_entry] leaves the entries it was given as
    they are: it adds at most one entry, behind them, under a new id. *)
Lemma process_bib_entry_keeps (entry_text : str) (entries entries' : odict entry) :
  process_bib_entry entry_text entries = Return entries' ->
  entries' = entries \/
  exists (id : str) (e : entry),
    od_mem entries id = false /\ entries' = entries ++ [(id, e)].
Proof.
  intros H. assert (C := process_bib_entry_cases entry_text entries).
  destruct (record_id entry_text) as [id|].
  - destruct (od_mem entries id) eqn:M; [congruence|].
    destruct C as [e C]. right. exists id, e. split; [exact M | congruence].
  - left. congruence.
Qed.

Lemma count_occ_twice (l1 l2 : list str) (x : str) :
  In x l1 -> 2 <= count_occ (list_eq_dec ascii_dec) (l1 ++ x :: l2) x.
Proof.
  intros H. rewrite count_occ_app. cbn [count_occ].
  destruct (list_eq_dec ascii_dec x x); [|congruence].
  apply (count_occ_In (list_eq_dec ascii_dec)) in H. unfold str in *. lia.
Qed.

(** The outcome of [process_bib_entry] over the texts of the records, by
    the ids already stored and the ids of the records. *)
Lemma process_all_ids (texts : list str) (entries : odict entry) :
  NoDup (map fst entries) ->
  (NoDup (map fst entries ++ record_ids texts) ->
   exists es : odict entry,
     process_all process_bib_entry texts entries = Return (entries ++ es) /\
     map fst es = record_ids texts) /\
  (~ NoDup (map fst entries ++ record_ids texts) ->
   exists id : str,
     process_all process_bib_entry texts entries =
     Exit (lit "Duplicate entry: " ++ id) /\
     2 <= count_occ (list_eq_dec ascii_dec)
            (map fst entries ++ record_ids texts) id).
Proof.
  revert entries. induction texts as [|t texts IH]; intros entries Hk;
    cbn [process_all record_ids].
  - rewrite app_nil_r. split.
    + intros _. exists []. now rewrite app_nil_r.
    + intros N. contradiction.
  - assert (C := process_bib_entry_cases t entries).
    destruct (record_id t) as [id|].
    + destruct (od_mem entries id) eqn:M.
      * rewrite C. cbn [bind]. apply od_mem_in in M. split.
        -- intros N. apply NoDup_remove_2 in N. exfalso. apply N.
           apply in_or_app. now left.
        -- intros _. exists id. split; [reflexivity|].
           now apply count_occ_twice.
      * destruct C as [e ->]. cbn [bind].
        assert (Hk' : NoDup (map fst (entries ++ [(id, e)]))).
        { rewrite map_app. cbn [map fst].
          apply NoDup_app; [exact Hk | repeat constructor; intros [] |].
          intros x Hx [<-|[]]. apply od_mem_in in Hx. congruence. }
        destruct (IH _ Hk') as [IH1 IH2].
        rewrite map_app, <- app_assoc in IH1, IH2. cbn [map fst app] in *.
        split.
        -- intros N. destruct (IH1 N) as (es & -> & Hes).
           exists ((id, e) :: es). rewrite <- app_assoc. cbn [app map fst].
           now rewrite Hes.
        -- intros N. exact (IH2 N).
    + rewrite C. cbn [bind]. apply IH, Hk.
Qed.

Lemma process_all_returns {A : Type} (process : str -> A -> outcome A)
  (texts : list str) (st : A) :
  (forall t s, exists s', process t s = Return s') ->
  exists st', process_all process texts st = Return st'.
Proof.
  intros Hp. revert st. induction texts as [|t texts IH]; intros st;
    cbn [process_all]; [eauto|].
  destruct (Hp t st) as [s' ->]. cbn [bind]. apply IH.
Qed.

Lemma process_all_outcome (texts : list str) (entries : odict entry) :
  (exists es, process_all process_bib_entry texts entries = Return es) \/
  (exists id, process_all process_bib_entry texts entries =
              Exit (lit "Duplicate entry: " ++ id)).
Proof.
  revert entries. induction texts as [|t texts IH]; intros entries;
    cbn [process_all]; [eauto|].
  assert (C := process_bib_entry_cases t entries).
  destruct (record_id t) as [id|].
  - destruct (od_mem entries id).
    + rewrite C. cbn [bind]. eauto.
    + destruct C as [e ->]. cbn [bind]. apply IH.
  - rewrite C. cbn [bind]. apply IH.
Qed.

(** ** The outer loop, step by step *)

Section ReadLoopSteps.

Context {A : Type}.
Variable process : str -> A -> outcome A.

Lemma read_loop_fuel (f1 f2 : nat) (content : str) (index : nat)
  (entries : A) :
  length content - index < f1 -> length content - index < f2 ->
  read_loop process f1 content index entries =
  read_loop process f2 content index entries.
Proof.
  revert f2 index entries.
  induction f1 as [|f1 IH]; intros f2 index entries H1 H2; [lia|].
  destruct f2 as [|f2]; [lia|]. cbn [read_loop].
  destruct (Nat.ltb_spec index (length content)) as [L|L]; [|reflexivity].
  destruct (getitem content index) as [c| | |]; cbn [bind]; try reflexivity.
  destruct (Ascii.eqb c "@"); [|apply IH; lia].
  rewrite entry_loop_closing by lia.
  destruct (closing_offset (skipn index content) 0) as [k|] eqn:C.
  - apply closing_offset_bound in C. rewrite length_skipn in C.
    destruct (process (slice content index (index + k + 1)) entries);
      cbn [bind]; try reflexivity.
    apply IH; lia.
  - cbn [bind]. apply IH; lia.
Qed.

Lemma read_loop_end (fuel : nat) (content : str) (index : nat) (entries : A) :
  0 < fuel -> length content <= index ->
  read_loop process fuel content index entries = Return entries.
Proof.
  intros Hf L. destruct fuel as [|fuel]; [lia|]. cbn [read_loop].
  destruct (Nat.ltb_spec index (length content)); [lia | reflexivity].
Qed.

Lemma read_loop_other (fuel : nat) (content : str) (index : nat)
  (entries : A) (c : ascii) (r : str) :
  length content - index < fuel ->
  skipn index content = c :: r -> Ascii.eqb c "@" = false ->
  read_loop process fuel content index entries =
  read_loop process fuel content (index + 1) entries.
Proof.
  intros Hf Sk Hc. destruct fuel as [|fuel]; [lia|].
  destruct (skipn_cons_at _ _ _ _ Sk) as (_ & _ & L).
  transitivity (read_loop process fuel content (index + 1) entries);
    [|apply read_loop_fuel; lia].
  cbn [read_loop]. destruct (Nat.ltb_spec index (length content)); [|lia].
  rewrite (getitem_at _ _ _ _ Sk). cbn [bind]. now rewrite Hc.
Qed.

(** The characters before the first [@] are passed. *)
Lemma read_loop_skip (pre : str) (fuel : nat) (content : str) (index : nat)
  (entries : A) (r : str) :
  length content - index < fuel ->
  skipn index content = pre ++ r -> contains "@" pre = false ->
  read_loop process fuel content index entries =
  read_loop process fuel content (index + length pre) entries.
Proof.
  revert index. induction pre as [|c pre IH]; intros index Hf Sk Hc.
  - now rewrite Nat.add_0_r.
  - unfold contains in Hc. cbn [existsb] in Hc.
    apply orb_false_iff in Hc. destruct Hc as [Hc Hpre].
    rewrite Ascii.eqb_sym in Hc.
    rewrite (read_loop_other fuel content index entries c (pre ++ r))
      by assumption.
    destruct (skipn_cons_at _ _ _ _ Sk) as (_ & Sk' & _).
    rewrite IH by (assumption || lia).
    f_equal. simpl. lia.
Qed.

(** At an [@] whose record closes, the handler gets the text up to the
    closing brace and the loop goes on behind it. *)
Lemma read_loop_at (fuel : nat) (content : str) (index : nat) (entries : A)
  (r : str) (k : nat) :
  length content - index < fuel ->
  skipn index content = "@"%char :: r ->
  closing_offset ("@"%char :: r) 0 = Some k ->
  read_loop process fuel content index entries =
  (entries' <- process (slice content index (index + k + 1)) entries ;;
   read_loop process fuel content (index + k + 1) entries').
Proof.
  intros Hf Sk C. destruct fuel as [|fuel]; [lia|].
  destruct (skipn_cons_at _ _ _ _ Sk) as (_ & _ & L).
  assert (Hk := closing_offset_bound _ _ _ C). rewrite <- Sk in Hk.
  rewrite length_skipn in Hk.
  transitivity
    (entries' <- process (slice content index (index + k + 1)) entries ;;
     read_loop process fuel content (index + k + 1) entries').
  - cbn [read_loop]. destruct (Nat.ltb_spec index (length content)); [|lia].
    rewrite (getitem_at _ _ _ _ Sk). cbn [bind Ascii.eqb Bool.eqb].
    rewrite entry_loop_closing by lia. rewrite Sk, C.
    destruct (process (slice content index (index + k + 1)) entries);
      reflexivity.
  - destruct (process (slice content index (index + k + 1)) entries);
      cbn [bind]; try reflexivity.
    apply read_loop_fuel; lia.
Qed.

End ReadLoopSteps.

(** ** Counting braces *)

Lemma brace_free_cons (c : ascii) (s : str) :
  brace_free (c :: s) = true ->
  Ascii.eqb c "{" = false /\ Ascii.eqb c "}" = false /\ brace_free s = true.
Proof.
  unfold brace_free, contains. cbn [existsb]. intros H.
  apply andb_true_iff in H. destruct H as [H1 H2].
  apply negb_true_iff, orb_false_iff in H1.
  apply negb_true_iff, orb_false_iff in H2.
  destruct H1 as [H1 H1'], H2 as [H2 H2'].
  rewrite Ascii.eqb_sym in H1. rewrite Ascii.eqb_sym in H2.
  rewrite H1' , H2'. auto.
Qed.

Lemma brace_free_app (a b : str) :
  brace_free (a ++ b) = brace_free a && brace_free b.
Proof.
  unfold brace_free, contains. rewrite !existsb_app.
  destruct (existsb (Ascii.eqb "{") a), (existsb (Ascii.eqb "}") a),
    (existsb (Ascii.eqb "{") b), (existsb (Ascii.eqb "}") b); reflexivity.
Qed.

Lemma closing_offset_free (a b : str) (bc : Z) :
  brace_free a = true ->
  closing_offset (a ++ b) bc =
  option_map (Nat.add (length a)) (closing_offset b bc).
Proof.
  induction a as [|c a IH]; intros H.
  - cbn [app length]. now destruct (closing_offset b bc).
  - apply brace_free_cons in H. destruct H as (H1 & H2 & H).
    cbn [app closing_offset]. rewrite H1, H2, (IH H).
    now destruct (closing_offset b bc).
Qed.

Lemma closing_offset_nests (v b : str) (level bc : Z) :
  nests v level = true -> (level < bc)%Z ->
  closing_offset (v ++ b) bc =
  option_map (Nat.add (length v)) (closing_offset b (bc - level)%Z).
Proof.
  revert level bc. induction v as [|c v IH]; intros level bc H L.
  - cbn [nests] in H. apply Z.eqb_eq in H. subst level.
    rewrite Z.sub_0_r. cbn [app length]. now destruct (closing_offset b bc).
  - cbn [app closing_offset nests] in *.
    destruct (Ascii.eqb c "{").
    + rewrite (IH (level + 1)%Z) by (assumption || lia).
      replace (bc + 1 - (level + 1))%Z with (bc - level)%Z by lia.
      now destruct (closing_offset b (bc - level)%Z).
    + destruct (Ascii.eqb c "}").
      * apply andb_true_iff in H. destruct H as [H1 H].
        apply Z.leb_le in H1.
        destruct (Z.eqb_spec (bc - 1) 0); [lia|].
        rewrite (IH (level - 1)%Z) by (assumption || lia).
        replace (bc - 1 - (level - 1))%Z with (bc - level)%Z by lia.
        now destruct (closing_offset b (bc - level)%Z).
      * rewrite (IH level) by (assumption || lia).
        now destruct (closing_offset b (bc - level)%Z).
Qed.

Lemma brace_free_nests (s : str) : brace_free s = true -> nests s 0 = true.
Proof.
  induction s as [|c s IH]; intros H; [reflexivity|].
  apply brace_free_cons in H. destruct H as (H1 & H2 & H).
  cbn [nests]. rewrite H1, H2. now apply IH.
Qed.

(** ** The scan sees a double quote as any other character *)





Lemma nests_app (a b : str) (level : Z) :
  nests a level = true -> nests b 0 = true -> nests (a ++ b) level = true.
Proof.
  revert level. induction a as [|c a IH]; intros level Ha Hb.
  - cbn [nests] in Ha. apply Z.eqb_eq in Ha. now subst level.
  - cbn [app nests] in *. destruct (Ascii.eqb c "{"); [now apply IH|].
    destruct (Ascii.eqb c "}"); [|now apply IH].
    apply andb_true_iff in Ha. destruct Ha as [H1 Ha].
    rewrite H1. now apply IH.
Qed.

Lemma nests_other (c : ascii) (s : str) (level : Z) :
  Ascii.eqb c "{" = false -> Ascii.eqb c "}" = false ->
  nests (c :: s) level = nests s level.
Proof. intros H1 H2. cbn [nests]. now rewrite H1, H2. Qed.

(** The closing brace of a record: the header [head] has no brace and the
    braces of [body] nest. *)
Lemma closing_offset_record (head body rest : str) :
  brace_free head = true -> nests body 0 = true ->
  closing_offset
    (("@"%char :: head ++ "{"%char :: body ++ ["}"%char]) ++ rest) 0 =
  Some (length ("@"%char :: head ++ "{"%char :: body)).
Proof.
  intros Hh Hb.
  replace (("@"%char :: head ++ "{"%char :: body ++ ["}"%char]) ++ rest)
    with (("@"%char :: head) ++ "{"%char :: body ++ "}"%char :: rest)
    by (now list_norm).
  rewrite closing_offset_free.
  2:{ change ("@"%char :: head) with (["@"%char] ++ head).
      rewrite brace_free_app, Hh. reflexivity. }
  cbn [closing_offset Ascii.eqb Bool.eqb].
  rewrite (closing_offset_nests body _ 0) by (assumption || lia).
  cbn [closing_offset Ascii.eqb Bool.eqb Z.add Z.sub Z.eqb Z.opp
       Z.pos_sub option_map].
  f_equal. cbn [length]. rewrite !length_app. cbn [length]. lia.
Qed.

Section FirstRecord.

Context {A : Type}.
Variable process : str -> A -> outcome A.

(** The first record of a document: [pre] holds no [@], and the record
    [rec] starts with one and closes at its last character. *)
Lemma read_loop_first_record (pre rec rest : str) (r : str) (entries : A) :
  contains "@" pre = false ->
  rec = "@"%char :: r ->
  closing_offset (rec ++ rest) 0 = Some (length r) ->
  read_loop process (S (length (pre ++ rec ++ rest))) (pre ++ rec ++ rest)
    0 entries =
  (entries' <- process rec entries ;;
   read_loop process (S (length (pre ++ rec ++ rest))) (pre ++ rec ++ rest)
     (length pre + length rec) entries').
Proof.
  intros Hpre Hrec C.
  rewrite (read_loop_skip process pre _ _ 0 entries (rec ++ rest))
    by (reflexivity || assumption || lia).
  cbn [Nat.add].
  assert (Sk : skipn (length pre) (pre ++ rec ++ rest) =
               "@"%char :: r ++ rest).
  { rewrite skipn_app_length. now subst rec. }
  rewrite (read_loop_at process _ _ _ entries (r ++ rest) (length r)).
  - assert (E : slice (pre ++ rec ++ rest) (length pre)
                  (length pre + length r + 1) = rec).
    { unfold slice. rewrite skipn_app_length.
      replace (length pre + length r + 1 - length pre) with (length rec)
        by (subst rec; simpl; lia).
      rewrite firstn_app, firstn_all, Nat.sub_diag. cbn [firstn].
      apply app_nil_r. }
    rewrite E.
    replace (length pre + length r + 1) with (length pre + length rec)
      by (subst rec; simpl; lia).
    reflexivity.
  - lia.
  - exact Sk.
  - subst rec. exact C.
Qed.

End FirstRecord.

(** ** [strip], [split], [join] *)

Lemma dropwhile_length (p : ascii -> bool) (s : str) :
  length (dropwhile p s) <= length s.
Proof.
  induction s as [|c s IH]; simpl; [lia|]. destruct (p c); simpl; lia.
Qed.

Lemma dropwhile_stop (p : ascii -> bool) (c : ascii) (s : str) :
  p c = false -> dropwhile p (c :: s) = c :: s.
Proof. intros H. simpl. now rewrite H. Qed.

Lemma dropwhile_fixed (p : ascii -> bool) (s : str) :
  dropwhile p s = s -> s = [] \/ exists c s', s = c :: s' /\ p c = false.
Proof.
  destruct s as [|c s]; [now left|]. intros H. right. exists c, s.
  split; [reflexivity|]. simpl in H. destruct (p c) eqn:E; [|reflexivity].
  assert (L := dropwhile_length p s). rewrite H in L. simpl in L. lia.
Qed.

Lemma dropwhile_app_stop (p : ascii -> bool) (a : str) (c : ascii) (b : str) :
  p c = false -> dropwhile p (a ++ c :: b) = dropwhile p a ++ c :: b.
Proof.
  intros H. induction a as [|d a IH]; simpl.
  - now rewrite H.
  - destruct (p d); [exact IH | reflexivity].
Qed.

Lemma dropwhile_all (p : ascii -> bool) (a b : str) :
  forallb p a = true -> dropwhile p (a ++ b) = dropwhile p b.
Proof.
  induction a as [|d a IH]; simpl; intros H; [reflexivity|].
  apply andb_true_iff in H. destruct H as [-> H]. now apply IH.
Qed.

Lemma rstrip_last (s : str) (c : ascii) :
  isspace c = false -> rstrip (s ++ [c]) = s ++ [c].
Proof.
  intros H. unfold rstrip. rewrite rev_app_distr. cbn [rev app].
  rewrite dropwhile_stop by exact H.
  cbn [rev]. now rewrite rev_involutive.
Qed.

Lemma rstrip_spaces (s ws : str) :
  forallb isspace ws = true -> rstrip (s ++ ws) = rstrip s.
Proof.
  intros H. unfold rstrip. rewrite rev_app_distr.
  rewrite dropwhile_all; [reflexivity|].
  rewrite forallb_forall in *. intros x Hx. apply H. now apply in_rev.
Qed.

(** A text that [strip] leaves as it is: it is empty, or it starts with
    a character that is no space and [rstrip] leaves it as it is. *)
Lemma strip_fixed (k : str) :
  strip k = k ->
  k = [] \/ exists c k', k = c :: k' /\ isspace c = false /\ rstrip k = k.
Proof.
  intros H. destruct k as [|c k']; [now left|]. right. exists c, k'.
  split; [reflexivity|].
  destruct (isspace c) eqn:E.
  - exfalso. unfold strip, lstrip, rstrip in H. cbn [dropwhile] in H.
    rewrite E in H. apply (f_equal (@length ascii)) in H.
    rewrite length_rev in H.
    assert (L1 := dropwhile_length isspace (rev (dropwhile isspace k'))).
    rewrite length_rev in L1.
    assert (L2 := dropwhile_length isspace k'). simpl in H. lia.
  - split; [reflexivity|]. unfold strip, lstrip in H.
    rewrite dropwhile_stop in H by exact E. exact H.
Qed.

(** The text of a key between white space is stripped to the key. *)
Lemma strip_padded (ws1 k ws2 : str) :
  forallb isspace ws1 = true -> forallb isspace ws2 = true ->
  strip k = k -> strip (ws1 ++ k ++ ws2) = k.
Proof.
  intros H1 H2 Hk. unfold strip, lstrip. rewrite dropwhile_all by exact H1.
  destruct (strip_fixed k Hk) as [->|(c & k' & -> & Hc & Hr)].
  - cbn [app]. rewrite <- (app_nil_r ws2), dropwhile_all by exact H2.
    reflexivity.
  - cbn [app]. rewrite dropwhile_stop by exact Hc.
    change (c :: k' ++ ws2) with ((c :: k') ++ ws2).
    now rewrite rstrip_spaces.
Qed.

Lemma split_aux_acc (c : ascii) (s cur : str) :
  split_aux c s cur =
  match split_aux c s [] with
  | x :: l => (rev cur ++ x) :: l
  | [] => []
  end.
Proof.
  revert cur. induction s as [|d s IH]; intros cur; cbn [split_aux].
  - now rewrite app_nil_r.
  - destruct (Ascii.eqb d c).
    + now rewrite app_nil_r.
    + rewrite (IH (d :: cur)), (IH [d]).
      destruct (split_aux c s []) as [|x l]; [reflexivity|].
      cbn [rev app]. now rewrite <- app_assoc.
Qed.

(** The first line of a text. *)
Lemma split_first (c : ascii) (h t : str) :
  contains c h = false -> split c (h ++ c :: t) = h :: split c t.
Proof.
  unfold split, contains. induction h as [|d h IH]; intros H.
  - cbn [app split_aux]. now rewrite Ascii.eqb_refl.
  - cbn [existsb] in H. apply orb_false_iff in H. destruct H as [H1 H2].
    cbn [app split_aux]. rewrite Ascii.eqb_sym, H1.
    rewrite split_aux_acc, (IH H2). reflexivity.
Qed.

Lemma join_split (c : ascii) (s : str) : join [c] (split c s) = s.
Proof.
  unfold split. induction s as [|d s IH]; [reflexivity|].
  cbn [split_aux]. destruct (split_aux_cons c s []) as (x & l & E).
  destruct (Ascii.eqb_spec d c) as [->|N].
  - rewrite E in *. cbn [rev].
    change (join [c] ([] :: x :: l)) with (c :: join [c] (x :: l)).
    now rewrite IH.
  - rewrite split_aux_acc, E. rewrite E in IH. cbn [rev app].
    destruct l as [|y l].
    + cbn [join] in *. now rewrite IH.
    + change (join [c] ((d :: x) :: y :: l))
        with (d :: join [c] (x :: y :: l)).
      now rewrite IH.
Qed.

Lemma split1_app (c : ascii) (a b : str) :
  contains c a = false -> split1 c (a ++ c :: b) = [a; b].
Proof.
  unfold split1. intros H.
  assert (G : forall cur, split1_aux c (a ++ c :: b) cur = [rev cur ++ a; b]).
  { unfold contains in H. induction a as [|d a IH]; intros cur.
    - cbn [app split1_aux]. now rewrite Ascii.eqb_refl, app_nil_r.
    - cbn [existsb] in H. apply orb_false_iff in H. destruct H as [H1 H2].
      cbn [app split1_aux]. rewrite Ascii.eqb_sym, H1, (IH H2).
      cbn [rev]. now rewrite <- app_assoc. }
  apply G.
Qed.

Lemma contains_app (c : ascii) (a b : str) :
  contains c (a ++ b) = contains c a || contains c b.
Proof. apply existsb_app. Qed.

Lemma rstrip_char_last (c : ascii) (s : str) :
  rstrip_char c (s ++ [c]) = rstrip_char c s.
Proof.
  unfold rstrip_char. rewrite rev_app_distr. cbn [rev app dropwhile].
  now rewrite Ascii.eqb_refl.
Qed.

(** ** A value in braces *)

Lemma ev_step_other (c : ascii) (st : ev_state) :
  Ascii.eqb c "{" = false -> Ascii.eqb c "}" = false ->
  brace_level st <> 0%Z ->
  exists q : bool,
    ev_step c st =
    inl {| index := index st + 1; brace_level := brace_level st;
           in_quotes := q; value := value st ++ [c] |}.
Proof.
  intros H1 H2 Hl. unfold ev_step. rewrite H1, H2.
  destruct (Ascii.eqb c DQUOTE); [eauto|].
  destruct (Z.eqb_spec (brace_level st) 0); [contradiction|].
  rewrite andb_false_r. cbn [andb]. eauto.
Qed.

(** Inside braces a text whose braces nest is passed without a return. *)
Lemma ev_run_nests (v : str) (level : Z) (st : ev_state) :
  nests v level = true -> (0 <= level < brace_level st)%Z ->
  exists q : bool,
    ev_run v st =
    inl {| index := index st + length v;
           brace_level := brace_level st - level;
           in_quotes := q; value := value st ++ v |}.
Proof.
  revert level st. induction v as [|c v IH]; intros level st Hn Hl.
  - cbn [nests] in Hn. apply Z.eqb_eq in Hn. subst level.
    exists (in_quotes st). destruct st as [i l q val]. cbn.
    now rewrite Nat.add_0_r, Z.sub_0_r, app_nil_r.
  - cbn [nests] in Hn. cbn [ev_run length].
    destruct (Ascii.eqb c "{") eqn:E1.
    + unfold ev_step. rewrite E1.
      edestruct (IH (level + 1)%Z) as [q ->]; [exact Hn | cbn; lia |].
      exists q. cbn. f_equal. f_equal; [lia | lia | now rewrite <- app_assoc].
    + destruct (Ascii.eqb c "}") eqn:E2.
      * apply andb_true_iff in Hn. destruct Hn as [H1 Hn].
        apply Z.leb_le in H1. unfold ev_step. rewrite E1, E2.
        destruct (Z.eqb_spec (brace_level st - 1) 0); [lia|].
        edestruct (IH (level - 1)%Z) as [q ->]; [exact Hn | cbn; lia |].
        exists q. cbn. f_equal.
        f_equal; [lia | lia | now rewrite <- app_assoc].
      * destruct (ev_step_other c st E1 E2) as [q' ->]; [lia|].
        edestruct (IH level) as [q ->]; [exact Hn | cbn; lia |].
        exists q. cbn. f_equal.
        f_equal; [lia | now rewrite <- app_assoc].
Qed.

(** A value in braces whose braces nest is extracted without them, with
    the index of its closing brace. *)
Lemma extract_value_braced (text : str) (j : nat) (v r : str) :
  skipn j text = "{"%char :: v ++ "}"%char :: r -> nests v 0 = true ->
  extract_value text j = Return (v, j + 1 + length v).
Proof.
  intros Sk Hn. rewrite extract_value_run, Sk. cbn [ev_run].
  change (ev_step "{" (ev_init j))
    with (@inl ev_state (str * nat)
            {| index := j + 1; brace_level := 1; in_quotes := false;
               value := lit "{" |}).
  cbn iota. rewrite ev_run_app.
  edestruct (ev_run_nests v 0) as [q ->]; [exact Hn | cbn; lia |].
  cbn [ev_run index brace_level value].
  rewrite ev_step_close by reflexivity.
  cbn [ev_result index value]. f_equal. f_equal.
  rewrite <- app_assoc. apply strip_braces_wrapped.
Qed.

(** ** The field parser, step by step *)

Lemma pf_loop_fuel (f1 f2 : nat) (text : str) (index : nat)
  (fields : odict str) :
  length text - index < f1 -> length text - index < f2 ->
  pf_loop f1 text index fields = pf_loop f2 text index fields.
Proof.
  revert f2 index fields.
  induction f1 as [|f1 IH]; intros f2 index fields H1 H2; [lia|].
  destruct f2 as [|f2]; [lia|]. cbn [pf_loop].
  destruct (Nat.ltb_spec index (length text)) as [L|L]; [|reflexivity].
  destruct (getitem text index) as [c| | |]; cbn [bind]; try reflexivity.
  destruct (Ascii.eqb c "="); [|apply IH; lia].
  destruct (skip_loop_returns (S (length text)) text (index + 1))
    as (j & -> & Hj); [lia|]. cbn [bind].
  destruct (extract_value_index text j) as (v & i & -> & Hi). cbn [bind].
  match goal with |- context [normalize_value ?k v] =>
    destruct (normalize_value k v) end; cbn [bind]; try reflexivity.
  apply IH; lia.
Qed.

Lemma pf_loop_end (fuel : nat) (text : str) (index : nat)
  (fields : odict str) :
  0 < fuel -> length text <= index ->
  pf_loop fuel text index fields = Return fields.
Proof.
  intros Hf L. destruct fuel as [|fuel]; [lia|]. cbn [pf_loop].
  destruct (Nat.ltb_spec index (length text)); [lia | reflexivity].
Qed.

Lemma pf_loop_other (fuel : nat) (text : str) (index : nat)
  (fields : odict str) (c : ascii) (r : str) :
  length text - index < fuel ->
  skipn index text = c :: r -> Ascii.eqb c "=" = false ->
  pf_loop fuel text index fields = pf_loop fuel text (index + 1) fields.
Proof.
  intros Hf Sk Hc. destruct fuel as [|fuel]; [lia|].
  destruct (skipn_cons_at _ _ _ _ Sk) as (_ & _ & L).
  transitivity (pf_loop fuel text (index + 1) fields);
    [|apply pf_loop_fuel; lia].
  cbn [pf_loop]. destruct (Nat.ltb_spec index (length text)); [|lia].
  rewrite (getitem_at _ _ _ _ Sk). cbn [bind]. now rewrite Hc.
Qed.

(** The characters up to the next [=] are passed. *)
Lemma pf_loop_skip (g : str) (fuel : nat) (text : str) (index : nat)
  (fields : odict str) (r : str) :
  length text - index < fuel ->
  skipn index text = g ++ r -> contains "=" g = false ->
  pf_loop fuel text index fields =
  pf_loop fuel text (index + length g) fields.
Proof.
  revert index. induction g as [|c g IH]; intros index Hf Sk Hc.
  - now rewrite Nat.add_0_r.
  - unfold contains in Hc. cbn [existsb] in Hc.
    apply orb_false_iff in Hc. destruct Hc as [Hc Hg].
    rewrite Ascii.eqb_sym in Hc.
    rewrite (pf_loop_other fuel text index fields c (g ++ r)) by assumption.
    destruct (skipn_cons_at _ _ _ _ Sk) as (_ & Sk' & _).
    rewrite IH by (assumption || lia).
    f_equal. simpl. lia.
Qed.

Lemma skip_loop_one_space (fuel : nat) (text : str) (j : nat) (c : ascii)
  (r : str) :
  skipn j text = " "%char :: c :: r ->
  contains c [" "%char; TAB; NL] = false ->
  skip_loop (S (S fuel)) text j = Return (j + 1).
Proof.
  intros Sk Hc. destruct (skipn_cons_at _ _ _ _ Sk) as (_ & Sk' & L).
  destruct (skipn_cons_at _ _ _ _ Sk') as (_ & _ & L').
  cbn [skip_loop]. destruct (Nat.ltb_spec j (length text)); [|lia].
  rewrite (getitem_at _ _ _ _ Sk). cbn [bind].
  change (contains " " [" "%char; TAB; NL]) with true. cbn iota.
  destruct (Nat.ltb_spec (j + 1) (length text)); [|lia].
  rewrite (getitem_at _ _ _ _ Sk'). cbn [bind]. now rewrite Hc.
Qed.

Lemma find_last_app (c : ascii) (a b : str) (i : nat) (found : Z) :
  find_last c (a ++ b) i found =
  find_last c b (i + length a) (find_last c a i found).
Proof.
  revert i found. induction a as [|d a IH]; intros i found; cbn [app find_last length].
  - now rewrite Nat.add_0_r.
  - rewrite IH. f_equal. lia.
Qed.

Lemma find_last_absent (c : ascii) (b : str) (i : nat) (found : Z) :
  contains c b = false -> find_last c b i found = found.
Proof.
  unfold contains. revert i found.
  induction b as [|d b IH]; intros i found H; [reflexivity|].
  cbn [existsb] in H. apply orb_false_iff in H. destruct H as [H1 H2].
  cbn [find_last]. rewrite Ascii.eqb_sym, H1. now apply IH.
Qed.

(** The start of the key: behind the last line feed before the [=]. *)
Lemma key_start_at (q l r : str) :
  q = [] \/ (exists q', q = q' ++ [NL]) -> contains NL l = false ->
  Z.to_nat (rfind NL (q ++ l ++ r) 0 (length (q ++ l)) + 1) = length q /\
  slice (q ++ l ++ r) (length q) (length (q ++ l)) = l.
Proof.
  intros Hq Hl. split.
  - unfold rfind, slice. cbn [skipn]. rewrite Nat.sub_0_r.
    rewrite app_assoc, firstn_app, firstn_all, Nat.sub_diag.
    cbn [firstn]. rewrite app_nil_r, find_last_app.
    rewrite find_last_absent by exact Hl.
    destruct Hq as [->|[q' ->]]; [reflexivity|].
    rewrite find_last_app. cbn [find_last].
    change (Ascii.eqb NL NL) with true. cbn iota.
    rewrite length_app. cbn [length Nat.add]. lia.
  - unfold slice. rewrite skipn_app_length, length_app.
    replace (length q + length l - length q) with (length l) by lia.
    rewrite firstn_app, firstn_all, Nat.sub_diag. cbn [firstn].
    apply app_nil_r.
Qed.

(** One field: at [=], with one space and a value in braces behind it. *)
Lemma pf_loop_field (fuel : nat) (q l v r : str) (fields : odict str)
  (w : str) :
  let text := q ++ l ++ "="%char :: " "%char :: "{"%char :: v ++
              "}"%char :: r in
  length text - length (q ++ l) < fuel ->
  q = [] \/ (exists q', q = q' ++ [NL]) -> contains NL l = false ->
  nests v 0 = true ->
  normalize_value (lower (strip l)) v = Return w ->
  pf_loop fuel text (length (q ++ l)) fields =
  pf_loop fuel text (length (q ++ l) + 4 + length v)
    (od_set fields (lower (lower (strip l))) w).
Proof.
  intros text Hf Hq Hl Hn Hw. destruct fuel as [|fuel]; [lia|].
  assert (Sk : skipn (length (q ++ l)) text =
               "="%char :: " "%char :: "{"%char :: v ++ "}"%char :: r).
  { unfold text. rewrite app_assoc. apply skipn_app_length. }
  destruct (skipn_cons_at _ _ _ _ Sk) as (_ & Sk1 & L).
  destruct (skipn_cons_at _ _ _ _ Sk1) as (_ & Sk2 & L1).
  destruct (key_start_at q l
              ("="%char :: " "%char :: "{"%char :: v ++ "}"%char :: r)
              Hq Hl) as [K1 K2].
  fold text in K1, K2.
  transitivity (pf_loop fuel text (length (q ++ l) + 4 + length v)
                  (od_set fields (lower (lower (strip l))) w)).
  - cbn [pf_loop]. destruct (Nat.ltb_spec (length (q ++ l)) (length text));
      [|lia].
    rewrite (getitem_at _ _ _ _ Sk). cbn [bind Ascii.eqb Bool.eqb].
    rewrite K1, K2.
    assert (Hlen : exists f, length text = S f) by (exists (length text - 1); lia).
    destruct Hlen as [f Hlen]. rewrite Hlen.
    rewrite (skip_loop_one_space f text _ _ _ Sk1) by reflexivity.
    cbn [bind].
    rewrite (extract_value_braced text _ v r Sk2 Hn). cbn [bind].
    rewrite Hw. cbn [bind]. f_equal. lia.
  - apply pf_loop_fuel; [|lia].
    assert (length text >= length (q ++ l) + 4 + length v).
    { apply (f_equal (@length ascii)) in Sk. rewrite length_skipn in Sk.
      cbn [length] in Sk. rewrite !length_app in Sk. cbn [length] in Sk.
      rewrite !length_app. unfold str in *. lia. }
    unfold str in *. lia.
Qed.

(** ** Reading back what [entry2str] wrote *)

Lemma entry2str_lines (key : str) (e : entry) :
  entry2str key e =
  ("@"%char :: type e ++ "{"%char :: key ++ [","%char]) ++
  concat (map field_line (fields e)) ++ [NL; "}"%char] ++ [NL; NL].
Proof.
  unfold entry2str.
  assert (F : forall (fs : odict str) (s : str),
    fold_left
      (fun s fv =>
         join [NL] [s; TAB :: fst fv ++ lit " = {" ++ snd fv ++ lit "},"])
      fs s = s ++ concat (map field_line fs)).
  { induction fs as [|fv fs IH]; intros s; cbn [fold_left map concat].
    - now rewrite app_nil_r.
    - rewrite IH. cbn [join]. unfold field_line. now list_norm. }
  rewrite F. cbn [join]. now list_norm.
Qed.

Lemma od_set_fold_fresh (l acc : odict str) :
  NoDup (map fst acc ++ map fst l) ->
  fold_left (fun d fv => od_set d (fst fv) (snd fv)) l acc = acc ++ l.
Proof.
  revert acc. induction l as [|[k v] l IH]; intros acc N; cbn [fold_left].
  - now rewrite app_nil_r.
  - cbn [map fst snd] in *. rewrite od_set_fresh.
    + rewrite IH; [now rewrite <- app_assoc|].
      rewrite map_app, <- app_assoc. exact N.
    + destruct (od_mem acc k) eqn:M; [|reflexivity].
      apply od_mem_in in M. apply NoDup_remove_2 in N.
      exfalso. apply N. apply in_or_app. now left.
Qed.

Lemma skipn_app_at {A} (a b : list A) (n : nat) :
  length a = n -> skipn n (a ++ b) = b.
Proof. intros <-. apply skipn_app_length. Qed.

Lemma pf_loop_block (more : odict str) :
  forall (fuel : nat) (q l p g k v : str) (fields0 : odict str),
    let text := q ++ l ++ "="%char :: " "%char :: "{"%char :: v ++
                "}"%char :: block_rest more in
    length text - length p < fuel ->
    q ++ l = p ++ g -> contains "=" g = false ->
    q = [] \/ (exists q', q = q' ++ [NL]) -> contains NL l = false ->
    strip l = k ->
    plain_field (k, v) -> Forall plain_field more ->
    pf_loop fuel text (length p) fields0 =
    Return (fold_left (fun d fv => od_set d (fst fv) (snd fv))
              ((k, v) :: more) fields0).
Proof.
  induction more as [|[k2 v2] more IH];
    intros fuel q l p g k v fields0 text Hf Hpg Hg Hq Hl Hk Hkv Hmore.
  all: destruct Hkv as (_ & _ & _ & _ & Hlow & Hn & Hnorm);
    cbn [fst snd] in Hlow, Hn, Hnorm.
  all: assert (Sk : skipn (length p) text =
                 g ++ "="%char :: " "%char :: "{"%char :: v ++
                 "}"%char :: block_rest _)
    by (unfold text; rewrite app_assoc, Hpg, <- app_assoc;
        apply skipn_app_length).
  all: rewrite (pf_loop_skip g fuel text (length p) fields0 _ Hf Sk Hg).
  all: assert (Hlen : length p + length g = length (q ++ l))
    by (rewrite Hpg, length_app; reflexivity).
  all: rewrite Hlen.
  all: assert (Hp : length p <= length (q ++ l)) by lia.
  all: unfold text in *; clear text.
  all: rewrite (pf_loop_field fuel q l v _ fields0 v);
    [ | lia | assumption | assumption | assumption
      | rewrite Hk, Hlow; exact Hnorm ].
  all: rewrite Hk, !Hlow; cbn [fold_left fst snd].
  - (* no field left *)
    match goal with |- pf_loop _ ?t ?i _ = _ =>
      assert (Sk2 : skipn i t = block_rest [] ++ []) end.
    { rewrite app_nil_r.
      replace (q ++ l ++ "="%char :: " "%char :: "{"%char :: v ++
               "}"%char :: block_rest [])
        with ((q ++ l ++ "="%char :: " "%char :: "{"%char :: v ++
               ["}"%char]) ++ block_rest []) by (now list_norm).
      apply skipn_app_at.
      repeat (rewrite !length_app; cbn [length]). lia. }
    match goal with |- pf_loop _ ?t ?i ?f = _ =>
      rewrite (pf_loop_skip (block_rest []) fuel t i f []);
        [ | lia | exact Sk2 | reflexivity] end.
    apply pf_loop_end; [lia|].
    apply (f_equal (@length ascii)) in Sk2. rewrite length_skipn in Sk2.
    cbn [length block_rest map concat app] in *. lia.
  - (* the next field *)
    inversion Hmore as [|x xs Hk2 Hmore']; subst x xs.
    set (q' := (q ++ l ++ "="%char :: " "%char :: "{"%char :: v ++
                ["}"%char; ","%char]) ++ [NL]).
    set (l' := TAB :: k2 ++ [" "%char]).
    set (p' := q ++ l ++ "="%char :: " "%char :: "{"%char :: v ++
               ["}"%char]).
    set (g' := ","%char :: NL :: l').
    replace (q ++ l ++ "="%char :: " "%char :: "{"%char :: v ++
             "}"%char :: block_rest ((k2, v2) :: more))
      with (q' ++ l' ++ "="%char :: " "%char :: "{"%char :: v2 ++
            "}"%char :: block_rest more)
      by (unfold q', l', block_rest, field_line; cbn [map concat fst snd];
          now list_norm).
    replace (length (q ++ l) + 4 + length v) with (length p')
      by (unfold p'; repeat (rewrite !length_app; cbn [length]); lia).
    destruct Hk2 as (Hb2 & Hnl2 & Heq2 & Hs2 & Hlow2 & Hn2 & Hnorm2).
    cbn [fst snd] in *.
    apply (IH fuel q' l' p' g' k2 v2).
    + assert (length p <= length p')
        by (unfold p'; rewrite app_assoc, length_app; lia).
      replace (q' ++ l' ++ "="%char :: " "%char :: "{"%char :: v2 ++
            "}"%char :: block_rest more)
        with (q ++ l ++ "="%char :: " "%char :: "{"%char :: v ++
             "}"%char :: block_rest ((k2, v2) :: more))
        by (unfold q', l', block_rest, field_line; cbn [map concat fst snd];
          now list_norm).
      lia.
    + unfold q', l', p', g'. now list_norm.
    + unfold g', l'. unfold contains in *. cbn [existsb].
      rewrite existsb_app, Heq2. reflexivity.
    + right. eexists. reflexivity.
    + unfold l', contains in *. cbn [existsb].
      rewrite existsb_app, Hnl2. reflexivity.
    + unfold l'. apply (strip_padded [TAB] k2 [" "%char]); auto.
    + repeat split; assumption.
    + assumption.
Qed.

(** The field parser reads the lines of plain fields back. *)
Lemma parse_fields_written (fs : odict str) :
  NoDup (map fst fs) -> Forall plain_field fs ->
  parse_fields (strip (tl (concat (map field_line fs) ++ [NL; "}"%char]))) =
  Return fs.
Proof.
  intros Hnd Hfs. destruct fs as [|[k v] more].
  - vm_compute. reflexivity.
  - inversion Hfs as [|x xs Hkv Hmore]; subst x xs.
    assert (Hkv' := Hkv).
    destruct Hkv' as (_ & Hnl & Heq & Hs & _). cbn [fst snd] in *.
    set (l0 := dropwhile isspace (TAB :: k ++ [" "%char])).
    assert (Hl0 : contains "=" l0 = false /\ contains NL l0 = false /\
                  strip l0 = k).
    { unfold l0. destruct (strip_fixed k Hs) as [->|(c & k' & -> & Hc & _)].
      - repeat split; reflexivity.
      - cbn [dropwhile app]. change (isspace TAB) with true. cbn iota.
        rewrite Hc.
        change (c :: k' ++ [" "%char]) with ((c :: k') ++ [" "%char]).
        rewrite !contains_app, Heq, Hnl. repeat split.
        apply (strip_padded [] (c :: k') [" "%char]); auto. }
    destruct Hl0 as (Hl0eq & Hl0nl & Hl0s).
    set (t := l0 ++ "="%char :: " "%char :: "{"%char :: v ++
              "}"%char :: block_rest more).
    assert (E : strip (tl (concat (map field_line ((k, v) :: more)) ++
                           [NL; "}"%char])) = t).
    { cbn [map concat]. unfold field_line at 1. cbn [fst snd app tl].
      match goal with |- strip ?x = _ =>
        replace x
          with ((TAB :: k ++ [" "%char]) ++ "="%char :: " "%char ::
                "{"%char :: v ++ "}"%char :: block_rest more)
          by (unfold block_rest; now list_norm) end.
      unfold strip, lstrip. rewrite dropwhile_app_stop by reflexivity.
      fold l0.
      match goal with |- rstrip ?x = _ =>
        replace x
          with ((l0 ++ "="%char :: " "%char :: "{"%char :: v ++ "}"%char ::
                 ","%char :: concat (map field_line more) ++ [NL]) ++
                ["}"%char])
          by (unfold block_rest; now list_norm) end.
      rewrite rstrip_last by reflexivity.
      unfold t, block_rest. now list_norm. }
    rewrite E. unfold parse_fields. clear E. subst t. clearbody l0.
    rewrite (pf_loop_block more _ [] l0 [] l0 k v []);
      try assumption; try reflexivity.
    + f_equal. apply (od_set_fold_fresh ((k, v) :: more) []). exact Hnd.
    + cbn [length app]. unfold str. lia.
    + now left.
Qed.

Lemma brace_free_contains (s : str) :
  brace_free s = true -> contains "{" s = false /\ contains "}" s = false.
Proof.
  unfold brace_free. intros H. apply andb_true_iff in H.
  destruct H as [H1 H2]. now apply negb_true_iff in H1, H2.
Qed.

(** The text of a record as [entry2str] writes it is read back by
    [process_bib_entry]. *)
Lemma process_bib_entry_written (key : str) (e : entry) :
  plain_entry key e ->
  process_bib_entry
    (("@"%char :: type e ++ "{"%char :: key ++ [","%char]) ++
     concat (map field_line (fields e)) ++ [NL; "}"%char]) [] =
  Return [(key, e)].
Proof.
  intros ((Htb & Htn & Hts & Htl) & (Hkb & Hkn & Hkl & Hkr) & Hnd & Hfs).
  destruct e as [ty fs]. cbn [type fields] in *.
  set (header := "@"%char :: ty ++ "{"%char :: key ++ [","%char]).
  set (t := tl (concat (map field_line fs) ++ [NL; "}"%char])).
  assert (Et : concat (map field_line fs) ++ [NL; "}"%char] = NL :: t).
  { unfold t. destruct fs as [|fv fs']; reflexivity. }
  rewrite Et.
  destruct (brace_free_contains ty Htb) as [Hty1 _].
  assert (Hnl : contains NL header = false).
  { unfold header.
    change ("@"%char :: ty ++ "{"%char :: key ++ [","%char])
      with (["@"%char] ++ ty ++ ["{"%char] ++ key ++ [","%char]).
    rewrite !contains_app, Htn, Hkn. reflexivity. }
  assert (Hstrip : strip header = header).
  { unfold strip, lstrip, header. rewrite dropwhile_stop by reflexivity.
    replace ("@"%char :: ty ++ "{"%char :: key ++ [","%char])
      with (("@"%char :: ty ++ "{"%char :: key) ++ [","%char])
      by (now list_norm).
    now rewrite rstrip_last. }
  assert (Hsplit : split1 "{" header = ["@"%char :: ty; key ++ [","%char]]).
  { unfold header.
    change ("@"%char :: ty ++ "{"%char :: key ++ [","%char])
      with (("@"%char :: ty) ++ "{"%char :: key ++ [","%char]).
    apply split1_app.
    change ("@"%char :: ty) with (["@"%char] ++ ty).
    rewrite contains_app, Hty1. reflexivity. }
  assert (Hopen : contains "{" header = true).
  { unfold header.
    change ("@"%char :: ty ++ "{"%char :: key ++ [","%char])
      with (("@"%char :: ty) ++ ["{"%char] ++ key ++ [","%char]).
    rewrite !contains_app. cbn. now rewrite orb_true_r. }
  assert (Hid : rstrip_char "," (strip (key ++ [","%char])) = key).
  { assert (E : strip (key ++ [","%char]) = key ++ [","%char]).
    { unfold strip, lstrip.
      destruct (dropwhile_fixed isspace key Hkl) as [->|(c & k' & -> & Hc)].
      - reflexivity.
      - cbn [app]. rewrite dropwhile_stop by exact Hc.
        change (c :: k' ++ [","%char]) with ((c :: k') ++ [","%char]).
        now rewrite rstrip_last. }
    now rewrite E, rstrip_char_last. }
  unfold process_bib_entry.
  rewrite (split_first NL header t Hnl). cbn [first_item bind].
  rewrite Hstrip, Hopen. cbn [negb]. rewrite Hsplit. cbn [unpack2 bind skipn].
  rewrite join_split, Hts, Htl, Hid.
  unfold t. rewrite (parse_fields_written fs Hnd Hfs). cbn [bind od_mem existsb].
  unfold od_update. rewrite (od_set_fold_fresh fs []) by exact Hnd.
  reflexivity.
Qed.

Lemma nests_close (v : str) (level : Z) :
  (0 <= level)%Z -> nests v level = true ->
  nests (v ++ ["}"%char]) (level + 1) = true.
Proof.
  revert level. induction v as [|c v IH]; intros level Hl Hn.
  - cbn [nests] in Hn. apply Z.eqb_eq in Hn. subst level. reflexivity.
  - cbn [app nests] in *. destruct (Ascii.eqb c "{").
    + apply IH; [lia | exact Hn].
    + destruct (Ascii.eqb c "}"); [|now apply IH].
      apply andb_true_iff in Hn. destruct Hn as [H1 Hn].
      apply Z.leb_le in H1. apply andb_true_iff. split.
      * apply Z.leb_le. lia.
      * replace (level + 1 - 1)%Z with (level - 1 + 1)%Z by lia.
        apply IH; [lia | exact Hn].
Qed.

Lemma nests_field_line (fv : str * str) :
  plain_field fv -> nests (field_line fv) 0 = true.
Proof.
  intros (Hb & _ & _ & _ & _ & Hn & _). unfold field_line.
  rewrite !nests_other by reflexivity.
  apply nests_app; [exact Hb|].
  cbn [lit list_ascii_of_string app].
  rewrite !nests_other by reflexivity.
  change (nests ("{"%char :: snd fv ++ ["}"%char; ","%char]) 0)
    with (nests (snd fv ++ ["}"%char; ","%char]) 1).
  change (snd fv ++ ["}"%char; ","%char])
    with (snd fv ++ ["}"%char] ++ [","%char]).
  rewrite app_assoc. apply (nests_app _ _ 1); [|reflexivity].
  apply (nests_close _ 0); [lia | exact Hn].
Qed.

Lemma nests_lines (fs : odict str) :
  Forall plain_field fs -> nests (concat (map field_line fs)) 0 = true.
Proof.
  induction 1 as [|fv fs Hfv _ IH]; [reflexivity|].
  cbn [map concat]. apply nests_app; [now apply nests_field_line | exact IH].
Qed.


(** * The claims *)

(** ** Field removal *)

(** C8.  [remove_dummy_fields] keeps the type of the entry, and its fields
    are the old fields without those whose key is [timestamp], [abstract],
    [keywords] or [owner], or [issn] or [url] for an [article]: the other
    fields stay, in their order and with their values. *)
Theorem remove_dummy_fields_frame (e : entry) :
  type (remove_dummy_fields e) = type e /\
  fields (remove_dummy_fields e) =
    filter (fun kv => negb (dummy_field (type e) (fst kv))) (fields e) /\
  (forall k : str,
     od_get (fields (remove_dummy_fields e)) k =
     if dummy_field (type e) k then None else od_get (fields e) k).
Proof.
  assert (F : fields (remove_dummy_fields e) =
    filter (fun kv => negb (dummy_field (type e) (fst kv))) (fields e)).
  { unfold remove_dummy_fields, dummy_field. cbn [fields type].
    destruct (str_eqb (type e) (lit "article")).
    - rewrite !remove_fields_filter, filter_filter.
      apply filter_ext. intros [k v]. cbn [fst].
      rewrite existsb_app, negb_orb. reflexivity.
    - rewrite remove_fields_filter, app_nil_r. reflexivity. }
  split; [reflexivity|]. split; [exact F|].
  intros k. rewrite F.
  destruct (dummy_field (type e) k) eqn:D.
  - apply (od_get_filter_out (fun k => negb (dummy_field (type e) k))).
    now rewrite D.
  - apply (od_get_filter (fun k => negb (dummy_field (type e) k))).
    now rewrite D.
Qed.

(** ** DOI resolution *)

(** The test [not "doi" in entry] of [update_DOI] holds for every entry. *)
Lemma doi_not_in_entry (e : entry) : entry_mem e (lit "doi") = false.
Proof. reflexivity. Qed.

(** The path of the other types: without an exact match the entry is
    returned as it was. *)
Lemma update_DOI_other_no_match (respond : str -> nat -> list item)
  (e : entry) (title : str) (sent : list query) :
  str_eqb (type e) (lit "article") = false ->
  od_get (fields e) (lit "title") = Some title ->
  exact_doi_loop title (respond title 10) = Return None ->
  update_DOI respond e sent = (Return e, sent ++ [(title, 10)]).
Proof.
  intros Ht Hg Hl. unfold update_DOI, od_getitem.
  rewrite doi_not_in_entry, Hg, Ht. cbn [negb].
  unfold get_exact_doi, works. rewrite Hl. reflexivity.
Qed.

(** C3.  For an [article] whose title Crossref answers with no item,
    [update_DOI] stores the text [DOI not found] under the key [doi]:
    [get_doi] returns that text, not [None], and the test
    [doi is not None] lets it through. *)
Theorem update_DOI_article_not_found (respond : str -> nat -> list item)
  (e : entry) (title : str) (sent : list query) :
  type e = lit "article" ->
  od_get (fields e) (lit "title") = Some title ->
  respond title 1 = [] ->
  update_DOI respond e sent =
  (Return {| type := type e;
             fields := od_set (fields e) (lit "doi") (lit "DOI not found") |},
   sent ++ [(title, 1)]).
Proof.
  intros Ht Hg Hr. unfold update_DOI, od_getitem.
  rewrite doi_not_in_entry, Hg, Ht. cbn [negb].
  rewrite str_eqb_refl. unfold get_doi, works. rewrite Hr. reflexivity.
Qed.

Lemma update_DOI_article_not_found_witness :
  update_DOI (fun _ _ => [])
    {| type := lit "article"; fields := [(lit "title", lit "On braces")] |}
    [] =
  (Return {| type := lit "article";
             fields := [(lit "title", lit "On braces");
                        (lit "doi", lit "DOI not found")] |},
   [(lit "On braces", 1)]).
Proof.
  apply (update_DOI_article_not_found (fun _ _ => [])
           {| type := lit "article";
              fields := [(lit "title", lit "On braces")] |}
           (lit "On braces") []); reflexivity.
Defined.

(** C7.  [update_DOI] looks for the key [doi] among the keys of the entry,
    [type] and [fields], where it never is: whatever the fields hold, an
    entry with a title sends one query for it (limit 1 for an [article],
    10 otherwise), and an entry without a title raises [KeyError] at
    [bibfields["title"]], inside the branch of the test.  An [article]
    whose fields hold a [doi] is queried all the same, and the stored DOI
    is replaced by the answer. *)
Theorem update_DOI_ignores_doi_field :
  (forall e : entry, entry_mem e (lit "doi") = false) /\
  (forall (respond : str -> nat -> list item) (e : entry)
          (sent : list query),
     match od_get (fields e) (lit "title") with
     | Some title =>
         snd (update_DOI respond e sent) =
         sent ++
         [(title, if str_eqb (type e) (lit "article") then 1 else 10)]
     | None =>
         update_DOI respond e sent = (Raise (KeyError (lit "title")), sent)
     end) /\
  update_DOI
    (fun _ _ => [{| item_title := None; item_DOI := Some (lit "10.1/new") |}])
    {| type := lit "article";
       fields := [(lit "title", lit "T"); (lit "doi", lit "10.1/old")] |}
    [] =
  (Return {| type := lit "article";
             fields := [(lit "title", lit "T");
                        (lit "doi", lit "10.1/new")] |},
   [(lit "T", 1)]).
Proof.
  split; [exact doi_not_in_entry|]. split; [|reflexivity].
  intros respond e sent.
  unfold update_DOI, od_getitem. rewrite doi_not_in_entry. cbn [negb].
  destruct (od_get (fields e) (lit "title")) as [title|]; [|reflexivity].
  destruct (str_eqb (type e) (lit "article")).
  - unfold get_doi, works. destruct (respond title 1); reflexivity.
  - unfold get_exact_doi, works. reflexivity.
Qed.

(** ** The value extractor *)

(** C6, as the specification states it, fails: the quote toggle is flipped
    on every double quote, the one behind a backslash too.  In the quoted
    value of [doc_escaped_quote] the escaped double quote turns the toggle
    off, and [extract_value] returns at the comma behind it, at index 5;
    with the toggle flipped on the unescaped double quotes only the value
    runs to the comma at index 9. *)
Lemma extract_value_escaped_quote :
  extract_value doc_escaped_quote 0 =
  Return (DQUOTE :: lit "a " ++ [BACKSLASH; DQUOTE], 5) /\
  claimed_extract_value doc_escaped_quote 0 =
  (DQUOTE :: lit "a " ++ BACKSLASH :: DQUOTE :: lit ", b" ++ [DQUOTE], 9) /\
  extract_value doc_escaped_quote 0 <>
  Return (claimed_extract_value doc_escaped_quote 0).
Proof.
  split; [|split]; [vm_compute; reflexivity ..|].
  vm_compute. discriminate.
Qed.

(** C6, amended.  When the characters [body] from the start index are passed
    without a return and leave the brace level at 1, [extract_value]
    returns at the closing brace that follows them: the index is the one of
    that brace, and the value is the text read with its first and last
    character taken off when it starts with an opening brace (it ends with
    the closing one), and the text read as it is otherwise.  A comma read
    while the quote toggle is on does not end the value: the returned index
    lies behind it.  Every double quote flips the toggle, whatever
    stands before it.  The two values of the specification are extracted
    as it says. *)
Theorem extract_value_stops_at_closing_brace :
  (forall (pre body rest : str) (st : ev_state),
     ev_run body (ev_init (length pre)) = inl st ->
     brace_level st = 1%Z ->
     extract_value (pre ++ body ++ lit "}" ++ rest) (length pre) =
     Return (strip_braces (body ++ lit "}"), length pre + length body)) /\
  (forall v : str, strip_braces (lit "{" ++ v ++ lit "}") = v) /\
  (forall acc : str,
     startswith (lit "{") acc = false -> strip_braces acc = acc) /\
  (forall (pre body rest : str) (st : ev_state),
     ev_run body (ev_init (length pre)) = inl st ->
     in_quotes st = true ->
     exists (v : str) (i : nat),
       extract_value (pre ++ body ++ lit "," ++ rest) (length pre) =
       Return (v, i) /\
       length pre + length body < i) /\
  (forall st : ev_state,
     ev_step DQUOTE st =
     inl {| index := index st + 1; brace_level := brace_level st;
            in_quotes := negb (in_quotes st);
            value := value st ++ [DQUOTE] |}) /\
  extract_value (lit "{Nested {inner} value}") 0 =
  Return (lit "Nested {inner} value", 21) /\
  extract_value (DQUOTE :: lit "value, with comma" ++ [DQUOTE]) 0 =
  Return (DQUOTE :: lit "value, with comma" ++ [DQUOTE], 19).
Proof.
  split; [|split; [|split; [|split; [|split; [|split]]]]].
  - intros pre body rest st Hrun Hlvl.
    rewrite extract_value_run, skipn_app_length, ev_run_app, Hrun.
    cbn [lit list_ascii_of_string app ev_run].
    rewrite (ev_step_close _ Hlvl).
    destruct (ev_run_inl _ _ _ Hrun) as [-> ->]. reflexivity.
  - apply strip_braces_wrapped.
  - apply strip_braces_bare.
  - intros pre body rest st Hrun Hq.
    rewrite extract_value_run, skipn_app_length, ev_run_app, Hrun.
    cbn [lit list_ascii_of_string app ev_run].
    rewrite (ev_step_quoted_comma _ Hq).
    destruct (ev_run_inl _ _ _ Hrun) as [Hi Hv]. simpl in Hi, Hv.
    match goal with |- context [ev_run rest ?s] =>
      destruct (ev_run rest s) as [st2|[v i]] eqn:E end.
    + exists (value st2), (index st2). split; [reflexivity|].
      apply ev_run_inl in E. cbn [index value] in E. destruct E as [-> _].
      lia.
    + exists v, i. split; [reflexivity|].
      assert (Hidx := ev_run_inr _ _ _ _ E). cbn [index] in Hidx. lia.
  - apply ev_step_quote.
  - vm_compute. reflexivity.
  - vm_compute. reflexivity.
Qed.

Lemma extract_value_stops_at_closing_brace_witness :
  extract_value (lit "k = " ++ lit "{a" ++ lit "}" ++ lit ",") 4 =
  Return (lit "a", 6) /\
  strip_braces (lit "a}") = lit "a}" /\
  exists (v : str) (i : nat),
    extract_value (lit "k = " ++ (DQUOTE :: lit "a") ++ lit "," ++
                   (lit "b" ++ [DQUOTE])) 4 = Return (v, i) /\
    4 + 2 < i.
Proof.
  destruct extract_value_stops_at_closing_brace as (H1 & _ & H3 & H4 & _).
  split; [|split].
  - apply (H1 (lit "k = ") (lit "{a") (lit ",")
             {| index := 6; brace_level := 1; in_quotes := false;
                value := lit "{a" |}); reflexivity.
  - apply (H3 (lit "a}")). reflexivity.
  - apply (H4 (lit "k = ") (DQUOTE :: lit "a") (lit "b" ++ [DQUOTE])
             {| index := 6; brace_level := 0; in_quotes := true;
                value := DQUOTE :: lit "a" |}); reflexivity.
Defined.

(** ** Names *)

(** C5, as the specification states it, fails: the alphabetic part [john]
    becomes [J.], its first letter in upper case, where the rule as worded
    gives [j.]. *)
Lemma abbreviate_name_lowercase_part :
  abbreviate_name (lit "john") = Return (lit "J.") /\
  claimed_abbreviate_name (lit "john") = lit "j." /\
  abbreviate_name (lit "john") <>
  Return (claimed_abbreviate_name (lit "john")).
Proof.
  split; [|split]; [vm_compute; reflexivity ..|].
  vm_compute. discriminate.
Qed.

(** C5, amended.  On a name of code points below 128 [abbreviate_name]
    puts a space behind every full stop, splits at white space and joins
    with single spaces what it makes of the parts: of a part that consists
    of upper-case letters, each letter with a full stop; of another
    alphabetic part, its first letter in upper case with a full stop; of
    any other part, the part.  So [JRR] gives [J. R. R.] and [John Ronald]
    gives [J. R.]. *)
Theorem abbreviate_name_parts :
  (forall name : str,
     isascii name = true ->
     abbreviate_name name =
     Return (join (lit " ")
               (flat_map abbreviate_part
                  (split_ws (replace (lit ".") (lit ". ") name))))) /\
  (forall part : str,
     isascii part = true ->
     (is_all_uppercase part = true <->
      part <> [] /\ forallb isupper_char part = true)) /\
  abbreviate_name (lit "JRR") = Return (lit "J. R. R.") /\
  abbreviate_name (lit "John Ronald") = Return (lit "J. R.").
Proof.
  split; [intros name _; apply abbreviate_name_join|].
  split; [intros part _; apply is_all_uppercase_iff|].
  split; vm_compute; reflexivity.
Qed.

Lemma abbreviate_name_parts_witness :
  abbreviate_name (lit "J.R.R. tolkien-X") =
  Return (join (lit " ")
            (flat_map abbreviate_part
               (split_ws (replace (lit ".") (lit ". ")
                            (lit "J.R.R. tolkien-X"))))) /\
  (is_all_uppercase (lit "JRR") = true <->
   lit "JRR" <> [] /\ forallb isupper_char (lit "JRR") = true).
Proof.
  destruct abbreviate_name_parts as (H1 & H2 & _).
  split.
  - apply (H1 (lit "J.R.R. tolkien-X")). reflexivity.
  - apply (H2 (lit "JRR")). reflexivity.
Defined.

(** ** Pages *)

(** C4, as the specification states it, fails: of the two runs of hyphens
    in [1--2--3] the field parser collapses none. *)
Lemma pages_two_runs_kept :
  parse_fields (lit "pages = {1--2--3}") =
  Return [(lit "pages", lit "1--2--3")] /\
  claimed_collapse_hyphens (lit "1--2--3") = lit "1-2-3" /\
  parse_fields (lit "pages = {1--2--3}") <>
  Return [(lit "pages", claimed_collapse_hyphens (lit "1--2--3"))].
Proof.
  split; [|split]; [vm_compute; reflexivity ..|].
  vm_compute. discriminate.
Qed.

(** C4, amended.  Of a value under the key [pages] (the extracted text
    without its trailing commas) the field parser replaces the run of all
    its hyphens by one hyphen when they are two or more and stand together;
    a value with one hyphen or none, or whose hyphens do not all stand
    together, is stored as it is.  So [123--145] becomes [123-145] and
    [123-145] stays. *)
Theorem pages_single_run_collapsed :
  (forall (value a b : str) (n : nat),
     rstrip_char "," value = a ++ repeat "-"%char n ++ b ->
     count "-" a = 0 -> count "-" b = 0 -> 2 <= n ->
     normalize_value (lit "pages") value = Return (a ++ lit "-" ++ b)) /\
  (forall value : str,
     count "-" (rstrip_char "," value) <= 1 ->
     normalize_value (lit "pages") value = Return (rstrip_char "," value)) /\
  (forall value : str,
     occurs (repeat "-"%char (count "-" (rstrip_char "," value)))
       (rstrip_char "," value) = false ->
     normalize_value (lit "pages") value = Return (rstrip_char "," value)) /\
  parse_fields (lit "pages = {123--145}") =
  Return [(lit "pages", lit "123-145")] /\
  parse_fields (lit "pages = {123-145}") =
  Return [(lit "pages", lit "123-145")].
Proof.
  assert (P : forall value : str,
    normalize_value (lit "pages") value =
    if 1 <? count "-" (rstrip_char "," value)
    then Return (replace (repeat "-"%char (count "-" (rstrip_char "," value)))
                   (lit "-") (rstrip_char "," value))
    else Return (rstrip_char "," value)) by reflexivity.
  split; [|split; [|split; [|split]]].
  - intros value a b n Hv Ha Hb Hn. rewrite P, Hv.
    assert (Hc : count "-" (a ++ repeat "-"%char n ++ b) = n).
    { unfold count in *. rewrite !count_occ_app, Ha, Hb.
      rewrite count_occ_repeat_eq by reflexivity. lia. }
    rewrite Hc. destruct (Nat.ltb_spec 1 n); [|lia].
    unfold replace. now rewrite replace_aux_run by (auto; lia).
  - intros value Hc. rewrite P.
    destruct (Nat.ltb_spec 1 (count "-" (rstrip_char "," value)));
      [lia | reflexivity].
  - intros value Hno. rewrite P.
    destruct (1 <? count "-" (rstrip_char "," value)); [|reflexivity].
    unfold replace. now rewrite replace_aux_not_occurs.
  - vm_compute. reflexivity.
  - vm_compute. reflexivity.
Qed.

Lemma pages_single_run_collapsed_witness :
  normalize_value (lit "pages") (lit "12---34,") = Return (lit "12-34") /\
  normalize_value (lit "pages") (lit "12-34") = Return (lit "12-34") /\
  normalize_value (lit "pages") (lit "1--2-3") = Return (lit "1--2-3").
Proof.
  destruct pages_single_run_collapsed as (H1 & H2 & H3 & _).
  split; [|split].
  - apply (H1 (lit "12---34,") (lit "12") (lit "34") 3);
      [reflexivity | reflexivity | reflexivity | lia].
  - apply (H2 (lit "12-34")). vm_compute. lia.
  - apply (H3 (lit "1--2-3")). reflexivity.
Defined.

(** ** Termination *)

(** C9.  From a start index within the text [extract_value] returns a
    value and an index between the start and the length of the text;
    [parse_fields] returns for every text; the loops of
    [read_bibtex_entries] return whenever the handler of the records
    does, and with [process_bib_entry] they return or leave through its
    exit for a duplicate id.  In the three the fuel [S (length text)] is
    enough and no index is out of range: the outcome is never [Timeout]
    nor [Raise]. *)
Theorem scanners_return :
  (forall (text : str) (start_index : nat),
     start_index <= length text ->
     exists (v : str) (i : nat),
       extract_value text start_index = Return (v, i) /\
       start_index <= i <= length text) /\
  (forall field_text : str,
     exists fields : odict str, parse_fields field_text = Return fields) /\
  (forall (A : Type) (process : str -> A -> outcome A) (content : str)
          (entries : A),
     (forall t s, exists s', process t s = Return s') ->
     exists entries' : A,
       read_loop process (S (length content)) content 0 entries =
       Return entries') /\
  (forall content : str,
     (exists entries, read_bibtex_entries content = Return entries) \/
     (exists id, read_bibtex_entries content =
                 Exit (lit "Duplicate entry: " ++ id))).
Proof.
  split; [|split; [|split]].
  - intros text start_index Hs.
    destruct (extract_value_index text start_index) as (v & i & E & Hi).
    exists v, i. split; [exact E | lia].
  - exact parse_fields_returns.
  - intros A process content entries Hp.
    destruct (read_loop_records content) as (texts & _ & ->).
    now apply process_all_returns.
  - intros content. unfold read_bibtex_entries.
    destruct (read_loop_records content) as (texts & _ & ->).
    apply process_all_outcome.
Qed.

Lemma scanners_return_witness :
  (exists (v : str) (i : nat),
     extract_value (lit "{a}, b") 0 = Return (v, i) /\ 0 <= i <= 6) /\
  (exists texts : list str,
     read_loop collect (S (length (lit "@a{b}"))) (lit "@a{b}") 0 [] =
     Return texts).
Proof.
  destruct scanners_return as (H1 & _ & H3 & _). split.
  - apply (H1 (lit "{a}, b") 0). simpl. lia.
  - apply (H3 (list str) collect (lit "@a{b}") []).
    intros t s. exists (s ++ [t]). reflexivity.
Defined.

(** ** Duplicate ids *)

(** C2.  [process_bib_entry] never changes an entry that is stored: when it
    returns, the collection is the old one, or the old one with one entry
    more under an id that was not there.  For a document of code points
    below 128, the texts of its records and their ids: if no id occurs
    twice, [read_bibtex_entries] returns the entries under these ids, in
    their order; if one does, it prints [Duplicate entry:] with an id that
    occurs twice, and exits. *)
Theorem duplicate_ids_fatal :
  (forall (entry_text : str) (entries entries' : odict entry),
     process_bib_entry entry_text entries = Return entries' ->
     entries' = entries \/
     exists (id : str) (e : entry),
       od_mem entries id = false /\ entries' = entries ++ [(id, e)]) /\
  (forall (entry_text id : str) (entries : odict entry),
     isascii entry_text = true ->
     record_id entry_text = Some id -> od_mem entries id = true ->
     process_bib_entry entry_text entries =
     Exit (lit "Duplicate entry: " ++ id)) /\
  (forall (content : str) (texts : list str),
     isascii content = true ->
     record_texts content = Return texts ->
     (NoDup (record_ids texts) ->
      exists entries : odict entry,
        read_bibtex_entries content = Return entries /\
        map fst entries = record_ids texts) /\
     (~ NoDup (record_ids texts) ->
      exists id : str,
        read_bibtex_entries content =
        Exit (lit "Duplicate entry: " ++ id) /\
        2 <= count_occ (list_eq_dec ascii_dec) (record_ids texts) id)).
Proof.
  split; [exact process_bib_entry_keeps|]. split.
  - intros entry_text id entries _ Hid Hm.
    assert (C := process_bib_entry_cases entry_text entries).
    now rewrite Hid, Hm in C.
  - intros content texts _ Ht. unfold read_bibtex_entries.
    destruct (read_loop_records content) as (texts' & Ht' & ->).
    assert (texts' = texts) by congruence. subst texts'.
    destruct (process_all_ids texts []) as [H1 H2]; [constructor|].
    cbn [map app] in H1, H2. split; [|exact H2].
    intros N. destruct (H1 N) as (es & E & Hes). exists es. now split.
Qed.

Lemma duplicate_ids_fatal_witness :
  (exists entries : odict entry,
     read_bibtex_entries doc_two_ids = Return entries /\
     map fst entries = [lit "a"; lit "b"]) /\
  (exists id : str,
     read_bibtex_entries doc_same_id =
     Exit (lit "Duplicate entry: " ++ id) /\
     2 <= count_occ (list_eq_dec ascii_dec) [lit "a"; lit "a"] id) /\
  process_bib_entry (lit "@article{a,")
    [(lit "a", {| type := lit "book"; fields := [] |})] =
  Exit (lit "Duplicate entry: a").
Proof.
  destruct duplicate_ids_fatal as (_ & H2 & H3).
  split; [|split].
  - apply (H3 doc_two_ids
             [lit "@book{a," ++ NL :: lit " title = {X}" ++ NL :: lit "}";
              lit "@article{b," ++ NL :: lit " title = {Y}" ++ NL :: lit "}"]).
    + reflexivity.
    + vm_compute. reflexivity.
    + cbv. constructor; [intros [H|[]]; discriminate|].
      constructor; [intros [] | constructor].
  - apply (H3 doc_same_id
             [lit "@book{a," ++ NL :: lit " title = {X}" ++ NL :: lit "}";
              lit "@article{a," ++ NL :: lit " title = {Y}" ++ NL :: lit "}"]).
    + reflexivity.
    + vm_compute. reflexivity.
    + cbv. intros N. inversion N as [|x l Hn _]. apply Hn. now left.
  - apply (H2 (lit "@article{a,") (lit "a")); reflexivity.
Defined.

(** ** The scan for the records *)



(** ** Writing and reading back *)

(** C1, as the specification states it, fails: the entry read from
    [doc_three_word_name] holds the author [J. van der Berg]; written by
    [entry2str] and read again, the author is [J. V. D. Berg].  So does
    the entry read from [doc_stray_brace], whose value is a closing brace:
    written and read again, the value is empty. *)
Lemma reread_changes_entry :
  (read_bibtex_entries doc_three_word_name =
   Return [(lit "k", entry_three_word_name)] /\
   read_bibtex_entries (entry2str (lit "k") entry_three_word_name) =
   Return [(lit "k",
            {| type := lit "book";
               fields := [(lit "author", lit "J. V. D. Berg")] |})] /\
   read_bibtex_entries (entry2str (lit "k") entry_three_word_name) <>
   Return [(lit "k", entry_three_word_name)]) /\
  (read_bibtex_entries doc_stray_brace =
   Return [(lit "u", entry_stray_brace)] /\
   read_bibtex_entries (entry2str (lit "u") entry_stray_brace) =
   Return [(lit "u", {| type := lit "misc"; fields := [(lit "k", [])] |})] /\
   read_bibtex_entries (entry2str (lit "u") entry_stray_brace) <>
   Return [(lit "u", entry_stray_brace)]).
Proof.
  split; (split; [|split]; [vm_compute; reflexivity ..|]);
    vm_compute; discriminate.
Qed.

(** C1, amended.  An entry of code points below 128 is read back from the
    text [entry2str] writes for it, with its id, its type and its fields in
    their order, when the type has no brace and no line feed and is
    stripped and in lower case;
    the id has no line feed, its braces nest, it starts with no white space
    and ends with no comma; the keys of the fields differ, and every field
    is plain: its key has no line feed and no [=], its braces nest, it is
    stripped and in lower case; the braces of its value nest, and the
    field parser stores the value as it is under the key. *)
Theorem reread_plain_entry (key : str) (e : entry) :
  isascii key = true -> isascii_entry e = true ->
  plain_entry key e ->
  read_bibtex_entries (entry2str key e) = Return [(key, e)].
Proof.
  intros _ _ He. assert (He' := He).
  destruct He' as ((Htb & _) & (Hkb & _) & _ & Hfs).
  rewrite entry2str_lines.
  set (r := type e ++ "{"%char ::
            (key ++ ","%char :: concat (map field_line (fields e)) ++ [NL])
            ++ ["}"%char]).
  assert (Erec : ("@"%char :: type e ++ "{"%char :: key ++ [","%char]) ++
                 concat (map field_line (fields e)) ++ [NL; "}"%char] =
                 "@"%char :: r) by (unfold r; now list_norm).
  assert (W := process_bib_entry_written key e He). rewrite Erec in W.
  match goal with |- read_bibtex_entries ?x = _ =>
    replace x with ([] ++ ("@"%char :: r) ++ [NL; NL])
      by (unfold r; now list_norm) end.
  unfold read_bibtex_entries.
  rewrite (read_loop_first_record process_bib_entry []
             ("@"%char :: r) [NL; NL] r []); [|reflexivity|reflexivity|].
  - rewrite W. cbn [bind].
    rewrite (read_loop_skip process_bib_entry [NL; NL] _ _ _ _ []).
    + apply read_loop_end; [lia|].
      cbn [app length]. rewrite length_app. cbn [length]. lia.
    + cbn [app length]. lia.
    + cbn [app length Nat.add].
      change ("@"%char :: r ++ [NL; NL]) with (("@"%char :: r) ++ [NL; NL]).
      apply skipn_app_at. reflexivity.
    + reflexivity.
  - unfold r. rewrite closing_offset_record.
    + f_equal. cbn [length]. repeat (rewrite !length_app; cbn [length]). lia.
    + exact Htb.
    + apply nests_app; [exact Hkb|].
      rewrite nests_other by reflexivity.
      apply nests_app; [now apply nests_lines | reflexivity].
Qed.

Lemma reread_plain_entry_witness :
  read_bibtex_entries (entry2str (lit "tolkien1937") entry_plain) =
  Return [(lit "tolkien1937", entry_plain)].
Proof.
  apply reread_plain_entry; [reflexivity | reflexivity |].
  unfold plain_entry, entry_plain.
  cbn [type fields].
  split; [repeat split; reflexivity|].
  split; [repeat split; reflexivity|].
  split.
  - cbn [map fst].
    repeat (constructor;
            [cbn; intros H;
             repeat (destruct H as [H|H]; [discriminate H|]); exact H|]).
    constructor.
  - repeat (constructor; [repeat split; reflexivity|]). constructor.
Defined.

(** * Further properties of the code *)

(** ** The value extractor: bare and quoted values *)

Lemma ev_run_bare (body : str) (st : ev_state) :
  forallb bare_char body = true ->
  ev_run body st =
  inl {| index := index st + length body; brace_level := brace_level st;
         in_quotes := in_quotes st; value := value st ++ body |}.
Proof.
  revert st. induction body as [|c body IH]; intros st H.
  - destruct st. cbn. now rewrite Nat.add_0_r, app_nil_r.
  - cbn [forallb] in H. apply andb_true_iff in H. destruct H as [Hc H].
    unfold bare_char in Hc. rewrite !andb_true_iff, !negb_true_iff in Hc.
    destruct Hc as (((H1 & H2) & H3) & H4).
    cbn [ev_run]. unfold ev_step. rewrite H1, H2, H3, H4. cbn [andb].
    rewrite IH by exact H. cbn [index brace_level in_quotes value length].
    f_equal. f_equal; [lia | now rewrite <- app_assoc].
Qed.

Lemma ev_run_quoted (q : str) (st : ev_state) :
  forallb quoted_char q = true -> in_quotes st = true ->
  ev_run q st =
  inl {| index := index st + length q; brace_level := brace_level st;
         in_quotes := true; value := value st ++ q |}.
Proof.
  revert st. induction q as [|c q IH]; intros st H Hq.
  - destruct st. cbn in *. subst. now rewrite Nat.add_0_r, app_nil_r.
  - cbn [forallb] in H. apply andb_true_iff in H. destruct H as [Hc H].
    unfold quoted_char in Hc. rewrite !andb_true_iff, !negb_true_iff in Hc.
    destruct Hc as ((H1 & H2) & H3).
    cbn [ev_run]. unfold ev_step. rewrite H1, H2, H3, Hq.
    cbn [negb]. rewrite andb_false_r.
    rewrite IH; [ | exact H | reflexivity ].
    cbn [index brace_level in_quotes value length].
    f_equal. f_equal; [lia | now rewrite <- app_assoc].
Qed.

Lemma ev_step_top_comma (st : ev_state) :
  brace_level st = 0%Z -> in_quotes st = false ->
  ev_step "," st = inr (value st, index st).
Proof. intros H1 H2. unfold ev_step. rewrite H1, H2. reflexivity. Qed.

(** X1.  A value without brace, double quote and comma is extracted as it
    is written: up to the comma that follows it, with the index of that
    comma, and up to the end of the text when no comma follows, with the
    length of the text. *)
Theorem extract_value_bare (pre body rest : str) :
  forallb bare_char body = true ->
  extract_value (pre ++ body ++ lit "," ++ rest) (length pre) =
  Return (body, length pre + length body) /\
  extract_value (pre ++ body) (length pre) =
  Return (body, length (pre ++ body)).
Proof.
  intros H. split.
  - rewrite extract_value_run, skipn_app_length, ev_run_app.
    rewrite ev_run_bare by exact H.
    cbn [lit list_ascii_of_string app ev_run ev_init index brace_level
         in_quotes value].
    reflexivity.
  - rewrite extract_value_run, skipn_app_length.
    rewrite ev_run_bare by exact H.
    cbn [ev_result ev_init index value app]. now rewrite length_app.
Qed.

Lemma extract_value_bare_witness :
  extract_value (lit "year = " ++ lit "1937" ++ lit "," ++ lit " x") 7 =
  Return (lit "1937", 7 + 4) /\
  extract_value (lit "year = " ++ lit "1937") 7 =
  Return (lit "1937", length (lit "year = " ++ lit "1937")).
Proof.
  apply (extract_value_bare (lit "year = ") (lit "1937") (lit " x")).
  reflexivity.
Defined.

(** X2.  A value in double quotes, with no brace and no further double
    quote between them, is extracted with its quotes: commas between the
    quotes do not end it, the comma behind the closing quote does. *)
Theorem extract_value_quoted (pre q rest : str) :
  forallb quoted_char q = true ->
  extract_value (pre ++ (DQUOTE :: q ++ [DQUOTE]) ++ lit "," ++ rest)
    (length pre) =
  Return (DQUOTE :: q ++ [DQUOTE], length pre + length q + 2).
Proof.
  intros H.
  rewrite extract_value_run, skipn_app_length.
  cbn [app ev_run]. rewrite ev_step_quote.
  rewrite <- app_assoc, ev_run_app.
  rewrite ev_run_quoted; [ | exact H | reflexivity ].
  cbn [app ev_run lit list_ascii_of_string]. rewrite ev_step_quote.
  rewrite ev_step_top_comma by reflexivity.
  cbn [ev_result index value ev_init app negb in_quotes].
  apply f_equal. apply f_equal2; [reflexivity | lia].
Qed.

Lemma extract_value_quoted_witness :
  extract_value
    (lit "t = " ++ (DQUOTE :: lit "a, b" ++ [DQUOTE]) ++ lit "," ++ lit " x")
    4 =
  Return (DQUOTE :: lit "a, b" ++ [DQUOTE], 4 + 4 + 2).
Proof.
  apply (extract_value_quoted (lit "t = ") (lit "a, b") (lit " x")).
  reflexivity.
Defined.

(** ** The value extractor: the value is a piece of the text *)

Lemma ev_step_inr_cases (c : ascii) (st : ev_state) (v : str) (i : nat) :
  ev_step c st = inr (v, i) ->
  i = index st /\
  ((c = "}"%char /\ v = strip_braces (value st ++ [c])) \/
   (c = ","%char /\ v = value st)).
Proof.
  unfold ev_step. intros H.
  destruct (Ascii.eqb_spec c "{"); [discriminate|].
  destruct (Ascii.eqb_spec c "}") as [->|].
  - destruct (brace_level st - 1 =? 0)%Z; inversion H; subst. auto.
  - destruct (Ascii.eqb c DQUOTE); [discriminate|].
    destruct (Ascii.eqb_spec c ",") as [->|]; [|discriminate].
    cbn [andb] in H.
    destruct ((brace_level st =? 0)%Z && negb (in_quotes st));
      inversion H; subst. auto.
Qed.

Lemma ev_run_inr_split (s : str) (st : ev_state) (v : str) (i : nat) :
  ev_run s st = inr (v, i) ->
  exists (a : str) (c : ascii) (b : str) (st' : ev_state),
    s = a ++ c :: b /\ ev_run a st = inl st' /\ ev_step c st' = inr (v, i).
Proof.
  revert st. induction s as [|c s IH]; intros st H; [discriminate|].
  cbn [ev_run] in H. destruct (ev_step c st) as [st1|r] eqn:E.
  - destruct (IH _ H) as (a & c' & b & st' & -> & Ha & Hc).
    exists (c :: a), c', b, st'. cbn [app ev_run]. rewrite E. auto.
  - inversion H; subst. exists [], c, s, st. auto.
Qed.

Lemma slice_app_mid {A} (pre a b : list A) :
  firstn (length a) (skipn (length pre) (pre ++ a ++ b)) = a.
Proof.
  rewrite skipn_app_length, firstn_app, firstn_all, Nat.sub_diag.
  cbn [firstn]. apply app_nil_r.
Qed.

(** X3.  The value [extract_value] returns is a piece of the text, cut
    between the start index and the returned index: the characters from the
    start up to the returned index, or up to and with the closing brace at
    the returned index, or between the opening brace at the start and the
    closing brace at the returned index. *)
Theorem extract_value_piece (text : str) (start_index : nat) (v : str)
  (i : nat) :
  start_index <= length text ->
  extract_value text start_index = Return (v, i) ->
  start_index <= i <= length text /\
  (v = slice text start_index i \/
   v = slice text start_index (i + 1) \/
   v = slice text (start_index + 1) i).
Proof.
  intros Hs H.
  destruct (extract_value_index text start_index) as (v' & i' & E & Hi).
  rewrite E in H. inversion H; subst v' i'. split; [lia|].
  rewrite extract_value_run in E. inversion E as [E']. clear E H.
  assert (T : text = firstn start_index text ++ skipn start_index text)
    by (symmetry; apply firstn_skipn).
  assert (L : length (firstn start_index text) = start_index)
    by (apply firstn_length_le; exact Hs).
  destruct (ev_run (skipn start_index text) (ev_init start_index))
    as [st|[v0 i0]] eqn:R; cbn [ev_result] in E'.
  - inversion E'; subst. left.
    destruct (ev_run_inl _ _ _ R) as [Hi' Hv]. cbn in Hi', Hv.
    rewrite Hv, Hi', length_skipn. unfold slice.
    replace (start_index + (length text - start_index) - start_index)
      with (length (skipn start_index text))
      by (rewrite length_skipn; lia).
    now rewrite firstn_all.
  - inversion E'; subst v0 i0.
    destruct (ev_run_inr_split _ _ _ _ R) as (a & c & b & st' & Sk & Ra & Rc).
    destruct (ev_run_inl _ _ _ Ra) as [Hi' Hv]. cbn in Hi', Hv.
    destruct (ev_step_inr_cases _ _ _ _ Rc) as [-> Hc].
    assert (Sa : slice text start_index (start_index + length a) = a).
    { unfold slice. rewrite Sk.
      replace (start_index + length a - start_index) with (length a) by lia.
      rewrite firstn_app, firstn_all, Nat.sub_diag. cbn [firstn].
      apply app_nil_r. }
    assert (Sac : slice text start_index (start_index + length a + 1) =
                  a ++ [c]).
    { unfold slice. rewrite Sk.
      replace (start_index + length a + 1 - start_index)
        with (length (a ++ [c])) by (rewrite length_app; simpl; lia).
      change (a ++ c :: b) with (a ++ [c] ++ b). rewrite app_assoc.
      rewrite firstn_app, firstn_all, Nat.sub_diag. cbn [firstn].
      apply app_nil_r. }
    rewrite Hi'. destruct Hc as [[-> ->]|[-> ->]].
    + rewrite Hv. unfold strip_braces.
      destruct (startswith (lit "{") (a ++ ["}"%char]) &&
                endswith (lit "}") (a ++ ["}"%char])) eqn:B.
      * right. right. apply andb_true_iff in B. destruct B as [B _].
        destruct a as [|c0 a]; [discriminate|].
        cbn [app lit list_ascii_of_string startswith] in B.
        rewrite andb_true_r in B. apply Ascii.eqb_eq in B.
        subst c0. unfold slice_1_m1. cbn [app tl].
        rewrite removelast_last. unfold slice.
        rewrite Nat.add_1_r, skipn_succ_tl, Sk. cbn [app tl length].
        replace (start_index + S (length a) - S start_index)
          with (length a) by lia.
        rewrite firstn_app, firstn_all, Nat.sub_diag. cbn [firstn].
        now rewrite app_nil_r.
      * right. left. now rewrite Sac.
    + left. now rewrite Hv, Sa.
Qed.

Lemma extract_value_piece_witness :
  4 <= 12 <= length (lit "k = {a {b} c}, x") /\
  (lit "a {b} c" = slice (lit "k = {a {b} c}, x") 4 12 \/
   lit "a {b} c" = slice (lit "k = {a {b} c}, x") 4 (12 + 1) \/
   lit "a {b} c" = slice (lit "k = {a {b} c}, x") (4 + 1) 12).
Proof.
  apply (extract_value_piece (lit "k = {a {b} c}, x") 4 (lit "a {b} c") 12);
    [simpl; lia | reflexivity].
Defined.

(** ** The field parser: texts without [=], and the keys it stores *)

(** X4.  A field text without [=], the empty text among them, has no
    field. *)
Theorem parse_fields_no_equals (field_text : str) :
  contains "=" field_text = false -> parse_fields field_text = Return [].
Proof.
  intros H. unfold parse_fields.
  rewrite (pf_loop_skip field_text _ field_text 0 [] []);
    [ | lia | now rewrite app_nil_r | exact H ].
  apply pf_loop_end; lia.
Qed.

Lemma parse_fields_no_equals_witness :
  parse_fields (lit "a comment, {braces} and no equals sign") = Return [].
Proof. apply parse_fields_no_equals. reflexivity. Defined.

Lemma lower_char_idem (c : ascii) : lower_char (lower_char c) = lower_char c.
Proof. destruct c as [[] [] [] [] [] [] [] []]; reflexivity. Qed.

Lemma isspace_lower_char (c : ascii) : isspace (lower_char c) = isspace c.
Proof. destruct c as [[] [] [] [] [] [] [] []]; reflexivity. Qed.

Lemma lower_char_NL (c : ascii) :
  Ascii.eqb NL (lower_char c) = Ascii.eqb NL c.
Proof. destruct c as [[] [] [] [] [] [] [] []]; reflexivity. Qed.

Lemma lower_idem (s : str) : lower (lower s) = lower s.
Proof.
  unfold lower. rewrite map_map. apply map_ext. apply lower_char_idem.
Qed.

Lemma dropwhile_map (p : ascii -> bool) (f : ascii -> ascii) (s : str) :
  (forall c, p (f c) = p c) ->
  dropwhile p (map f s) = map f (dropwhile p s).
Proof.
  intros H. induction s as [|c s IH]; [reflexivity|].
  cbn [map dropwhile]. rewrite H. now destruct (p c).
Qed.

Lemma strip_lower (s : str) : strip (lower s) = lower (strip s).
Proof.
  unfold strip, lstrip, rstrip, lower.
  rewrite dropwhile_map by apply isspace_lower_char.
  rewrite <- map_rev, dropwhile_map by apply isspace_lower_char.
  now rewrite map_rev.
Qed.

Lemma dropwhile_idem (p : ascii -> bool) (s : str) :
  dropwhile p (dropwhile p s) = dropwhile p s.
Proof.
  induction s as [|c s IH]; [reflexivity|]. cbn [dropwhile].
  destruct (p c) eqn:E; [exact IH|]. cbn [dropwhile]. now rewrite E.
Qed.

Lemma dropwhile_head (p : ascii -> bool) (s : str) (c : ascii) (r : str) :
  dropwhile p s = c :: r -> p c = false.
Proof.
  induction s as [|d s IH]; [discriminate|]. cbn [dropwhile].
  destruct (p d) eqn:E; [exact IH|]. intros H. inversion H; subst. exact E.
Qed.

Lemma strip_idem (s : str) : strip (strip s) = strip s.
Proof.
  unfold strip at 1 2. unfold lstrip.
  assert (L : dropwhile isspace (rstrip (dropwhile isspace s)) =
              rstrip (dropwhile isspace s)).
  { destruct (dropwhile isspace s) as [|c r] eqn:D; [reflexivity|].
    apply dropwhile_head in D. unfold rstrip. cbn [rev].
    rewrite dropwhile_app_stop by exact D. rewrite rev_app_distr.
    cbn [rev app]. now rewrite dropwhile_stop. }
  rewrite L. unfold rstrip. now rewrite rev_involutive, dropwhile_idem.
Qed.

Lemma contains_dropwhile (c : ascii) (p : ascii -> bool) (s : str) :
  contains c s = false -> contains c (dropwhile p s) = false.
Proof.
  unfold contains. induction s as [|d s IH]; [reflexivity|].
  cbn [existsb dropwhile]. intros H. apply orb_false_iff in H.
  destruct H as [H1 H2]. destruct (p d); [now apply IH|].
  cbn [existsb]. now rewrite H1, H2.
Qed.

Lemma contains_strip (c : ascii) (s : str) :
  contains c s = false -> contains c (strip s) = false.
Proof.
  intros H. unfold strip, rstrip, lstrip.
  rewrite contains_rev. apply contains_dropwhile.
  rewrite contains_rev. now apply contains_dropwhile.
Qed.

Lemma contains_NL_lower (s : str) : contains NL (lower s) = contains NL s.
Proof.
  unfold contains, lower. induction s as [|c s IH]; [reflexivity|].
  cbn [map existsb]. now rewrite lower_char_NL, IH.
Qed.

(** [find_last] returns what it was given when the character is not there,
    and else an index behind which the character is not. *)
Lemma find_last_spec (c : ascii) (s : str) (a : nat) (found : Z) :
  (found < Z.of_nat a)%Z ->
  (find_last c s a found = found /\ contains c s = false) \/
  ((Z.of_nat a <= find_last c s a found)%Z /\
   contains c (skipn (Z.to_nat (find_last c s a found) + 1 - a) s) = false).
Proof.
  revert a found. induction s as [|d s IH]; intros a found Hf.
  - left. auto.
  - cbn [find_last].
    destruct (Ascii.eqb_spec d c) as [->|N].
    + right. destruct (IH (S a) (Z.of_nat a)) as [[E Hc]|[Hle Hc]]; [lia| |].
      * rewrite E. split; [lia|].
        replace (Z.to_nat (Z.of_nat a) + 1 - a) with 1 by lia. exact Hc.
      * split; [lia|].
        replace (Z.to_nat (find_last c s (S a) (Z.of_nat a)) + 1 - a)
          with (S (Z.to_nat (find_last c s (S a) (Z.of_nat a)) + 1 - S a))
          by lia.
        exact Hc.
    + destruct (IH (S a) found) as [[E Hc]|[Hle Hc]]; [lia| |].
      * left. split; [exact E|]. unfold contains in *. cbn [existsb].
        rewrite Hc, orb_false_r. apply Ascii.eqb_neq. congruence.
      * right. split; [lia|].
        replace (Z.to_nat (find_last c s (S a) found) + 1 - a)
          with (S (Z.to_nat (find_last c s (S a) found) + 1 - S a)) by lia.
        exact Hc.
Qed.

(** The text taken for the key holds no line feed. *)
Lemma key_slice_no_NL (text : str) (i : nat) :
  contains NL (slice text (Z.to_nat (rfind NL text 0 i + 1)) i) = false.
Proof.
  unfold rfind. unfold slice at 2. cbn [skipn]. rewrite Nat.sub_0_r.
  destruct (find_last_spec NL (firstn i text) 0 (-1)) as [[E Hc]|[Hle Hc]];
    [lia| |].
  - rewrite E. cbn. unfold slice. cbn [skipn]. now rewrite Nat.sub_0_r.
  - set (r := find_last NL (firstn i text) 0 (-1)) in *.
    rewrite Nat.sub_0_r in Hc. rewrite skipn_firstn_comm in Hc.
    unfold slice. replace (Z.to_nat (r + 1)) with (Z.to_nat r + 1) by lia.
    exact Hc.
Qed.

Lemma od_set_keys {V} (d : odict V) (k : str) (v : V) :
  map fst (od_set d k v) =
  if od_mem d k then map fst d else map fst d ++ [k].
Proof.
  unfold od_mem. induction d as [|[k' v'] d IH]; [reflexivity|].
  cbn [od_set existsb map fst]. destruct (str_eqb k' k) eqn:E.
  - reflexivity.
  - cbn [map fst orb]. rewrite IH.
    now destruct (existsb (fun kv => str_eqb (fst kv) k) d).
Qed.

Lemma od_set_keys_ok {V} (P : str -> Prop) (d : odict V) (k : str) (v : V) :
  NoDup (map fst d) -> Forall P (map fst d) -> P k ->
  NoDup (map fst (od_set d k v)) /\ Forall P (map fst (od_set d k v)).
Proof.
  intros N F Pk. rewrite od_set_keys. destruct (od_mem d k) eqn:M.
  - auto.
  - split.
    + apply NoDup_app; [exact N | repeat constructor; intros [] |].
      intros x Hx [<-|[]]. apply od_mem_in in Hx. congruence.
    + apply Forall_app. split; [exact F | now constructor].
Qed.

Lemma stored_key_lower_strip (s : str) :
  contains NL s = false -> stored_key (lower (lower (strip s))).
Proof.
  intros H. rewrite lower_idem. unfold stored_key.
  rewrite lower_idem, strip_lower, strip_idem, contains_NL_lower.
  repeat split. now apply contains_strip.
Qed.

Lemma pf_loop_keys (fuel : nat) (text : str) (i : nat)
  (fields r : odict str) :
  pf_loop fuel text i fields = Return r ->
  NoDup (map fst fields) -> Forall stored_key (map fst fields) ->
  NoDup (map fst r) /\ Forall stored_key (map fst r).
Proof.
  revert i fields. induction fuel as [|fuel IH]; intros i fields H N F;
    [discriminate|].
  cbn [pf_loop] in H.
  destruct (i <? length text); [|inversion H; subst; auto].
  destruct (getitem text i) as [c| | |]; cbn [bind] in H; try discriminate.
  destruct (Ascii.eqb c "="); [|exact (IH _ _ H N F)].
  destruct (skip_loop (S (length text)) text (i + 1)) as [j| | |];
    cbn [bind] in H; try discriminate.
  destruct (extract_value text j) as [[v i']| | |]; cbn [bind] in H;
    try discriminate.
  match type of H with context [normalize_value ?k v] =>
    destruct (normalize_value k v) as [w| | |] end;
    cbn [bind] in H; try discriminate.
  match type of H with context [od_set fields ?k w] =>
    destruct (od_set_keys_ok stored_key fields k w N F) as [N' F'] end.
  { apply stored_key_lower_strip, key_slice_no_NL. }
  exact (IH _ _ H N' F').
Qed.

(** X5.  The keys of the fields [parse_fields] returns differ from each
    other, and each is in lower case, stripped and without a line feed. *)
Theorem parse_fields_keys (field_text : str) (fields : odict str) :
  parse_fields field_text = Return fields ->
  NoDup (map fst fields) /\ Forall stored_key (map fst fields).
Proof.
  intros H. apply (pf_loop_keys _ _ _ _ _ H); constructor.
Qed.

Lemma parse_fields_keys_witness :
  NoDup (map fst [(lit "title", lit "B"); (lit "year", lit "1")]) /\
  Forall stored_key (map fst [(lit "title", lit "B"); (lit "year", lit "1")]).
Proof.
  apply (parse_fields_keys
           (lit " Title = {A}," ++ NL :: lit "YEAR = 1," ++ NL ::
            lit "title = {B}")).
  vm_compute. reflexivity.
Defined.

(** ** The field parser: a key that comes twice *)

Lemma parse_fields_block (fs : list (str * str)) :
  Forall plain_field fs ->
  parse_fields (field_block fs) = Return (od_update [] fs).
Proof.
  intros Hfs. unfold field_block. destruct fs as [|[k v] more].
  - vm_compute. reflexivity.
  - inversion Hfs as [|x xs Hkv Hmore]; subst x xs.
    assert (Hkv' := Hkv).
    destruct Hkv' as (_ & Hnl & Heq & Hs & _). cbn [fst snd] in *.
    set (l0 := dropwhile isspace (TAB :: k ++ [" "%char])).
    assert (Hl0 : contains "=" l0 = false /\ contains NL l0 = false /\
                  strip l0 = k).
    { unfold l0. destruct (strip_fixed k Hs) as [->|(c & k' & -> & Hc & _)].
      - repeat split; reflexivity.
      - cbn [dropwhile app]. change (isspace TAB) with true. cbn iota.
        rewrite Hc.
        change (c :: k' ++ [" "%char]) with ((c :: k') ++ [" "%char]).
        rewrite !contains_app, Heq, Hnl. repeat split.
        apply (strip_padded [] (c :: k') [" "%char]); auto. }
    destruct Hl0 as (Hl0eq & Hl0nl & Hl0s).
    assert (E : strip (tl (concat (map field_line ((k, v) :: more)) ++
                           [NL; "}"%char])) =
                l0 ++ "="%char :: " "%char :: "{"%char :: v ++
                "}"%char :: block_rest more).
    { cbn [map concat]. unfold field_line at 1. cbn [fst snd app tl].
      match goal with |- strip ?x = _ =>
        replace x
          with ((TAB :: k ++ [" "%char]) ++ "="%char :: " "%char ::
                "{"%char :: v ++ "}"%char :: block_rest more)
          by (unfold block_rest; now list_norm) end.
      unfold strip, lstrip. rewrite dropwhile_app_stop by reflexivity.
      fold l0.
      match goal with |- rstrip ?x = _ =>
        replace x
          with ((l0 ++ "="%char :: " "%char :: "{"%char :: v ++ "}"%char ::
                 ","%char :: concat (map field_line more) ++ [NL]) ++
                ["}"%char])
          by (unfold block_rest; now list_norm) end.
      rewrite rstrip_last by reflexivity.
      unfold block_rest. now list_norm. }
    rewrite E. unfold parse_fields. clear E. clearbody l0.
    rewrite (pf_loop_block more _ [] l0 [] l0 k v []);
      try assumption; try reflexivity.
    + cbn [length app]. unfold str. lia.
    + now left.
Qed.

Lemma od_get_od_set {V} (d : odict V) (k k' : str) (v : V) :
  od_get (od_set d k v) k' =
  if str_eqb k k' then Some v else od_get d k'.
Proof.
  unfold od_get. induction d as [|[k0 v0] d IH].
  - cbn [od_set find fst snd]. now destruct (str_eqb k k').
  - cbn [od_set]. destruct (str_eqb k0 k) eqn:E.
    + apply str_eqb_eq in E. subst k0. cbn [find fst snd].
      now destruct (str_eqb k k').
    + cbn [find fst snd]. destruct (str_eqb k0 k') eqn:E'.
      * apply str_eqb_eq in E'. subst k0.
        rewrite str_eqb_neq in E.
        destruct (str_eqb k k') eqn:E2; [|reflexivity].
        apply str_eqb_eq in E2. congruence.
      * exact IH.
Qed.

Lemma od_update_snoc {V} (d fs : odict V) (k : str) (v : V) :
  od_update d (fs ++ [(k, v)]) = od_set (od_update d fs) k v.
Proof. unfold od_update. now rewrite fold_left_app. Qed.

(** The keys after an update of the empty dictionary: the keys of the
    pairs at their first places. *)
Lemma od_update_keys (fs : list (str * str)) :
  map fst (od_update [] fs) =
  rev (nodup (list_eq_dec ascii_dec) (rev (map fst fs))).
Proof.
  induction fs as [|[k v] fs IH] using rev_ind; [reflexivity|].
  rewrite od_update_snoc, od_set_keys, map_app, rev_app_distr.
  cbn [map fst rev app nodup].
  destruct (in_dec (list_eq_dec ascii_dec) k (rev (map fst fs))) as [I|I].
  - assert (M : od_mem (od_update [] fs) k = true).
    { apply od_mem_in. rewrite IH. rewrite <- in_rev.
      now apply nodup_In. }
    now rewrite M.
  - assert (M : od_mem (od_update [] fs) k = false).
    { destruct (od_mem (od_update [] fs) k) eqn:M; [|reflexivity].
      apply od_mem_in in M. rewrite IH in M. rewrite <- in_rev in M.
      apply nodup_In in M. contradiction. }
    rewrite M. cbn [rev]. now rewrite IH.
Qed.

Lemma od_update_get (fs : list (str * str)) (k : str) :
  od_get (od_update [] fs) k = od_get (rev fs) k.
Proof.
  induction fs as [|[k0 v0] fs IH] using rev_ind; [reflexivity|].
  rewrite od_update_snoc, od_get_od_set, rev_app_distr, IH.
  cbn [rev app]. unfold od_get at 2. cbn [find fst snd].
  now destruct (str_eqb k0 k).
Qed.

(** X6.  For lines [key = {value},] of code points below 128, one field
    each, with plain keys and values (a key stripped, in lower case,
    without line feed and [=], braces that nest, a value that the parser
    stores as it is): when a key comes in several lines, [parse_fields]
    stores it once, at the place of its first line and with the value of
    its last line; the keys that come once keep their order around it. *)
Theorem parse_fields_repeated_key (fs : list (str * str)) :
  isascii_fields fs = true ->
  Forall plain_field fs ->
  exists fields : odict str,
    parse_fields (field_block fs) = Return fields /\
    map fst fields = rev (nodup (list_eq_dec ascii_dec) (rev (map fst fs))) /\
    forall k : str, od_get fields k = od_get (rev fs) k.
Proof.
  intros _ H. exists (od_update [] fs).
  split; [now apply parse_fields_block|].
  split; [apply od_update_keys | apply od_update_get].
Qed.

Lemma parse_fields_repeated_key_witness :
  exists fields : odict str,
    parse_fields
      (field_block [(lit "title", lit "A"); (lit "year", lit "1937");
                    (lit "title", lit "B")]) = Return fields /\
    map fst fields = [lit "title"; lit "year"] /\
    forall k : str,
      od_get fields k =
      od_get [(lit "title", lit "B"); (lit "year", lit "1937");
              (lit "title", lit "A")] k.
Proof.
  apply (parse_fields_repeated_key
           [(lit "title", lit "A"); (lit "year", lit "1937");
            (lit "title", lit "B")]); [reflexivity|].
  repeat (constructor; [repeat split; reflexivity|]). constructor.
Defined.

(** ** The scan for the records: what lies around a record *)

Section ReadLoopShift.

Context {A : Type}.
Variable process : str -> A -> outcome A.

(** The scan of a text behind a prefix is the scan of the text. *)
Lemma read_loop_shift (pre : str) (fuel : nat) (content : str) (i : nat)
  (entries : A) :
  length content - i < fuel ->
  read_loop process fuel (pre ++ content) (length pre + i) entries =
  read_loop process fuel content i entries.
Proof.
  revert i entries. induction fuel as [|fuel IH]; intros i entries Hf; [lia|].
  cbn [read_loop]. rewrite length_app.
  assert (Sk : skipn (length pre + i) (pre ++ content) = skipn i content).
  { rewrite skipn_app, skipn_all2 by lia.
    replace (length pre + i - length pre) with i by lia. reflexivity. }
  destruct (Nat.ltb_spec i (length content)) as [L|L].
  - destruct (Nat.ltb_spec (length pre + i) (length pre + length content));
      [|lia].
    destruct (skipn i content) as [|c r] eqn:Ski.
    { apply skipn_nil_at in Ski. lia. }
    rewrite (getitem_at _ _ _ _ Sk), (getitem_at _ _ _ _ Ski). cbn [bind].
    destruct (Ascii.eqb c "@").
    + rewrite !entry_loop_closing by (rewrite ?length_app; lia).
      rewrite Sk, Ski.
      destruct (closing_offset (c :: r) 0) as [k|] eqn:C.
      * assert (Hk := closing_offset_bound _ _ _ C).
        rewrite <- Ski, length_skipn in Hk.
        assert (Sl : slice (pre ++ content) (length pre + i)
                       (length pre + i + k + 1) =
                     slice content i (i + k + 1)).
        { unfold slice. rewrite Sk, Ski. f_equal. lia. }
        rewrite Sl.
        destruct (process (slice content i (i + k + 1)) entries);
          cbn [bind]; try reflexivity.
        replace (length pre + i + k + 1) with (length pre + (i + k + 1))
          by lia.
        apply IH. lia.
      * cbn [bind]. rewrite length_app.
        replace (Nat.max (length pre + i) (length pre + length content) + 1)
          with (length pre + (Nat.max i (length content) + 1)) by lia.
        apply IH. lia.
    + replace (length pre + i + 1) with (length pre + (i + 1)) by lia.
      apply IH. lia.
  - destruct (Nat.ltb_spec (length pre + i) (length pre + length content));
      [lia | reflexivity].
Qed.

(** The text before the first [@] does not count. *)
Lemma read_loop_leading (pre content : str) (entries : A) :
  contains "@" pre = false ->
  read_loop process (S (length (pre ++ content))) (pre ++ content) 0 entries =
  read_loop process (S (length content)) content 0 entries.
Proof.
  intros H.
  rewrite (read_loop_skip process pre _ _ 0 entries content);
    [ | lia | reflexivity | exact H ].
  cbn [Nat.add]. rewrite <- (Nat.add_0_r (length pre)).
  rewrite read_loop_shift by (rewrite length_app; lia).
  apply read_loop_fuel; rewrite ?length_app; lia.
Qed.

(** A record that closes at its last character is handed to the handler,
    and the scan goes on with the text behind it. *)
Lemma read_loop_record (pre rec rest r : str) (entries : A) :
  contains "@" pre = false ->
  rec = "@"%char :: r ->
  closing_offset (rec ++ rest) 0 = Some (length r) ->
  read_loop process (S (length (pre ++ rec ++ rest))) (pre ++ rec ++ rest)
    0 entries =
  (entries' <- process rec entries ;;
   read_loop process (S (length rest)) rest 0 entries').
Proof.
  intros Hpre Hrec C.
  rewrite (read_loop_first_record process pre rec rest r entries Hpre Hrec C).
  destruct (process rec entries) as [e'| | |]; cbn [bind]; try reflexivity.
  rewrite app_assoc.
  replace (length pre + length rec) with (length (pre ++ rec) + 0)
    by (rewrite length_app; lia).
  rewrite read_loop_shift by (rewrite length_app; lia).
  apply read_loop_fuel; rewrite ?length_app; lia.
Qed.

(** A record that never closes: the scan runs to the end of the text and
    the handler is not called. *)
Lemma read_loop_unclosed (pre r : str) (entries : A) :
  contains "@" pre = false ->
  closing_offset ("@"%char :: r) 0 = None ->
  read_loop process (S (length (pre ++ "@"%char :: r)))
    (pre ++ "@"%char :: r) 0 entries = Return entries.
Proof.
  intros Hpre C.
  rewrite (read_loop_skip process pre _ _ 0 entries ("@"%char :: r));
    [ | lia | reflexivity | exact Hpre ].
  cbn [Nat.add].
  assert (Sk : skipn (length pre) (pre ++ "@"%char :: r) = "@"%char :: r)
    by apply skipn_app_length.
  destruct (skipn_cons_at _ _ _ _ Sk) as (_ & _ & L).
  cbn [read_loop].
  destruct (Nat.ltb_spec (length pre) (length (pre ++ "@"%char :: r)));
    [|lia].
  rewrite (getitem_at _ _ _ _ Sk). cbn [bind Ascii.eqb Bool.eqb].
  rewrite entry_loop_closing by lia. rewrite Sk, C. cbn [bind].
  apply read_loop_end; lia.
Qed.

End ReadLoopShift.

(** ** One record, apart from the collection *)

Lemma process_bib_entry_read_record (entry_text : str)
  (entries : odict entry) :
  process_bib_entry entry_text entries =
  (r <- read_record entry_text ;;
   match r with
   | None => Return entries
   | Some (id, e) =>
       if od_mem entries id
       then Exit (lit "Duplicate entry: " ++ id)
       else Return (od_set entries id e)
   end).
Proof.
  unfold process_bib_entry, read_record.
  destruct (first_item (split NL entry_text)) as [header| | |];
    cbn [bind]; try reflexivity.
  destruct (contains "{" (strip header)); cbn [negb bind]; [|reflexivity].
  destruct (unpack2 (split1 "{" (strip header))) as [[a b]| | |];
    cbn [bind]; try reflexivity.
  destruct (parse_fields
              (strip (join [NL] (skipn 1 (split NL entry_text)))));
    reflexivity.
Qed.

Lemma read_record_returns (entry_text : str) :
  exists r, read_record entry_text = Return r.
Proof.
  unfold read_record, split.
  destruct (split_aux_cons NL entry_text []) as (header & rest & ->).
  cbn [first_item bind].
  destruct (contains "{" (strip header)) eqn:C; cbn [negb]; [|eauto].
  destruct (split1_found _ _ C) as (a & b & ->). cbn [unpack2 bind].
  destruct (parse_fields_returns
              (strip (join [NL] (skipn 1 (header :: rest))))) as [fd ->].
  cbn [bind]. eauto.
Qed.

(** X7.  The text before the first [@] of a document does not count: the
    document is read as the text from that [@] on, and a document
    without [@] has no entry. *)
Theorem read_ignores_leading_text (pre content : str) :
  contains "@" pre = false ->
  read_bibtex_entries (pre ++ content) = read_bibtex_entries content /\
  read_bibtex_entries pre = Return [].
Proof.
  intros H. unfold read_bibtex_entries. split.
  - now apply read_loop_leading.
  - rewrite <- (app_nil_r pre) at 1 2. now rewrite read_loop_leading.
Qed.

Lemma read_ignores_leading_text_witness :
  read_bibtex_entries (lit "% my references " ++ lit "@book{k, a = 1}") =
  read_bibtex_entries (lit "@book{k, a = 1}") /\
  read_bibtex_entries (lit "% my references ") = Return [].
Proof.
  apply (read_ignores_leading_text (lit "% my references ")
           (lit "@book{k, a = 1}")).
  reflexivity.
Defined.

Lemma closing_offset_unclosed (head body : str) :
  brace_free head = true -> nests body 0 = true ->
  closing_offset ("@"%char :: head ++ "{"%char :: body) 0 = None.
Proof.
  intros Hh Hb.
  change ("@"%char :: head ++ "{"%char :: body)
    with (("@"%char :: head) ++ "{"%char :: body).
  rewrite closing_offset_free.
  2:{ change ("@"%char :: head) with (["@"%char] ++ head).
      rewrite brace_free_app, Hh. reflexivity. }
  cbn [closing_offset Ascii.eqb Bool.eqb].
  rewrite <- (app_nil_r body).
  rewrite (closing_offset_nests body [] 0) by (assumption || lia).
  reflexivity.
Qed.

(** X8.  A record whose brace is never closed gives no entry, and nothing
    behind its [@] is read: when from the first [@] on no closing brace
    brings the count of the braces back to 0, the document has no entry,
    whatever records that text holds. *)
Theorem read_unclosed_record (pre r : str) :
  contains "@" pre = false ->
  closing_offset ("@"%char :: r) 0 = None ->
  read_bibtex_entries (pre ++ "@"%char :: r) = Return [].
Proof.
  intros Hpre C. unfold read_bibtex_entries.
  apply read_loop_unclosed; assumption.
Qed.

Lemma read_unclosed_record_witness :
  read_bibtex_entries
    (lit "% books " ++ "@"%char ::
     lit "book{k, title = {x  @misc{m, year = {1}}") = Return [].
Proof.
  apply (read_unclosed_record (lit "% books ")
           (lit "book{k, title = {x  @misc{m, year = {1}}")); reflexivity.
Defined.

Lemma process_bib_entry_no_brace (head rest : str) (entries : odict entry) :
  contains NL head = false -> contains "{" (strip head) = false ->
  process_bib_entry (head ++ NL :: rest) entries = Return entries.
Proof.
  intros Hn Hb. unfold process_bib_entry.
  rewrite (split_first NL head rest Hn). cbn [first_item bind].
  now rewrite Hb.
Qed.

(** X9.  A record whose first line holds no brace is dropped without a
    word, with all that stands before its closing brace: the scan takes
    the text from the [@] to the brace that closes the first opened one as
    a record, and the entry parser stores nothing for it; the document is
    read as the text behind it.  So an [@] in a line of its own takes the
    record that follows with it. *)
Theorem read_drops_record_without_header_brace
  (pre head more body rest : str) :
  contains "@" pre = false ->
  brace_free head = true -> contains NL head = false ->
  brace_free more = true -> nests body 0 = true ->
  read_bibtex_entries
    (pre ++
     ("@"%char :: (head ++ NL :: more) ++ "{"%char :: body ++ ["}"%char])
     ++ rest) =
  read_bibtex_entries rest.
Proof.
  intros Hpre Hh Hn Hm Hb. unfold read_bibtex_entries.
  assert (Hh' : brace_free (head ++ NL :: more) = true).
  { change (NL :: more) with ([NL] ++ more).
    rewrite !brace_free_app, Hh, Hm. reflexivity. }
  rewrite (read_loop_record process_bib_entry pre _ rest
             ((head ++ NL :: more) ++ "{"%char :: body ++ ["}"%char]) []
             Hpre eq_refl).
  - replace ("@"%char :: (head ++ NL :: more) ++ "{"%char :: body ++
             ["}"%char])
      with (("@"%char :: head) ++ NL :: more ++ "{"%char :: body ++
            ["}"%char])
      by (now list_norm).
    rewrite process_bib_entry_no_brace; [reflexivity | | ].
    + change ("@"%char :: head) with (["@"%char] ++ head).
      now rewrite contains_app, Hn.
    + apply contains_strip.
      change ("@"%char :: head) with (["@"%char] ++ head).
      rewrite contains_app.
      destruct (brace_free_contains head Hh) as [-> _]. reflexivity.
  - rewrite closing_offset_record by assumption.
    f_equal. cbn [length]. repeat (rewrite !length_app; cbn [length]). lia.
Qed.

Lemma read_drops_record_without_header_brace_witness :
  read_bibtex_entries
    (lit "% " ++
     ("@"%char :: (lit " my books" ++ NL :: lit "@book") ++ "{"%char ::
      lit "k," ++ NL :: lit " a = {1}," ++ NL :: [] ++ ["}"%char]) ++
     lit " @misc{m, b = 2}") =
  read_bibtex_entries (lit " @misc{m, b = 2}").
Proof.
  apply (read_drops_record_without_header_brace (lit "% ") (lit " my books")
           (lit "@book") (lit "k," ++ NL :: lit " a = {1}," ++ NL :: [])
           (lit " @misc{m, b = 2}")); reflexivity.
Defined.

(** ** Documents, record by record *)

Lemma process_all_extends (texts : list str) (acc r : odict entry) :
  process_all process_bib_entry texts acc = Return r ->
  exists es, r = acc ++ es.
Proof.
  revert acc. induction texts as [|t texts IH]; intros acc H;
    cbn [process_all] in H.
  - inversion H. exists []. now rewrite app_nil_r.
  - destruct (process_bib_entry t acc) as [acc'| | |] eqn:E;
      cbn [bind] in H; try discriminate.
    destruct (IH _ H) as [es ->].
    destruct (process_bib_entry_keeps _ _ _ E) as [->|(id & e & _ & ->)].
    + now exists es.
    + exists ((id, e) :: es). now rewrite <- app_assoc.
Qed.

(** The records of a text give the same entries behind a collection whose
    ids they do not hold. *)
Lemma process_all_behind (texts : list str) :
  forall (acc es init : odict entry),
    process_all process_bib_entry texts acc = Return (acc ++ es) ->
    (forall id, In id (map fst init) -> ~ In id (map fst es)) ->
    process_all process_bib_entry texts (init ++ acc) =
    Return (init ++ acc ++ es).
Proof.
  induction texts as [|t texts IH]; intros acc es init H D;
    cbn [process_all] in *.
  - inversion H as [E]. rewrite <- (app_nil_r acc) in E at 1.
    apply app_inv_head in E. subst es. now rewrite !app_nil_r.
  - rewrite process_bib_entry_read_record in *.
    destruct (read_record t) as [[[id e]|]| | |]; cbn [bind] in *;
      try discriminate.
    + destruct (od_mem acc id) eqn:M; [discriminate|].
      rewrite od_set_fresh in H by exact M.
      destruct (process_all_extends _ _ _ H) as [es' E].
      rewrite <- app_assoc in E. apply app_inv_head in E. subst es.
      assert (M' : od_mem (init ++ acc) id = false).
      { destruct (od_mem (init ++ acc) id) eqn:M'; [|reflexivity].
        apply od_mem_in in M'. rewrite map_app in M'.
        apply in_app_or in M'. destruct M' as [I|I].
        - exfalso. apply (D id I). now left.
        - apply od_mem_in in I. congruence. }
      rewrite M', od_set_fresh by exact M'.
      rewrite <- app_assoc.
      replace (init ++ acc ++ [(id, e)] ++ es')
        with (init ++ (acc ++ [(id, e)]) ++ es')
        by (now rewrite <- !app_assoc).
      apply IH.
      * rewrite <- app_assoc. exact H.
      * intros id' I I'. apply (D id' I). now right.
    + now apply IH.
Qed.

(** X10.  A document is read record by record: behind text without [@],
    a record whose header has no brace and whose braces nest gives what
    [process_bib_entry] makes of it, and the entries of the text behind
    the record follow, when their ids differ from the id of the record. *)
Theorem read_record_then_rest (pre head body rest : str)
  (first es : odict entry) :
  contains "@" pre = false ->
  brace_free head = true -> nests body 0 = true ->
  process_bib_entry ("@"%char :: head ++ "{"%char :: body ++ ["}"%char]) [] =
  Return first ->
  read_bibtex_entries rest = Return es ->
  (forall id, In id (map fst first) -> ~ In id (map fst es)) ->
  read_bibtex_entries
    (pre ++ ("@"%char :: head ++ "{"%char :: body ++ ["}"%char]) ++ rest) =
  Return (first ++ es).
Proof.
  intros Hpre Hh Hb Hfirst Hrest D. unfold read_bibtex_entries in *.
  rewrite (read_loop_record process_bib_entry pre _ rest
             (head ++ "{"%char :: body ++ ["}"%char]) [] Hpre eq_refl).
  - rewrite Hfirst. cbn [bind].
    destruct (read_loop_records rest) as (texts & _ & Ht).
    rewrite Ht in *.
    assert (P := process_all_behind texts [] es first Hrest D).
    now rewrite app_nil_r in P.
  - rewrite closing_offset_record by assumption.
    f_equal. cbn [length]. repeat (rewrite !length_app; cbn [length]). lia.
Qed.

Lemma read_record_then_rest_witness :
  read_bibtex_entries
    (lit "% two records " ++
     ("@"%char :: lit "book" ++ "{"%char ::
      (lit "k," ++ NL :: lit " a = 1" ++ [NL]) ++ ["}"%char]) ++
     (NL :: lit "@misc{m," ++ NL :: lit " b = 2" ++ NL :: lit "}")) =
  Return ([(lit "k", {| type := lit "book";
                        fields := [(lit "a", lit "1" ++ [NL; "}"%char])] |})] ++
          [(lit "m", {| type := lit "misc";
                        fields := [(lit "b", lit "2" ++ [NL; "}"%char])] |})]).
Proof.
  apply (read_record_then_rest (lit "% two records ") (lit "book")
           (lit "k," ++ NL :: lit " a = 1" ++ [NL])
           (NL :: lit "@misc{m," ++ NL :: lit " b = 2" ++ NL :: lit "}"));
    try reflexivity.
  cbn. intros id [<-|[]] [H|[]]. discriminate.
Defined.

(** ** The entries of a parsed collection *)

Lemma split1_aux_parts (c : ascii) (s cur a b : str) :
  split1_aux c s cur = [a; b] ->
  exists a', a = rev cur ++ a' /\ s = a' ++ c :: b /\ contains c a' = false.
Proof.
  revert cur. induction s as [|d s IH]; intros cur H; cbn [split1_aux] in H;
    [discriminate|].
  destruct (Ascii.eqb_spec d c) as [->|N].
  - inversion H; subst. exists []. now rewrite app_nil_r.
  - destruct (IH _ H) as (a' & -> & -> & Hc).
    exists (d :: a'). cbn [rev]. rewrite <- app_assoc. repeat split.
    unfold contains in *. cbn [existsb]. rewrite Hc, orb_false_r.
    apply Ascii.eqb_neq. congruence.
Qed.

Lemma split1_parts (c : ascii) (s a b : str) :
  split1 c s = [a; b] -> s = a ++ c :: b /\ contains c a = false.
Proof.
  intros H. destruct (split1_aux_parts _ _ _ _ _ H) as (a' & -> & -> & Hc).
  auto.
Qed.

Lemma split_aux_head (c : ascii) (s cur x : str) (l : list str) :
  split_aux c s cur = x :: l -> contains c cur = false ->
  contains c x = false.
Proof.
  revert cur. induction s as [|d s IH]; intros cur H Hc;
    cbn [split_aux] in H.
  - inversion H; subst. now rewrite contains_rev.
  - destruct (Ascii.eqb_spec d c) as [->|N].
    + inversion H; subst. now rewrite contains_rev.
    + apply (IH _ H). unfold contains in *. cbn [existsb].
      rewrite Hc, orb_false_r. apply Ascii.eqb_neq. congruence.
Qed.

Lemma contains_app_false (c : ascii) (a b : str) :
  contains c (a ++ b) = false ->
  contains c a = false /\ contains c b = false.
Proof. rewrite contains_app. apply orb_false_iff. Qed.

Lemma contains_skipn (c : ascii) (n : nat) (s : str) :
  contains c s = false -> contains c (skipn n s) = false.
Proof.
  intros H. rewrite <- (firstn_skipn n s) in H.
  now apply contains_app_false in H.
Qed.

Lemma lower_char_brace (c : ascii) :
  Ascii.eqb "{" (lower_char c) = Ascii.eqb "{" c.
Proof. destruct c as [[] [] [] [] [] [] [] []]; reflexivity. Qed.

Lemma contains_brace_lower (s : str) :
  contains "{" (lower s) = contains "{" s.
Proof.
  unfold contains, lower. induction s as [|c s IH]; [reflexivity|].
  cbn [map existsb]. now rewrite lower_char_brace, IH.
Qed.

Lemma rstrip_char_idem (c : ascii) (s : str) :
  rstrip_char c (rstrip_char c s) = rstrip_char c s.
Proof.
  unfold rstrip_char. now rewrite rev_involutive, dropwhile_idem.
Qed.

Lemma contains_rstrip_char (c d : ascii) (s : str) :
  contains c s = false -> contains c (rstrip_char d s) = false.
Proof.
  intros H. unfold rstrip_char. rewrite contains_rev.
  apply contains_dropwhile. now rewrite contains_rev.
Qed.

(** What [rstrip] with a character leaves of a text that starts with a
    character that is no space is empty or starts with that character. *)
Lemma lstrip_rstrip_char (d : ascii) (s : str) :
  lstrip s = s -> lstrip (rstrip_char d s) = rstrip_char d s.
Proof.
  intros H. destruct (dropwhile_fixed isspace s H) as [->|(c & s' & -> & Hc)];
    [reflexivity|].
  unfold rstrip_char. cbn [rev].
  destruct (dropwhile (Ascii.eqb d) (rev s' ++ [c])) as [|x y] eqn:D;
    [reflexivity|].
  assert (L : exists z, x :: y = z ++ [c]).
  { clear - D. revert x y D. induction (rev s') as [|e t IH]; intros x y D.
    - cbn [app dropwhile] in D. destruct (Ascii.eqb d c); [discriminate|].
      inversion D; subst. now exists [].
    - cbn [app dropwhile] in D. destruct (Ascii.eqb d e).
      + eapply IH, D.
      + inversion D; subst. now exists (x :: t). }
  destruct L as [z ->]. rewrite rev_app_distr. cbn [rev app].
  unfold lstrip. now rewrite dropwhile_stop.
Qed.

Lemma lstrip_strip (s : str) : lstrip (strip s) = strip s.
Proof.
  assert (H := strip_idem s). unfold strip at 1 in H. unfold lstrip in *.
  destruct (strip_fixed (strip s) (strip_idem s)) as [->|(c & k & -> & Hc & _)];
    [reflexivity|].
  now rewrite dropwhile_stop.
Qed.

Lemma read_record_stored (entry_text id : str) (e : entry) :
  read_record entry_text = Return (Some (id, e)) ->
  stored_id id /\ stored_entry e.
Proof.
  unfold read_record, split. intros H.
  destruct (split_aux NL entry_text []) as [|header rest] eqn:Sp;
    cbn [first_item bind] in H; [discriminate|].
  assert (Hn : contains NL header = false)
    by (apply (split_aux_head _ _ _ _ _ Sp); reflexivity).
  destruct (contains "{" (strip header)); cbn [negb] in H; [|discriminate].
  destruct (split1 "{" (strip header)) as [|a [|b [|? ?]]] eqn:S1;
    cbn [unpack2 bind] in H; try discriminate.
  destruct (split1_parts _ _ _ _ S1) as [Hh Ha].
  assert (Hns : contains NL (strip header) = false)
    by (now apply contains_strip).
  rewrite Hh in Hns. apply contains_app_false in Hns.
  destruct Hns as [Hna Hnb].
  change ("{"%char :: b) with (["{"%char] ++ b) in Hnb.
  apply contains_app_false in Hnb. destruct Hnb as [_ Hnb].
  destruct (parse_fields (strip (join [NL] (skipn 1 (header :: rest)))))
    as [fd| | |] eqn:P; cbn [bind] in H; try discriminate.
  inversion H; subst id e. clear H.
  assert (K : NoDup (map fst fd) /\ Forall stored_key (map fst fd))
    by (apply (pf_loop_keys _ _ _ _ _ P); constructor).
  destruct K as [Nd Fk].
  split.
  - repeat split.
    + now apply contains_rstrip_char, contains_strip.
    + apply lstrip_rstrip_char, lstrip_strip.
    + apply rstrip_char_idem.
  - unfold stored_entry. cbn [type fields].
    unfold od_update. rewrite (od_set_fold_fresh fd []) by exact Nd.
    cbn [app]. repeat split; try assumption.
    + apply lower_idem.
    + now rewrite strip_lower, strip_idem.
    + rewrite contains_NL_lower. apply contains_strip.
      now apply (contains_skipn NL 1 a).
    + rewrite contains_brace_lower. apply contains_strip.
      now apply (contains_skipn "{" 1 a).
Qed.

Lemma process_all_stored (texts : list str) (acc r : odict entry) :
  process_all process_bib_entry texts acc = Return r ->
  NoDup (map fst acc) ->
  Forall (fun ie => stored_id (fst ie) /\ stored_entry (snd ie)) acc ->
  NoDup (map fst r) /\
  Forall (fun ie => stored_id (fst ie) /\ stored_entry (snd ie)) r.
Proof.
  revert acc. induction texts as [|t texts IH]; intros acc H N F;
    cbn [process_all] in H.
  - inversion H; subst. auto.
  - rewrite process_bib_entry_read_record in H.
    destruct (read_record t) as [[[id e]|]| | |] eqn:R; cbn [bind] in H;
      try discriminate.
    + destruct (od_mem acc id) eqn:M; [discriminate|].
      rewrite od_set_fresh in H by exact M.
      apply (IH _ H).
      * rewrite map_app. cbn [map fst].
        apply NoDup_app; [exact N | repeat constructor; intros [] |].
        intros x Hx [<-|[]]. apply od_mem_in in Hx. congruence.
      * apply Forall_app. split; [exact F|].
        constructor; [|constructor]. now apply read_record_stored in R.
    + exact (IH _ H N F).
Qed.

(** X11.  In a collection that [read_bibtex_entries] returns no id comes
    twice; every id is without line feed, without white space in front and
    without comma at the end; every type is in lower case, stripped, and
    without line feed and opening brace; and in every entry the keys of the
    fields differ and are in lower case, stripped and without line feed. *)
Theorem read_bibtex_entries_stored (content : str) (entries : odict entry) :
  read_bibtex_entries content = Return entries ->
  NoDup (map fst entries) /\
  Forall (fun ie => stored_id (fst ie) /\ stored_entry (snd ie)) entries.
Proof.
  unfold read_bibtex_entries. intros H.
  destruct (read_loop_records content) as (texts & _ & Ht).
  rewrite Ht in H. apply (process_all_stored _ _ _ H); constructor.
Qed.

Lemma read_bibtex_entries_stored_witness :
  NoDup (map fst [(lit "Key1 ",
                   {| type := lit "book";
                      fields := [(lit "title", lit "T")] |})]) /\
  Forall (fun ie => stored_id (fst ie) /\ stored_entry (snd ie))
    [(lit "Key1 ",
      {| type := lit "book"; fields := [(lit "title", lit "T")] |})].
Proof.
  apply (read_bibtex_entries_stored
           (lit "@ BOOK { Key1 ,," ++ NL :: lit "  Title = {T}," ++ NL ::
            lit "}")).
  vm_compute. reflexivity.
Defined.

(** ** A closing brace without an open one *)

Lemma ev_run_below (w : str) (st : ev_state) :
  brace_free w = true -> (brace_level st < 0)%Z ->
  exists q,
    ev_run w st =
    inl {| index := index st + length w; brace_level := brace_level st;
           in_quotes := q; value := value st ++ w |}.
Proof.
  revert st. induction w as [|c w IH]; intros st H L.
  - exists (in_quotes st). destruct st. cbn.
    now rewrite Nat.add_0_r, app_nil_r.
  - apply brace_free_cons in H. destruct H as (H1 & H2 & H).
    cbn [ev_run]. unfold ev_step. rewrite H1, H2.
    assert (Z0 : (brace_level st =? 0)%Z = false) by (apply Z.eqb_neq; lia).
    rewrite Z0, andb_false_r. cbn [andb].
    destruct (Ascii.eqb c DQUOTE).
    + destruct (IH {| index := index st + 1; brace_level := brace_level st;
                      in_quotes := negb (in_quotes st);
                      value := value st ++ [c] |} H L) as [q E].
      exists q. rewrite E. cbn [index brace_level in_quotes value length].
      rewrite <- app_assoc.
      replace (index st + 1 + length w) with (index st + S (length w))
        by lia.
      reflexivity.
    + destruct (IH {| index := index st + 1; brace_level := brace_level st;
                      in_quotes := in_quotes st;
                      value := value st ++ [c] |} H L) as [q E].
      exists q. rewrite E. cbn [index brace_level in_quotes value length].
      rewrite <- app_assoc.
      replace (index st + 1 + length w) with (index st + S (length w))
        by lia.
      reflexivity.
Qed.

Lemma ev_run_past_brace (v w : str) (n : nat) :
  forallb bare_char v = true -> brace_free w = true ->
  ev_result (ev_run (v ++ "}"%char :: w) (ev_init n)) =
  (v ++ "}"%char :: w, n + length (v ++ "}"%char :: w)).
Proof.
  intros Hv Hw. rewrite ev_run_app.
  rewrite ev_run_bare by exact Hv.
  cbn [ev_run ev_init index brace_level in_quotes value app].
  unfold ev_step. cbn [Ascii.eqb Bool.eqb index brace_level in_quotes value].
  change (0 - 1 =? 0)%Z with false. cbv iota.
  match goal with
  | |- context [ev_run w ?st] =>
      destruct (ev_run_below w st Hw) as [q E]; [cbn; lia|]; rewrite E
  end.
  cbn [ev_result index value].
  rewrite <- app_assoc. cbn [app].
  apply f_equal2; [reflexivity|].
  rewrite !length_app. cbn [length]. lia.
Qed.

(** X12.  A closing brace that no opening brace precedes does not end a
    value, and behind it no comma ends the value either: when no further
    brace comes, the value runs to the end of the text. *)
Theorem extract_value_stray_closing_brace (pre v w : str) :
  forallb bare_char v = true -> brace_free w = true ->
  extract_value (pre ++ v ++ "}"%char :: w) (length pre) =
  Return (v ++ "}"%char :: w, length (pre ++ v ++ "}"%char :: w)).
Proof.
  intros Hv Hw.
  rewrite extract_value_run, skipn_app_length.
  rewrite ev_run_past_brace by assumption.
  apply f_equal. apply f_equal2; [reflexivity|].
  now rewrite (length_app pre).
Qed.

Lemma extract_value_stray_closing_brace_witness :
  extract_value
    (lit "a = " ++ lit "1" ++ "}"%char :: lit ", b = 2, c = 3") 4 =
  Return (lit "1" ++ "}"%char :: lit ", b = 2, c = 3",
          length (lit "a = " ++ lit "1" ++ "}"%char :: lit ", b = 2, c = 3")).
Proof.
  apply (extract_value_stray_closing_brace (lit "a = ") (lit "1")
           (lit ", b = 2, c = 3")); reflexivity.
Defined.

(** ** A record on one line *)

Lemma split_absent (c : ascii) (s : str) :
  contains c s = false -> split c s = [s].
Proof.
  unfold split. intros H.
  assert (G : forall cur, split_aux c s cur = [rev cur ++ s]).
  { unfold contains in H. induction s as [|d s IH]; intros cur.
    - cbn [split_aux]. now rewrite app_nil_r.
    - cbn [existsb] in H. apply orb_false_iff in H. destruct H as [H1 H2].
      cbn [split_aux]. rewrite Ascii.eqb_sym, H1, (IH H2). cbn [rev].
      now rewrite <- app_assoc. }
  exact (G []).
Qed.

Lemma rstrip_char_last_other (c d : ascii) (s : str) :
  Ascii.eqb c d = false -> rstrip_char c (s ++ [d]) = s ++ [d].
Proof.
  intros H. unfold rstrip_char. rewrite rev_app_distr. cbn [rev app dropwhile].
  rewrite H. cbn [rev]. now rewrite rev_involutive.
Qed.

(** X13.  A record of code points below 128 written on one line has no
    fields, whatever stands between its braces: all that follows the first
    opening brace, the closing brace of the record included, becomes the
    id, without the white space in front. *)
Theorem process_bib_entry_one_line (ty r : str) (entries : odict entry) :
  isascii ty = true -> isascii r = true ->
  contains NL ty = false -> contains "{" ty = false ->
  contains NL r = false ->
  od_mem entries (lstrip r ++ ["}"%char]) = false ->
  process_bib_entry ("@"%char :: ty ++ "{"%char :: r ++ ["}"%char]) entries =
  Return (entries ++
          [(lstrip r ++ ["}"%char],
            {| type := lower (strip ty); fields := [] |})]).
Proof.
  intros _ _ Hty Hb Hr Hm.
  rewrite process_bib_entry_read_record. unfold read_record.
  rewrite split_absent.
  2:{ change ("@"%char :: ty ++ "{"%char :: r ++ ["}"%char])
        with (["@"%char] ++ ty ++ ["{"%char] ++ r ++ ["}"%char]).
      rewrite !contains_app, Hty, Hr. reflexivity. }
  cbn [first_item bind skipn].
  assert (Hs : strip ("@"%char :: ty ++ "{"%char :: r ++ ["}"%char]) =
               ("@"%char :: ty) ++ "{"%char :: r ++ ["}"%char]).
  { assert (E : "@"%char :: ty ++ "{"%char :: r ++ ["}"%char] =
                 ("@"%char :: ty ++ "{"%char :: r) ++ ["}"%char])
      by (cbn [app]; now rewrite <- app_assoc).
    cbn [app]. rewrite E at 1. unfold strip, lstrip.
    change (dropwhile isspace (("@"%char :: ty ++ "{"%char :: r) ++ ["}"%char]))
      with (("@"%char :: ty ++ "{"%char :: r) ++ ["}"%char]).
    rewrite rstrip_last by reflexivity. now rewrite <- E. }
  rewrite Hs.
  rewrite contains_app. unfold contains at 2. cbn [existsb Ascii.eqb Bool.eqb].
  rewrite orb_true_r. cbn [negb].
  rewrite split1_app by (unfold contains in *; cbn [existsb]; now rewrite Hb).
  cbn [unpack2 bind skipn].
  assert (Hid : rstrip_char "," (strip (r ++ ["}"%char])) =
                lstrip r ++ ["}"%char]).
  { unfold strip, lstrip.
    rewrite dropwhile_app_stop by reflexivity.
    rewrite rstrip_last by reflexivity.
    now rewrite rstrip_char_last_other by reflexivity. }
  rewrite Hid.
  change (strip (join [NL] [])) with (@nil ascii).
  change (parse_fields []) with (@Return (odict str) []).
  cbn [bind od_update fold_left]. rewrite Hm.
  now rewrite od_set_fresh by exact Hm.
Qed.

Lemma process_bib_entry_one_line_witness :
  process_bib_entry
    ("@"%char :: lit "Book" ++ "{"%char ::
     lit " k1, title = {T}, year = 1999 " ++ ["}"%char]) [] =
  Return ([] ++
          [(lstrip (lit " k1, title = {T}, year = 1999 ") ++ ["}"%char],
            {| type := lower (strip (lit "Book")); fields := [] |})]).
Proof.
  apply (process_bib_entry_one_line (lit "Book")
           (lit " k1, title = {T}, year = 1999 ") []); reflexivity.
Defined.

(** ** Authors *)

Lemma format_authors_length (authors formatted r : list str) :
  format_authors authors formatted = Return r ->
  length r = length formatted + length authors.
Proof.
  revert formatted. induction authors as [|a authors IH]; intros formatted H;
    cbn [format_authors] in H.
  - inversion H. cbn [length]. lia.
  - destruct (format_author_returns a) as [f E]. rewrite E in H.
    cbn [bind] in H. apply IH in H. rewrite length_app in H.
    cbn [length] in *. lia.
Qed.

(** X14.  [split_authors] returns for every text: none of the unpackings
    and indexings of its loop raises, so that the exit of its bare [except]
    is never taken; and for a text of code points below 128 it returns one
    name for each piece between the separators [and]. *)
Theorem split_authors_never_exits (author_str : str) :
  exists names : list str,
    split_authors author_str = Return names /\
    (isascii author_str = true ->
     length names = length (re_split_and author_str)).
Proof.
  unfold split_authors.
  destruct (format_authors_returns (re_split_and author_str) []) as [r E].
  rewrite E. exists r. split; [reflexivity|]. intros _.
  now apply format_authors_length in E.
Qed.

Lemma split_authors_never_exits_witness :
  exists names : list str,
    split_authors (lit "Tolkien, John Ronald and C. S. Lewis") =
    Return names /\
    length names = 2.
Proof.
  destruct (split_authors_never_exits
              (lit "Tolkien, John Ronald and C. S. Lewis"))
    as (names & E & L).
  exists names. split; [exact E|]. exact (L eq_refl).
Defined.

Lemma rsplit1_app (c : ascii) (a b : str) :
  contains c b = false -> rsplit1 c (a ++ c :: b) = [a; b].
Proof.
  intros H. unfold rsplit1. rewrite rev_app_distr. cbn [rev].
  rewrite <- app_assoc. cbn [app].
  rewrite split1_app by (now rewrite contains_rev).
  now rewrite !rev_involutive.
Qed.

Lemma rstrip_fixed_app (a b : str) :
  rstrip b = b -> b <> [] -> rstrip (a ++ b) = a ++ b.
Proof.
  intros H N. unfold rstrip in *.
  assert (D : dropwhile isspace (rev b) = rev b).
  { apply (f_equal (@rev ascii)) in H. now rewrite rev_involutive in H. }
  destruct (dropwhile_fixed _ _ D) as [E|(c & s & E & Hc)].
  - apply (f_equal (@rev ascii)) in E. rewrite rev_involutive in E.
    now destruct N.
  - rewrite rev_app_distr, E. cbn [app].
    rewrite dropwhile_stop by exact Hc.
    change (c :: s ++ rev a) with ((c :: s) ++ rev a).
    now rewrite <- E, <- rev_app_distr, rev_involutive.
Qed.

Lemma strip_between (a m b : str) :
  strip a = a -> a <> [] -> strip b = b -> b <> [] ->
  strip (a ++ m ++ b) = a ++ m ++ b.
Proof.
  intros Ha Na Hb Nb.
  destruct (strip_fixed a Ha) as [->|(c & a' & -> & Hc & _)];
    [now destruct Na|].
  destruct (strip_fixed b Hb) as [->|(d & b' & Eb & _ & Hr)];
    [now destruct Nb|].
  unfold strip, lstrip. cbn [app]. rewrite dropwhile_stop by exact Hc.
  replace (c :: a' ++ m ++ b) with ((c :: a' ++ m) ++ b)
    by (cbn [app]; now rewrite <- app_assoc).
  now apply rstrip_fixed_app.
Qed.

(** X15.  An author of code points below 128 written as [Last, First] and
    the same author written as [First Last] give the same name: the
    abbreviated first names, a space and the last name. *)
Theorem format_author_both_orders (first last : str) :
  isascii first = true -> isascii last = true ->
  strip first = first -> first <> [] ->
  strip last = last -> last <> [] ->
  contains "," first = false -> contains "," last = false ->
  contains " " last = false ->
  exists a : str,
    abbreviate_name first = Return a /\
    format_author (last ++ lit ", " ++ first) = Return (a ++ lit " " ++ last) /\
    format_author (first ++ lit " " ++ last) = Return (a ++ lit " " ++ last).
Proof.
  intros _ _ Hf Nf Hl Nl Cf Cl Sl.
  destruct (abbreviate_name_returns first) as [a Ea]. exists a.
  split; [exact Ea|]. split.
  - unfold format_author.
    rewrite strip_between by assumption.
    cbn [lit list_ascii_of_string app].
    rewrite contains_app. unfold contains at 2.
    cbn [existsb Ascii.eqb Bool.eqb]. rewrite orb_true_r.
    rewrite split1_app by exact Cl. cbn [map].
    assert (E : strip (" "%char :: first) = first).
    { unfold strip, lstrip. cbn [dropwhile].
      change (isspace " ") with true. cbv iota. exact Hf. }
    rewrite E, Hl. cbn [unpack2 bind]. rewrite Ea. reflexivity.
  - unfold format_author.
    rewrite strip_between by assumption.
    cbn [lit list_ascii_of_string app].
    rewrite contains_app, Cf.
    change (contains "," (" "%char :: last)) with (contains "," last).
    rewrite Cl. cbn [orb].
    rewrite contains_app. unfold contains at 2.
    cbn [existsb Ascii.eqb Bool.eqb]. rewrite orb_true_r.
    rewrite rsplit1_app by exact Sl. cbn [unpack2 bind]. rewrite Ea.
    reflexivity.
Qed.

Lemma format_author_both_orders_witness :
  exists a : str,
    abbreviate_name (lit "John Ronald") = Return a /\
    format_author (lit "Tolkien" ++ lit ", " ++ lit "John Ronald") =
      Return (a ++ lit " " ++ lit "Tolkien") /\
    format_author (lit "John Ronald" ++ lit " " ++ lit "Tolkien") =
      Return (a ++ lit " " ++ lit "Tolkien").
Proof.
  apply (format_author_both_orders (lit "John Ronald") (lit "Tolkien"));
    (reflexivity || discriminate).
Defined.

(** ** DOI resolution *)

Lemma exact_doi_loop_passed (article_title : str) (pre rest : list item) :
  forallb (title_passed article_title) pre = true ->
  exact_doi_loop article_title (pre ++ rest) =
  exact_doi_loop article_title rest.
Proof.
  induction pre as [|it pre IH]; intros H; [reflexivity|].
  cbn [forallb] in H. apply andb_true_iff in H. destruct H as [Hi H].
  cbn [app exact_doi_loop]. unfold title_passed in Hi.
  destruct (item_title it) as [[|t ts]|]; [discriminate| |exact (IH H)].
  cbn [first_item bind]. apply negb_true_iff in Hi. rewrite Hi. exact (IH H).
Qed.

(** X16.  For an entry that is no [article], with titles of code points
    below 128 in the entry and in the items up to the match, the first item
    with a matching first title decides, whatever follows it: its DOI is
    stored under the key [doi], and when it has none the entry stays as it
    is, also when a later item matches and has a DOI. *)
Theorem update_DOI_first_match (respond : str -> nat -> list item)
  (e : entry) (title : str) (sent : list query) (pre : list item)
  (it : item) (rest : list item) :
  str_eqb (type e) (lit "article") = false ->
  od_get (fields e) (lit "title") = Some title ->
  respond title 10 = pre ++ it :: rest ->
  isascii title = true ->
  forallb isascii_item pre = true -> isascii_item it = true ->
  forallb (title_passed title) pre = true ->
  title_matches title it = true ->
  update_DOI respond e sent =
  (Return match item_DOI it with
          | Some d => {| type := type e;
                         fields := od_set (fields e) (lit "doi") d |}
          | None => e
          end,
   sent ++ [(title, 10)]).
Proof.
  intros Ht Hg Hr _ _ _ Hp Hm. unfold update_DOI, od_getitem.
  change (entry_mem e (lit "doi")) with false. cbn [negb].
  rewrite Hg, Ht. unfold get_exact_doi, works.
  rewrite Hr, exact_doi_loop_passed by exact Hp.
  cbn [exact_doi_loop]. unfold title_matches in Hm.
  destruct (item_title it) as [[|t ts]|]; try discriminate.
  cbn [first_item bind]. rewrite Hm. cbn [bind].
  destruct (item_DOI it); reflexivity.
Qed.

Lemma update_DOI_first_match_witness :
  update_DOI
    (fun _ _ =>
       [{| item_title := None; item_DOI := Some (lit "10.1/a") |}] ++
       {| item_title := Some [lit " on BRACES "]; item_DOI := None |} ::
       [{| item_title := Some [lit "On braces"];
           item_DOI := Some (lit "10.1/c") |}])
    {| type := lit "book"; fields := [(lit "title", lit "On braces")] |}
    [] =
  (Return match @None str with
          | Some d =>
              {| type := lit "book";
                 fields := od_set [(lit "title", lit "On braces")]
                             (lit "doi") d |}
          | None =>
              {| type := lit "book";
                 fields := [(lit "title", lit "On braces")] |}
          end,
   [] ++ [(lit "On braces", 10)]).
Proof.
  apply (update_DOI_first_match
           (fun _ _ =>
              [{| item_title := None; item_DOI := Some (lit "10.1/a") |}] ++
              {| item_title := Some [lit " on BRACES "];
                 item_DOI := None |} ::
              [{| item_title := Some [lit "On braces"];
                  item_DOI := Some (lit "10.1/c") |}])
           {| type := lit "book";
              fields := [(lit "title", lit "On braces")] |}
           (lit "On braces") []
           [{| item_title := None; item_DOI := Some (lit "10.1/a") |}]
           {| item_title := Some [lit " on BRACES "]; item_DOI := None |}
           [{| item_title := Some [lit "On braces"];
               item_DOI := Some (lit "10.1/c") |}]); reflexivity.
Defined.

(** X17.  For an entry that is no [article], with titles of code points
    below 128 in the entry and in the items before, an item with an empty
    list of titles that comes before any match makes [update_DOI] raise
    [IndexError], at [item["title"][0]]; the query has been sent. *)
Theorem update_DOI_empty_title_list (respond : str -> nat -> list item)
  (e : entry) (title : str) (sent : list query) (pre : list item)
  (it : item) (rest : list item) :
  str_eqb (type e) (lit "article") = false ->
  od_get (fields e) (lit "title") = Some title ->
  respond title 10 = pre ++ it :: rest ->
  isascii title = true -> forallb isascii_item pre = true ->
  forallb (title_passed title) pre = true ->
  item_title it = Some [] ->
  update_DOI respond e sent = (Raise IndexError, sent ++ [(title, 10)]).
Proof.
  intros Ht Hg Hr _ _ Hp Hm. unfold update_DOI, od_getitem.
  change (entry_mem e (lit "doi")) with false. cbn [negb].
  rewrite Hg, Ht. unfold get_exact_doi, works.
  rewrite Hr, exact_doi_loop_passed by exact Hp.
  cbn [exact_doi_loop]. rewrite Hm. reflexivity.
Qed.

Lemma update_DOI_empty_title_list_witness :
  update_DOI
    (fun _ _ =>
       [{| item_title := Some [lit "Other"]; item_DOI := None |}] ++
       {| item_title := Some []; item_DOI := Some (lit "10.1/b") |} :: [])
    {| type := lit "book"; fields := [(lit "title", lit "On braces")] |}
    [] =
  (Raise IndexError, [] ++ [(lit "On braces", 10)]).
Proof.
  apply (update_DOI_empty_title_list
           (fun _ _ =>
              [{| item_title := Some [lit "Other"]; item_DOI := None |}] ++
              {| item_title := Some []; item_DOI := Some (lit "10.1/b") |}
              :: [])
           {| type := lit "book";
              fields := [(lit "title", lit "On braces")] |}
           (lit "On braces") []
           [{| item_title := Some [lit "Other"]; item_DOI := None |}]
           {| item_title := Some []; item_DOI := Some (lit "10.1/b") |}
           []); reflexivity.
Defined.

(** X18.  For an [article] no title is compared: the DOI of the first item
    of the answer is stored under the key [doi], and the text
    [DOI not found] when that item has none. *)
Theorem update_DOI_article_first_item (respond : str -> nat -> list item)
  (e : entry) (title : str) (sent : list query) (it : item)
  (rest : list item) :
  type e = lit "article" ->
  od_get (fields e) (lit "title") = Some title ->
  respond title 1 = it :: rest ->
  update_DOI respond e sent =
  (Return {| type := type e;
             fields := od_set (fields e) (lit "doi")
                         match item_DOI it with
                         | Some d => d
                         | None => lit "DOI not found"
                         end |},
   sent ++ [(title, 1)]).
Proof.
  intros Ht Hg Hr. unfold update_DOI, od_getitem.
  change (entry_mem e (lit "doi")) with false. cbn [negb].
  rewrite Hg, Ht, str_eqb_refl. unfold get_doi, works. rewrite Hr.
  reflexivity.
Qed.

Lemma update_DOI_article_first_item_witness :
  update_DOI
    (fun _ _ =>
       [{| item_title := Some [lit "Another title"];
           item_DOI := Some (lit "10.1/x") |}])
    {| type := lit "article"; fields := [(lit "title", lit "On braces")] |}
    [] =
  (Return {| type := lit "article";
             fields := od_set [(lit "title", lit "On braces")] (lit "doi")
                         match Some (lit "10.1/x") with
                         | Some d => d
                         | None => lit "DOI not found"
                         end |},
   [] ++ [(lit "On braces", 1)]).
Proof.
  apply (update_DOI_article_first_item
           (fun _ _ =>
              [{| item_title := Some [lit "Another title"];
                  item_DOI := Some (lit "10.1/x") |}])
           {| type := lit "article";
              fields := [(lit "title", lit "On braces")] |}
           (lit "On braces") []
           {| item_title := Some [lit "Another title"];
              item_DOI := Some (lit "10.1/x") |} []); reflexivity.
Defined.

(** ** The driver *)

Lemma remove_dummy_fields_get (e : entry) (k : str) :
  od_get (fields (remove_dummy_fields e)) k =
  if dummy_field (type e) k then None else od_get (fields e) k.
Proof.
  assert (F : fields (remove_dummy_fields e) =
    filter (fun kv => negb (dummy_field (type e) (fst kv))) (fields e)).
  { unfold remove_dummy_fields, dummy_field. cbn [fields type].
    destruct (str_eqb (type e) (lit "article")).
    - rewrite !remove_fields_filter, filter_filter.
      apply filter_ext. intros [k0 v]. cbn [fst].
      rewrite existsb_app, negb_orb. reflexivity.
    - rewrite remove_fields_filter, app_nil_r. reflexivity. }
  rewrite F. destruct (dummy_field (type e) k) eqn:D.
  - apply (od_get_filter_out (fun k => negb (dummy_field (type e) k))).
    now rewrite D.
  - apply (od_get_filter (fun k => negb (dummy_field (type e) k))).
    now rewrite D.
Qed.

Lemma update_DOI_return (respond : str -> nat -> list item) (e e' : entry)
  (sent sent' : list query) :
  update_DOI respond e sent = (Return e', sent') ->
  type e' = type e /\
  (fields e' = fields e \/
   exists d, fields e' = od_set (fields e) (lit "doi") d) /\
  exists title,
    od_get (fields e) (lit "title") = Some title /\
    sent' = sent ++
            [(title, if str_eqb (type e) (lit "article") then 1 else 10)].
Proof.
  unfold update_DOI, od_getitem.
  change (entry_mem e (lit "doi")) with false. cbn [negb].
  destruct (od_get (fields e) (lit "title")) as [title|]; [|discriminate].
  destruct (str_eqb (type e) (lit "article")).
  - unfold get_doi, works. destruct (respond title 1) as [|it l];
      intros H; inversion H; subst; cbn [type fields]; eauto 7.
  - unfold get_exact_doi, works.
    destruct (exact_doi_loop title (respond title 10)) as [[d|]| | |];
      cbn [bind]; intros H; inversion H; subst; cbn [type fields]; eauto 7.
Qed.

Lemma title_not_dummy (bibtype : str) :
  dummy_field bibtype (lit "title") = false.
Proof.
  unfold dummy_field. destruct (str_eqb bibtype (lit "article")); reflexivity.
Qed.

Section DriverFacts.

Variable respond : str -> nat -> list item.

Lemma filter_loop_app (a b : odict entry) (bib_file : str)
  (sent : list query) :
  filter_loop respond (a ++ b) bib_file sent =
  match filter_loop respond a bib_file sent with
  | (Return _, bib_file', sent') => filter_loop respond b bib_file' sent'
  | r => r
  end.
Proof.
  revert bib_file sent. induction a as [|[key e] a IH]; intros bib_file sent;
    [reflexivity|].
  cbn [app filter_loop].
  destruct (update_DOI respond (remove_dummy_fields e) sent)
    as [[e'| | |] sent']; try reflexivity.
  apply IH.
Qed.

(** X19.  An entry without a title stops the run with [KeyError]: the
    entries before it are in the file, and for the entry and those behind
    it nothing is written and no query is sent. *)
Theorem filter_loop_stops_without_title (a : odict entry) (key : str)
  (e : entry) (b : odict entry) (bib_file bib_file' : str)
  (sent sent' : list query) :
  filter_loop respond a bib_file sent = (Return tt, bib_file', sent') ->
  od_get (fields e) (lit "title") = None ->
  filter_loop respond (a ++ (key, e) :: b) bib_file sent =
  (Raise (KeyError (lit "title")), bib_file', sent').
Proof.
  intros Ha Ht. rewrite filter_loop_app, Ha. cbn [filter_loop].
  unfold update_DOI, od_getitem.
  change (entry_mem (remove_dummy_fields e) (lit "doi")) with false.
  cbn [negb]. rewrite remove_dummy_fields_get, Ht.
  destruct (dummy_field (type e) (lit "title")); reflexivity.
Qed.

(** X20.  When the loop of the driver ends, the file has been extended by
    the texts of as many entries as were read, under the same ids and in
    the same order; each written entry has the type of the read one and,
    but for [doi], its fields without the removed ones; and one query has
    been sent for each entry, in the order of the entries: for its title,
    with limit 1 for an [article] and 10 otherwise. *)
Theorem filter_loop_written (parsed_bib : odict entry)
  (bib_file bib_file' : str) (sent sent' : list query) :
  filter_loop respond parsed_bib bib_file sent =
    (Return tt, bib_file', sent') ->
  exists (written : odict entry) (queries : list query),
    bib_file' =
      bib_file ++
      concat (map (fun ke => entry2str (fst ke) (snd ke)) written) /\
    Forall2 (fun ke ke' => fst ke' = fst ke /\ kept_fields (snd ke) (snd ke'))
      parsed_bib written /\
    sent' = sent ++ queries /\
    Forall2 (fun ke q =>
               od_get (fields (snd ke)) (lit "title") = Some (fst q) /\
               snd q = if str_eqb (type (snd ke)) (lit "article")
                       then 1 else 10)
      parsed_bib queries.
Proof.
  revert bib_file sent.
  induction parsed_bib as [|[key e] rest IH]; intros bib_file sent H.
  - cbn [filter_loop] in H. inversion H; subst. exists [], [].
    cbn [map concat]. rewrite !app_nil_r.
    split; [reflexivity|]. split; [constructor|].
    split; [reflexivity | constructor].
  - cbn [filter_loop] in H.
    destruct (update_DOI respond (remove_dummy_fields e) sent)
      as [[e'| | |] s1] eqn:U; try discriminate.
    destruct (update_DOI_return _ _ _ _ _ U) as (Ty & Fd & title & Ht & ->).
    destruct (IH _ _ H) as (written & queries & Hf & Hw & Hs & Hq).
    rewrite remove_dummy_fields_get, title_not_dummy in Ht.
    exists ((key, e') :: written),
           ((title, if str_eqb (type e) (lit "article") then 1 else 10)
            :: queries).
    split; [|split; [|split]].
    + rewrite Hf. cbn [map concat fst snd]. now rewrite <- app_assoc.
    + constructor; [|exact Hw]. cbn [fst snd]. split; [reflexivity|].
      split; [exact Ty|]. intros k Hk.
      rewrite <- remove_dummy_fields_get.
      destruct Fd as [->|[d ->]]; [reflexivity|].
      rewrite od_get_od_set.
      destruct (str_eqb (lit "doi") k) eqn:E; [|reflexivity].
      apply str_eqb_eq in E. congruence.
    + rewrite Hs, <- app_assoc. reflexivity.
    + constructor; [|exact Hq]. cbn [fst snd]. split; [exact Ht|reflexivity].
Qed.

End DriverFacts.

Lemma filter_loop_stops_without_title_witness :
  filter_loop (fun _ _ => [])
    ([(lit "a", {| type := lit "article";
                   fields := [(lit "title", lit "T")] |})] ++
     (lit "b", {| type := lit "book"; fields := [(lit "year", lit "1")] |}) ::
     [(lit "c", {| type := lit "book";
                   fields := [(lit "title", lit "U")] |})])
    [] [] =
  (Raise (KeyError (lit "title")),
   entry2str (lit "a")
     {| type := lit "article";
        fields := [(lit "title", lit "T");
                   (lit "doi", lit "DOI not found")] |},
   [(lit "T", 1)]).
Proof.
  apply (filter_loop_stops_without_title (fun _ _ => [])
           [(lit "a", {| type := lit "article";
                         fields := [(lit "title", lit "T")] |})]
           (lit "b")
           {| type := lit "book"; fields := [(lit "year", lit "1")] |}
           [(lit "c", {| type := lit "book";
                         fields := [(lit "title", lit "U")] |})]
           [] _ [] _); reflexivity.
Defined.

Lemma filter_loop_written_witness :
  exists (written : odict entry) (queries : list query),
    entry2str (lit "a")
      {| type := lit "book"; fields := [(lit "title", lit "T")] |} =
      [] ++ concat (map (fun ke => entry2str (fst ke) (snd ke)) written) /\
    Forall2 (fun ke ke' => fst ke' = fst ke /\ kept_fields (snd ke) (snd ke'))
      [(lit "a", {| type := lit "book";
                    fields := [(lit "owner", lit "me");
                               (lit "title", lit "T")] |})]
      written /\
    [(lit "T", 10)] = [] ++ queries /\
    Forall2 (fun ke q =>
               od_get (fields (snd ke)) (lit "title") = Some (fst q) /\
               snd q = if str_eqb (type (snd ke)) (lit "article")
                       then 1 else 10)
      [(lit "a", {| type := lit "book";
                    fields := [(lit "owner", lit "me");
                               (lit "title", lit "T")] |})]
      queries.
Proof.
  apply (filter_loop_written (fun _ _ => [])
           [(lit "a", {| type := lit "book";
                         fields := [(lit "owner", lit "me");
                                    (lit "title", lit "T")] |})]
           [] _ [] _).
  reflexivity.
Defined.

(** ** Two fields on one line *)

Lemma eq_char_lower (c : ascii) :
  Ascii.eqb "=" (lower_char c) = Ascii.eqb "=" c.
Proof. destruct c as [[] [] [] [] [] [] [] []]; reflexivity. Qed.

Lemma contains_eq_lower (s : str) :
  contains "=" (lower s) = contains "=" s.
Proof.
  unfold contains, lower. induction s as [|c s IH]; [reflexivity|].
  cbn [map existsb]. now rewrite eq_char_lower, IH.
Qed.

Lemma contains_dropwhile_space (c : ascii) (s : str) :
  isspace c = false ->
  contains c (dropwhile isspace s) = contains c s.
Proof.
  intros Hc. unfold contains. induction s as [|d s IH]; [reflexivity|].
  cbn [dropwhile]. destruct (isspace d) eqn:E; [|reflexivity].
  cbn [existsb]. rewrite IH.
  destruct (Ascii.eqb_spec c d) as [->|_]; [congruence | reflexivity].
Qed.

Lemma contains_strip_eq (c : ascii) (s : str) :
  isspace c = false -> contains c (strip s) = contains c s.
Proof.
  intros Hc. unfold strip, rstrip, lstrip.
  rewrite contains_rev, contains_dropwhile_space by exact Hc.
  rewrite contains_rev. now apply contains_dropwhile_space.
Qed.

Lemma strip_trailing_space (k : str) : strip (k ++ lit " ") = strip k.
Proof.
  induction k as [|c k IH]; [reflexivity|].
  unfold strip, lstrip in *. cbn [app dropwhile].
  destruct (isspace c); [exact IH|].
  change (c :: k ++ lit " ") with ((c :: k) ++ lit " ").
  now apply rstrip_spaces.
Qed.

(** A key with [=] is none of the keys whose values are rewritten. *)
Lemma normalize_value_other (key value : str) :
  contains "=" key = true ->
  normalize_value key value = Return (rstrip_char "," value).
Proof.
  intros H. unfold normalize_value.
  assert (N : forall k, contains "=" k = false -> str_eqb key k = false).
  { intros k Hk. apply str_eqb_neq. intros ->. congruence. }
  cbn [existsb]. rewrite !N by reflexivity. reflexivity.
Qed.

(** X22.  The key of a field is all that stands between the start of its
    line and the sign [=]: of two fields of code points below 128 written
    on one line the second is stored under a key that holds the whole first
    field, and with its value as it is, but for the commas at its end. *)
Theorem parse_fields_two_on_a_line (k1 v1 k2 v2 w1 : str) :
  isascii (k1 ++ v1 ++ k2 ++ v2) = true ->
  contains NL k1 = false -> contains "=" k1 = false ->
  nests v1 0 = true -> contains NL v1 = false ->
  contains NL k2 = false -> contains "=" k2 = false ->
  nests v2 0 = true ->
  normalize_value (lower (strip k1)) v1 = Return w1 ->
  parse_fields
    (k1 ++ lit " = {" ++ v1 ++ lit "}, " ++ k2 ++ lit " = {" ++ v2 ++ lit "}")
  = Return
      [(lower (strip k1), w1);
       (lower (strip (k1 ++ lit " = {" ++ v1 ++ lit "}, " ++ k2)),
        rstrip_char "," v2)].
Proof.
  intros _ N1 E1 V1 NV1 N2 E2 V2 W1.
  set (l1 := k1 ++ lit " ").
  set (l2 := l1 ++ lit "= {" ++ v1 ++ lit "}, " ++ k2 ++ lit " ").
  set (text := k1 ++ lit " = {" ++ v1 ++ lit "}, " ++ k2 ++ lit " = {" ++
               v2 ++ lit "}").
  assert (T1 : text = [] ++ l1 ++ "="%char :: " "%char :: "{"%char :: v1 ++
                      "}"%char :: (lit ", " ++ k2 ++ lit " = {" ++ v2 ++
                                   lit "}"))
    by (unfold text, l1; now list_norm).
  assert (T2 : text = [] ++ l2 ++ "="%char :: " "%char :: "{"%char :: v2 ++
                      "}"%char :: [])
    by (unfold text, l2, l1; now list_norm).
  assert (Hl1 : contains NL l1 = false /\ contains "=" l1 = false).
  { unfold l1. rewrite !contains_app, N1, E1. split; reflexivity. }
  destruct Hl1 as [Hl1n Hl1e].
  assert (Hl2 : contains NL l2 = false).
  { unfold l2. rewrite !contains_app, Hl1n, NV1, N2. reflexivity. }
  assert (S1 : strip l1 = strip k1) by apply strip_trailing_space.
  assert (S2 : strip l2 = strip (k1 ++ lit " = {" ++ v1 ++ lit "}, " ++ k2)).
  { unfold l2, l1.
    replace ((k1 ++ lit " ") ++ lit "= {" ++ v1 ++ lit "}, " ++ k2 ++ lit " ")
      with ((k1 ++ lit " = {" ++ v1 ++ lit "}, " ++ k2) ++ lit " ")
      by (now list_norm).
    apply strip_trailing_space. }
  assert (K2 : contains "=" (lower (strip l2)) = true).
  { rewrite contains_eq_lower, contains_strip_eq by reflexivity.
    unfold l2. rewrite !contains_app. cbn. now rewrite orb_true_r. }
  unfold parse_fields. fold text.
  (* the first key *)
  rewrite (pf_loop_skip l1 _ text 0 []
             ("="%char :: " "%char :: "{"%char :: v1 ++
              "}"%char :: (lit ", " ++ k2 ++ lit " = {" ++ v2 ++ lit "}")));
    [ | lia | rewrite T1 at 1; reflexivity | exact Hl1e ].
  cbn [Nat.add].
  assert (F1 := pf_loop_field (S (length text)) [] l1 v1
                  (lit ", " ++ k2 ++ lit " = {" ++ v2 ++ lit "}") [] w1).
  cbv zeta in F1. rewrite <- T1 in F1. cbn [app] in F1.
  rewrite F1; [ | lia | now left | exact Hl1n | exact V1
              | now rewrite S1 ].
  clear F1. rewrite lower_idem, S1. cbn [od_set].
  (* the rest of the line *)
  rewrite (pf_loop_skip (lit ", " ++ k2 ++ lit " ") _ text _ _
             ("="%char :: " "%char :: "{"%char :: v2 ++ "}"%char :: [])).
  2: lia.
  2:{ rewrite T1 at 1. cbn [app].
      replace (length l1 + 4 + length v1)
        with (length (l1 ++ "="%char :: " "%char :: "{"%char :: v1 ++
                      ["}"%char]))
        by (rewrite !length_app; cbn [length]; rewrite length_app;
            cbn [length]; lia).
      match goal with
      | |- skipn (length ?a) ?x = ?r =>
          replace x with (a ++ r) by (now list_norm)
      end.
      apply skipn_app_length. }
  2:{ rewrite !contains_app, E2. reflexivity. }
  assert (L2 : length l1 + 4 + length v1 +
               length (lit ", " ++ k2 ++ lit " ") = length l2).
  { unfold l2. rewrite !length_app. cbn [length lit list_ascii_of_string].
    lia. }
  rewrite L2.
  assert (F2 := pf_loop_field (S (length text)) [] l2 v2 []
                  [(lower (strip k1), w1)] (rstrip_char "," v2)).
  cbv zeta in F2. rewrite <- T2 in F2. cbn [app] in F2.
  rewrite F2; [ | lia | now left | exact Hl2 | exact V2
              | now apply normalize_value_other ].
  clear F2. rewrite lower_idem, S2.
  rewrite pf_loop_end;
    [ | lia
      | rewrite T2; cbn [app]; rewrite !length_app; cbn [length];
        rewrite length_app; cbn [length]; lia ].
  cbn [od_set].
  assert (D : str_eqb (lower (strip k1))
                (lower (strip (k1 ++ lit " = {" ++ v1 ++ lit "}, " ++ k2)))
              = false).
  { apply str_eqb_neq. intros Eq. rewrite <- S2 in Eq.
    rewrite <- Eq in K2.
    rewrite contains_eq_lower, contains_strip_eq in K2 by reflexivity.
    congruence. }
  now rewrite D.
Qed.

Lemma parse_fields_two_on_a_line_witness :
  parse_fields
    (lit "year" ++ lit " = {" ++ lit "1937" ++ lit "}, " ++ lit "Title" ++
     lit " = {" ++ lit "The Hobbit," ++ lit "}")
  = Return
      [(lower (strip (lit "year")), lit "1937");
       (lower (strip (lit "year" ++ lit " = {" ++ lit "1937" ++ lit "}, " ++
                      lit "Title")),
        rstrip_char "," (lit "The Hobbit,"))].
Proof.
  apply (parse_fields_two_on_a_line (lit "year") (lit "1937") (lit "Title")
           (lit "The Hobbit,") (lit "1937")); reflexivity.
Defined.

(** ** Field removal, twice *)

Lemma remove_dummy_fields_filter (e : entry) :
  remove_dummy_fields e =
  {| type := type e;
     fields := filter (fun kv => negb (dummy_field (type e) (fst kv)))
                 (fields e) |}.
Proof.
  unfold remove_dummy_fields, dummy_field. f_equal.
  destruct (str_eqb (type e) (lit "article")).
  - rewrite !remove_fields_filter, filter_filter.
    apply filter_ext. intros [k0 v]. cbn [fst].
    rewrite existsb_app, negb_orb. reflexivity.
  - rewrite remove_fields_filter, app_nil_r. reflexivity.
Qed.

(** X21.  [remove_dummy_fields] removes all it can at once: on an entry
    from which it has removed the fields it changes nothing, and it leaves
    no field under a key that it removes for the type of the entry. *)
Theorem remove_dummy_fields_idempotent (e : entry) :
  remove_dummy_fields (remove_dummy_fields e) = remove_dummy_fields e /\
  forall k : str,
    dummy_field (type e) k && od_mem (fields (remove_dummy_fields e)) k
    = false.
Proof.
  split.
  - rewrite (remove_dummy_fields_filter (remove_dummy_fields e)).
    rewrite (remove_dummy_fields_filter e). cbn [type fields].
    f_equal. rewrite filter_filter. apply filter_ext. intros kv.
    apply andb_diag.
  - intros k. destruct (dummy_field (type e) k) eqn:D; [|reflexivity].
    cbn [andb]. rewrite remove_dummy_fields_filter. cbn [fields].
    unfold od_mem. induction (fields e) as [|[k0 v] d IH]; [reflexivity|].
    cbn [filter fst]. destruct (dummy_field (type e) k0) eqn:D0;
      cbn [negb]; [exact IH|].
    cbn [existsb fst]. rewrite IH, orb_false_r.
    apply str_eqb_neq. intros ->. congruence.
Qed.

(** ** The written file, read again *)

Lemma universal_newlines_id (s : str) :
  contains CR s = false -> universal_newlines s = s.
Proof.
  unfold contains. induction s as [|c s IH]; [reflexivity|].
  cbn [existsb]. intros H. apply orb_false_iff in H. destruct H as [H1 H2].
  cbn [universal_newlines]. rewrite Ascii.eqb_sym, H1. now rewrite (IH H2).
Qed.

(** X23.  A collection of code points below 128 is read back from the file
    the driver writes for it, the texts of [entry2str] one behind the
    other, when the text holds no carriage return (so that it is read as
    it was written), the ids differ and each entry is one that is read
    back from its own text: the ids, the types and the fields come back in
    their order. *)
Theorem reread_written_entries (es : odict entry) :
  forallb (fun ke => isascii (fst ke) && isascii_entry (snd ke)) es = true ->
  contains CR (concat (map (fun ke => entry2str (fst ke) (snd ke)) es))
  = false ->
  NoDup (map fst es) ->
  Forall (fun ke => plain_entry (fst ke) (snd ke)) es ->
  read_bibtex_entries
    (universal_newlines
       (concat (map (fun ke => entry2str (fst ke) (snd ke)) es))) =
  Return es.
Proof.
  intros _ Hcr. rewrite universal_newlines_id by exact Hcr. clear Hcr.
  induction es as [|[key e] es IH]; intros N F; [reflexivity|].
  inversion N as [|x xs Nk N']; subst x xs.
  inversion F as [|x xs He F']; subst x xs. cbn [fst snd] in *.
  specialize (IH N' F').
  cbn [map concat fst snd].
  set (T := concat (map (fun ke => entry2str (fst ke) (snd ke)) es)) in *.
  assert (He' := He).
  destruct He' as ((Htb & _) & (Hkb & _) & _ & Hfs).
  rewrite entry2str_lines.
  set (body := (key ++ ","%char :: concat (map field_line (fields e)) ++ [NL])).
  set (r := type e ++ "{"%char :: body ++ ["}"%char]).
  assert (Erec : ("@"%char :: type e ++ "{"%char :: key ++ [","%char]) ++
                 concat (map field_line (fields e)) ++ [NL; "}"%char] =
                 "@"%char :: r) by (unfold r, body; now list_norm).
  assert (W := process_bib_entry_written key e He). rewrite Erec in W.
  match goal with |- read_bibtex_entries ?x = _ =>
    replace x with ([] ++ ("@"%char :: r) ++ ([NL; NL] ++ T))
      by (unfold r, body; now list_norm) end.
  unfold read_bibtex_entries in *.
  rewrite (read_loop_record process_bib_entry [] ("@"%char :: r)
             ([NL; NL] ++ T) r [] eq_refl eq_refl).
  - rewrite W. cbn [bind].
    rewrite read_loop_leading by reflexivity.
    destruct (read_loop_records T) as (texts & _ & Ht).
    rewrite Ht in *.
    assert (P := process_all_behind texts [] es [(key, e)] IH).
    rewrite app_nil_r in P. apply P.
    intros id [<-|[]]. exact Nk.
  - unfold r.
    rewrite closing_offset_record.
    + f_equal. cbn [length]. repeat (rewrite !length_app; cbn [length]). lia.
    + exact Htb.
    + unfold body. apply nests_app; [exact Hkb|].
      rewrite nests_other by reflexivity.
      apply nests_app; [now apply nests_lines | reflexivity].
Qed.

Lemma reread_written_entries_witness :
  read_bibtex_entries
    (universal_newlines
       (concat (map (fun ke => entry2str (fst ke) (snd ke))
                  [(lit "a", {| type := lit "book";
                                fields := [(lit "title", lit "T")] |});
                   (lit "b", {| type := lit "article";
                                fields := [(lit "title", lit "U");
                                           (lit "year", lit "1937")] |})]))) =
  Return [(lit "a", {| type := lit "book";
                       fields := [(lit "title", lit "T")] |});
          (lit "b", {| type := lit "article";
                       fields := [(lit "title", lit "U");
                                  (lit "year", lit "1937")] |})].
Proof.
  apply reread_written_entries.
  - reflexivity.
  - reflexivity.
  - cbn [map fst].
    repeat (constructor;
            [cbn; intros H;
             repeat (destruct H as [H|H]; [discriminate H|]); exact H|]).
    constructor.
  - repeat (constructor;
            [unfold plain_entry; cbn [type fields fst snd];
             split; [repeat split; reflexivity|];
             split; [repeat split; reflexivity|];
             split;
             [cbn [map fst];
              repeat (constructor;
                      [cbn; intros H;
                       repeat (destruct H as [H|H]; [discriminate H|]);
                       exact H|]);
              constructor
             |repeat (constructor; [repeat split; reflexivity|]);
              constructor]|]).
    constructor.
Defined.

(** ** Abbreviated names, abbreviated again *)

Lemma replace_dot (fuel : nat) (s : str) :
  length s <= fuel ->
  replace_aux fuel (lit ".") (lit ". ") s = flat_map dot_space s.
Proof.
  revert s. induction fuel as [|fuel IH]; intros s H.
  - destruct s; [reflexivity | cbn [length] in H; lia].
  - destruct s as [|c s]; [reflexivity|].
    cbn [length] in H.
    cbn [replace_aux flat_map lit list_ascii_of_string startswith length skipn].
    unfold dot_space at 1. rewrite andb_true_r.
    destruct (Ascii.eqb "." c); cbn [app lit list_ascii_of_string];
      rewrite IH by lia; reflexivity.
Qed.

Lemma upper_letter_facts (c : ascii) :
  implb (isupper_char c)
    (negb (isspace c) && negb (Ascii.eqb "." c) && isalpha_char c) = true.
Proof. destruct c as [[] [] [] [] [] [] [] []]; reflexivity. Qed.

Lemma letter_upper_facts (c : ascii) :
  implb (isalpha_char c)
    (negb (isspace (upper_char c)) && negb (Ascii.eqb "." (upper_char c)))
  = true.
Proof. destruct c as [[] [] [] [] [] [] [] []]; reflexivity. Qed.

Lemma contains_removelast (c : ascii) (s : str) :
  contains c s = false -> contains c (removelast s) = false.
Proof.
  unfold contains. induction s as [|d s IH]; [reflexivity|].
  cbn [existsb]. intros H. apply orb_false_iff in H. destruct H as [H1 H2].
  cbn [removelast]. destruct s as [|e s]; [reflexivity|].
  cbn [existsb]. rewrite H1. cbn [orb]. exact (IH H2).
Qed.

Lemma name_token_rev (c : ascii) (cur : str) :
  forallb (fun x => negb (isspace x)) (c :: cur) = true ->
  contains "." cur = false ->
  name_token (rev (c :: cur)) = true.
Proof.
  intros Hs Hd. unfold name_token.
  assert (N : nonempty (rev (c :: cur)) = true)
    by (cbn [rev]; now destruct (rev cur)).
  rewrite N. cbn [andb].
  assert (S : forallb (fun x => negb (isspace x)) (rev (c :: cur)) = true).
  { rewrite forallb_forall in *. intros x Hx. apply Hs. now apply in_rev. }
  rewrite S. cbn [andb rev]. rewrite removelast_last.
  now rewrite contains_rev, Hd.
Qed.

(** The parts [abbreviate_name] splits a name into are tokens. *)
Lemma split_ws_dots (s cur : str) :
  forallb (fun x => negb (isspace x)) cur = true ->
  contains "." cur = false ->
  Forall (fun p => name_token p = true)
    (split_ws_aux (flat_map dot_space s) cur).
Proof.
  revert cur. induction s as [|c s IH]; intros cur Hs Hd.
  - cbn [flat_map split_ws_aux]. destruct cur as [|d cur]; constructor;
      [|constructor].
    apply name_token_rev; [exact Hs|].
    unfold contains in *. cbn [existsb] in Hd.
    now apply orb_false_iff in Hd.
  - cbn [flat_map]. unfold dot_space at 1.
    destruct (Ascii.eqb_spec "."%char c) as [<-|N].
    + cbn [lit list_ascii_of_string app split_ws_aux].
      change (isspace ".") with false. change (isspace " ") with true.
      cbv iota. constructor; [|apply IH; reflexivity].
      apply name_token_rev; [|exact Hd].
      cbn [forallb]. now rewrite Hs.
    + cbn [app split_ws_aux]. destruct (isspace c) eqn:E.
      * destruct cur as [|d cur]; [apply IH; reflexivity|].
        constructor; [|apply IH; reflexivity].
        apply name_token_rev; [exact Hs|].
        unfold contains in *. cbn [existsb] in Hd.
        now apply orb_false_iff in Hd.
      * apply IH.
        -- cbn [forallb]. now rewrite E, Hs.
        -- unfold contains in *. cbn [existsb]. rewrite Hd, orb_false_r.
           now apply Ascii.eqb_neq.
Qed.

(** What is made of the parts are tokens that are not alphabetic. *)
Lemma abbreviate_part_tokens (part : str) :
  name_token part = true ->
  Forall (fun p => name_token p = true /\ isalpha p = false)
    (abbreviate_part part).
Proof.
  intros T. unfold abbreviate_part.
  destruct (is_all_uppercase part) eqn:U.
  - apply is_all_uppercase_iff in U. destruct U as [_ U].
    clear T. induction part as [|l part IH]; [constructor|].
    cbn [forallb] in U. apply andb_true_iff in U. destruct U as [Ul U].
    cbn [map]. constructor; [|exact (IH U)].
    assert (F := upper_letter_facts l). rewrite Ul in F. cbn [implb] in F.
    apply andb_true_iff in F. destruct F as [F Fa].
    apply andb_true_iff in F. destruct F as [Fs Fd].
    apply negb_true_iff in Fd.
    split.
    + unfold name_token. cbn [nonempty forallb removelast andb].
      rewrite Fs. change (isspace ".") with false.
      unfold contains. cbn [existsb negb andb]. now rewrite Fd.
    + cbn [isalpha forallb]. rewrite Fa. reflexivity.
  - destruct (isalpha part) eqn:A; [|repeat constructor; assumption].
    destruct part as [|c part]; [discriminate|].
    cbn [isalpha forallb] in A. apply andb_true_iff in A.
    destruct A as [Ac _]. cbn [hd].
    assert (F := letter_upper_facts c). rewrite Ac in F. cbn [implb] in F.
    apply andb_true_iff in F. destruct F as [Fs Fd].
    apply negb_true_iff in Fd.
    constructor; [|constructor]. split.
    + unfold name_token. cbn [nonempty forallb removelast andb].
      rewrite Fs. change (isspace ".") with false.
      unfold contains. cbn [existsb negb andb]. now rewrite Fd.
    + cbn [isalpha forallb].
      change (isalpha_char ".") with false.
      now rewrite andb_false_r.
Qed.

Lemma flat_map_abbreviate_tokens (parts : list str) :
  Forall (fun p => name_token p = true) parts ->
  Forall (fun p => name_token p = true /\ isalpha p = false)
    (flat_map abbreviate_part parts).
Proof.
  induction 1 as [|p parts Hp _ IH]; [constructor|].
  cbn [flat_map]. apply Forall_app. split; [|exact IH].
  now apply abbreviate_part_tokens.
Qed.

Lemma flat_map_abbreviate_fixed (pieces : list str) :
  Forall (fun p => name_token p = true /\ isalpha p = false) pieces ->
  flat_map abbreviate_part pieces = pieces.
Proof.
  induction 1 as [|p pieces [_ Hp] _ IH]; [reflexivity|].
  cbn [flat_map]. rewrite IH. unfold abbreviate_part, is_all_uppercase.
  now rewrite Hp.
Qed.

Lemma split_ws_aux_run (q rest cur : str) :
  forallb (fun x => negb (isspace x)) q = true ->
  split_ws_aux (q ++ rest) cur = split_ws_aux rest (rev q ++ cur).
Proof.
  revert cur. induction q as [|c q IH]; intros cur H; [reflexivity|].
  cbn [forallb] in H. apply andb_true_iff in H. destruct H as [Hc H].
  apply negb_true_iff in Hc.
  cbn [app split_ws_aux rev]. rewrite Hc, IH by exact H.
  now rewrite <- app_assoc.
Qed.

Lemma flat_map_dot_free (q : str) :
  contains "." q = false -> flat_map dot_space q = q.
Proof.
  unfold contains. induction q as [|c q IH]; [reflexivity|].
  cbn [existsb]. intros H. apply orb_false_iff in H. destruct H as [H1 H2].
  cbn [flat_map]. rewrite (IH H2). unfold dot_space. now rewrite H1.
Qed.

(** A token, after [replace], is split off as it is when white space or
    the end of the text follows. *)
Lemma split_ws_token (p rest : str) :
  name_token p = true ->
  split_ws_aux (flat_map dot_space p ++ " "%char :: rest) [] =
    p :: split_ws_aux rest [] /\
  split_ws_aux (flat_map dot_space p) [] = [p].
Proof.
  intros T. unfold name_token in T.
  apply andb_true_iff in T. destruct T as [T Td].
  apply andb_true_iff in T. destruct T as [Tn Ts].
  apply negb_true_iff in Td.
  destruct (exists_last (l := p)) as (q & c & ->);
    [intros ->; discriminate|].
  rewrite removelast_last in Td.
  rewrite forallb_app in Ts. apply andb_true_iff in Ts.
  destruct Ts as [Tq Tc]. cbn [forallb] in Tc. rewrite andb_true_r in Tc.
  apply negb_true_iff in Tc.
  rewrite flat_map_app, flat_map_dot_free by exact Td.
  cbn [flat_map]. rewrite app_nil_r.
  assert (R : rev (c :: rev q ++ []) = q ++ [c]).
  { rewrite app_nil_r. cbn [rev]. now rewrite rev_involutive. }
  unfold dot_space. destruct (Ascii.eqb "." c) eqn:E.
  - split.
    + rewrite <- app_assoc, split_ws_aux_run by exact Tq.
      cbn [lit list_ascii_of_string app split_ws_aux].
      apply Ascii.eqb_eq in E. subst c.
      change (isspace ".") with false. change (isspace " ") with true.
      cbv iota. now rewrite R.
    + rewrite split_ws_aux_run by exact Tq.
      cbn [lit list_ascii_of_string app split_ws_aux].
      apply Ascii.eqb_eq in E. subst c.
      change (isspace ".") with false. change (isspace " ") with true.
      cbv iota. now rewrite R.
  - split.
    + rewrite <- app_assoc, split_ws_aux_run by exact Tq.
      cbn [app split_ws_aux]. rewrite Tc.
      change (isspace " ") with true. cbv iota. now rewrite R.
    + rewrite split_ws_aux_run by exact Tq.
      cbn [app split_ws_aux]. rewrite Tc. now rewrite R.
Qed.

Lemma split_ws_joined (pieces : list str) :
  Forall (fun p => name_token p = true) pieces ->
  split_ws (flat_map dot_space (join (lit " ") pieces)) = pieces.
Proof.
  unfold split_ws. induction 1 as [|p pieces Hp _ IH]; [reflexivity|].
  destruct pieces as [|p2 pieces].
  - cbn [join]. now apply split_ws_token.
  - rewrite join_cons_cons.
    assert (E : flat_map dot_space
                  (p ++ lit " " ++ join (lit " ") (p2 :: pieces)) =
                flat_map dot_space p ++
                " "%char :: flat_map dot_space (join (lit " ") (p2 :: pieces)))
      by (rewrite !flat_map_app; reflexivity).
    rewrite E.
    destruct (split_ws_token p
                (flat_map dot_space (join (lit " ") (p2 :: pieces))) Hp)
      as [-> _].
    now rewrite IH.
Qed.

(** X24.  [abbreviate_name] is idempotent: the name it returns is returned
    as it is when it is abbreviated again. *)
Theorem abbreviate_name_idempotent (name : str) :
  exists a : str,
    abbreviate_name name = Return a /\ abbreviate_name a = Return a.
Proof.
  set (pieces := flat_map abbreviate_part
                   (split_ws (replace (lit ".") (lit ". ") name))).
  exists (join (lit " ") pieces). split; [apply abbreviate_name_join|].
  assert (P : Forall (fun p => name_token p = true /\ isalpha p = false)
                pieces).
  { apply flat_map_abbreviate_tokens. unfold replace, split_ws.
    rewrite replace_dot by lia. now apply split_ws_dots. }
  rewrite abbreviate_name_join. unfold replace.
  rewrite replace_dot by lia.
  rewrite split_ws_joined
    by (eapply Forall_impl; [|exact P]; now intros p [Hp _]).
  now rewrite flat_map_abbreviate_fixed.
Qed.

(** ** The last field of a record *)

(** The field parser on the last line of a record and its closing brace,
    where the value is bare and no comma follows it. *)
Lemma parse_fields_last_bare (k : str) (c : ascii) (v w : str) :
  contains NL k = false -> contains "=" k = false ->
  forallb bare_char (c :: v) = true ->
  contains c [" "%char; TAB; NL] = false ->
  normalize_value (lower (strip k)) ((c :: v) ++ [NL; "}"%char]) = Return w ->
  parse_fields (k ++ lit " = " ++ (c :: v) ++ [NL; "}"%char]) =
  Return [(lower (strip k), w)].
Proof.
  intros Nk Ek Hv Hc Hw.
  set (l := k ++ lit " ").
  set (r := "="%char :: " "%char :: (c :: v) ++ [NL; "}"%char]).
  set (text := k ++ lit " = " ++ (c :: v) ++ [NL; "}"%char]).
  assert (T : text = [] ++ l ++ r) by (unfold text, l, r; now list_norm).
  assert (Hl : contains NL l = false /\ contains "=" l = false).
  { unfold l. rewrite !contains_app, Nk, Ek. split; reflexivity. }
  destruct Hl as [Hln Hle].
  assert (Sl : strip l = strip k) by apply strip_trailing_space.
  unfold parse_fields. fold text.
  rewrite (pf_loop_skip l _ text 0 [] r);
    [ | lia | rewrite T; reflexivity | exact Hle ].
  cbn [Nat.add].
  assert (Sk : skipn (length l) text = r).
  { rewrite T. cbn [app]. apply skipn_app_length. }
  destruct (skipn_cons_at _ _ _ _ Sk) as (_ & Sk1 & L).
  destruct (skipn_cons_at _ _ _ _ Sk1) as (_ & Sk2 & L1).
  destruct (key_start_at [] l r (or_introl eq_refl) Hln) as [K1 K2].
  rewrite <- T in K1, K2. cbn [app] in K1, K2.
  assert (Tv : text = (l ++ lit "= ") ++ ((c :: v) ++ [NL]) ++ ["}"%char])
    by (unfold text, l; now list_norm).
  assert (Ev : extract_value text (length l + 1 + 1) =
               Return ((c :: v) ++ [NL; "}"%char], length text)).
  { replace (length l + 1 + 1) with (length (l ++ lit "= "))
      by (rewrite length_app; cbn [length lit list_ascii_of_string]; lia).
    rewrite extract_value_run. rewrite Tv at 1.
    rewrite skipn_app_length, ev_run_past_brace;
      [ | rewrite forallb_app, Hv; reflexivity | reflexivity ].
    apply f_equal. apply f_equal2; [now list_norm|].
    rewrite Tv, <- length_app. reflexivity. }
  cbn [pf_loop]. destruct (Nat.ltb_spec (length l) (length text)); [|lia].
  rewrite (getitem_at _ _ _ _ Sk). cbn [bind Ascii.eqb Bool.eqb].
  rewrite K1, K2.
  assert (Hlen : exists f, length text = S f)
    by (exists (length text - 1); lia).
  destruct Hlen as [f Hlen]. rewrite Hlen.
  rewrite (skip_loop_one_space f text _ _ _ Sk1) by exact Hc.
  cbn [bind]. rewrite Ev. cbn [bind]. rewrite Sl, Hw. cbn [bind od_set].
  rewrite lower_idem.
  destruct f as [|f]; [lia|]. cbn [pf_loop].
  destruct (Nat.ltb_spec (length text + 1) (length text)); [lia|].
  reflexivity.
Qed.

(** X25.  In a record of code points below 128 with one field, the field
    takes the closing brace of the record when its value is in no braces
    and no comma follows it: the value is extracted with the line feed and
    the brace behind it, and what the parser makes of that text for the key
    is stored. *)
Theorem last_bare_field_takes_closing_brace (ty id k : str) (c : ascii)
  (v w : str) :
  isascii (ty ++ id ++ k ++ c :: v) = true ->
  contains NL ty = false -> contains "{" ty = false ->
  contains NL id = false ->
  strip k = k -> k <> [] ->
  contains NL k = false -> contains "=" k = false ->
  forallb bare_char (c :: v) = true ->
  contains c [" "%char; TAB; NL] = false ->
  normalize_value (lower k) ((c :: v) ++ [NL; "}"%char]) = Return w ->
  process_bib_entry
    (("@"%char :: ty ++ "{"%char :: id ++ lit ",") ++ NL ::
     k ++ lit " = " ++ (c :: v) ++ [NL; "}"%char]) [] =
  Return [(rstrip_char "," (lstrip id),
           {| type := lower (strip ty); fields := [(lower k, w)] |})].
Proof.
  intros _ Nty Bty Nid Sk Nk Nlk Ek Hv Hc Hw.
  rewrite process_bib_entry_read_record. unfold read_record.
  rewrite split_first.
  2:{ change ("@"%char :: ty ++ "{"%char :: id ++ lit ",")
        with (["@"%char] ++ ty ++ ["{"%char] ++ id ++ lit ",").
      rewrite !contains_app, Nty, Nid. reflexivity. }
  cbn [first_item bind skipn]. rewrite join_split.
  assert (Hs : strip ("@"%char :: ty ++ "{"%char :: id ++ lit ",") =
               ("@"%char :: ty) ++ "{"%char :: id ++ lit ",").
  { assert (E : "@"%char :: ty ++ "{"%char :: id ++ lit "," =
                 ("@"%char :: ty ++ "{"%char :: id) ++ [","%char])
      by (now list_norm).
    cbn [app]. rewrite E at 1. unfold strip, lstrip.
    change (dropwhile isspace
              (("@"%char :: ty ++ "{"%char :: id) ++ [","%char]))
      with (("@"%char :: ty ++ "{"%char :: id) ++ [","%char]).
    rewrite rstrip_last by reflexivity. now rewrite <- E. }
  rewrite Hs.
  rewrite contains_app. unfold contains at 2. cbn [existsb Ascii.eqb Bool.eqb].
  rewrite orb_true_r. cbn [negb].
  rewrite split1_app by (unfold contains in *; cbn [existsb]; now rewrite Bty).
  cbn [unpack2 bind skipn].
  assert (Hid : rstrip_char "," (strip (id ++ lit ",")) =
                rstrip_char "," (lstrip id)).
  { unfold strip, lstrip. cbn [lit list_ascii_of_string].
    rewrite dropwhile_app_stop by reflexivity.
    rewrite rstrip_last by reflexivity.
    apply rstrip_char_last. }
  rewrite Hid.
  assert (Ht : strip (k ++ lit " = " ++ (c :: v) ++ [NL; "}"%char]) =
               k ++ lit " = " ++ (c :: v) ++ [NL; "}"%char]).
  { replace (k ++ lit " = " ++ (c :: v) ++ [NL; "}"%char])
      with (k ++ (lit " = " ++ (c :: v) ++ [NL]) ++ ["}"%char])
      by (now list_norm).
    apply strip_between; (assumption || reflexivity || discriminate). }
  rewrite Ht.
  rewrite (parse_fields_last_bare k c v w) by (rewrite ?Sk; assumption).
  cbn [bind od_update fold_left od_set fst snd od_mem existsb].
  now rewrite Sk.
Qed.

Lemma last_bare_field_takes_closing_brace_witness :
  process_bib_entry
    (("@"%char :: lit "book" ++ "{"%char :: lit "tolkien1937" ++ lit ",") ++
     NL :: lit "year" ++ lit " = " ++ ("1"%char :: lit "937") ++
     [NL; "}"%char]) [] =
  Return [(rstrip_char "," (lstrip (lit "tolkien1937")),
           {| type := lower (strip (lit "book"));
              fields := [(lower (lit "year"),
                          lit "1937" ++ [NL; "}"%char])] |})].
Proof.
  apply (last_bare_field_takes_closing_brace (lit "book") (lit "tolkien1937")
           (lit "year") "1"%char (lit "937")
           (lit "1937" ++ [NL; "}"%char]));
    (reflexivity || discriminate).
Defined.
